(** * NHazid: the HAZID workshop table (app.js)

    A shallow embedding of the parts of [app.js] that decide how a hazard's
    ragged lists of causes, consequences and measures are laid out on the
    exported worksheet, how the risk matrix is generated, looked up,
    exported and imported, and how the hazard document is persisted.

    Conventions.
    - Row numbers, indices and lengths are JavaScript numbers holding
      integers; they are modelled as [Z] (all values stay far below 2^53, so
      the arithmetic is exact).
    - The only real floating-point computation of the program, the risk
      ratio of [updateRiskMatrix], is modelled with binary64 floats
      ([PrimFloat]), which is what a JavaScript number is.
    - A JavaScript value that may be [undefined] is an [option]; a JavaScript
      object used as a dictionary is a [gmap] with [string] keys, holding
      the properties of the object itself. What a plain object inherits
      from [Object.prototype] is modelled where the program indexes an
      object with a key it did not build: the import of the matrix
      ([importCell]) and the severity descriptions
      ([setSeverityDescription]). The keys of the matrix that the program
      builds have a ['-'] in them, which no inherited name has.
    - A JavaScript string is a [string]. Identifiers, keys and texts are
      only compared, joined and copied, for which the alphabet does not
      matter. Where the program looks inside a string ([cssHexToARGB]: its
      length and its upper-case form), the model is that of the strings of
      ASCII characters ([isAscii]: one character per UTF-16 code unit, all
      below 128), and the statements that depend on it say so.
    - ExcelJS is an external collaborator: the worksheet is modelled as the
      ordered trace of the calls the program makes on it.
    - The repository holds two revisions of the file. The functions embedded
      here read the same in both; the later one also saves [compactMode],
      restores it in [init], and adds [getRiskLevel] and the Risk Summary
      worksheet. The embedding follows the later revision. *)

From Stdlib Require Import ZArith Uint63 PrimFloat Ascii String.
From Stdlib Require QArith.
From stdpp Require Import gmap strings list fin_maps.

Open Scope string_scope.
Open Scope list_scope.
Open Scope Z_scope.

(** ** JavaScript helpers *)

(** A completion of a JavaScript computation: a value or a thrown error. *)
Inductive JsError := TypeError | SyntaxError | QuotaExceededError.

Inductive JsResult (A : Type) :=
| Ok (a : A)
| Throw (e : JsError).
Arguments Ok {A} a.
Arguments Throw {A} e.

Definition bindJs {A B} (m : JsResult A) (k : A -> JsResult B) : JsResult B :=
  match m with
  | Ok a => k a
  | Throw e => Throw e
  end.

#[global] Instance JsResult_ret : MRet JsResult := fun A a => Ok a.
#[global] Instance JsResult_bind : MBind JsResult := fun A B k m => bindJs m k.

(** [try { body } catch (e) { handler }] *)
Definition tryCatch {A} (body : JsResult A) (handler : JsError -> A) : A :=
  match body with
  | Ok a => a
  | Throw e => handler e
  end.

(** [Array.prototype.map] with a callback that may throw. *)
Fixpoint mapJs {A B} (f : A -> JsResult B) (l : list A) : JsResult (list B) :=
  match l with
  | [] => Ok []
  | x :: t => y ← f x; ys ← mapJs f t; Ok (y :: ys)
  end.

(** Truthiness of a value that is [undefined] or a string. *)
Definition truthy (v : option string) : bool :=
  match v with
  | Some s => negb (String.eqb s "")
  | None => false
  end.

(** [v || ''] on a value that is [undefined] or a string. *)
Definition orEmpty (v : option string) : string :=
  match v with
  | Some s => s
  | None => ""
  end.

(** [xs || []] *)
Definition orNil {A} (v : option (list A)) : list A :=
  match v with
  | Some l => l
  | None => []
  end.

(** [array.length] *)
Definition len {A} (l : list A) : Z := Z.of_nat (length l).

(** [array.forEach((x, i) => ...)] threading the state the callback mutates. *)
Fixpoint forEachFrom {A S} (f : A -> Z -> S -> S) (i : Z) (l : list A) (s : S) : S :=
  match l with
  | [] => s
  | x :: t => forEachFrom f (i + 1) t (f x i s)
  end.

Definition forEach {A S} (f : A -> Z -> S -> S) (l : list A) (s : S) : S :=
  forEachFrom f 0 l s.

(** [array.reduce((acc, x) => ..., init)] *)
Definition reduce {A B} (f : B -> A -> B) (l : list A) (init : B) : B :=
  fold_left f l init.

Definition newline : string := String (ascii_of_nat 10) "".

(** [strings.join(sep)] *)
Fixpoint join (sep : string) (l : list string) : string :=
  match l with
  | [] => ""
  | [s] => s
  | s :: t => s +:+ sep +:+ join sep t
  end.

(** ** Data model (the JSDoc types at the top of app.js) *)

Record Measure := mkMeasure { m_id : string; m_text : string }.

Record Cause := mkCause {
  c_id : string;
  c_text : string;
  preventionMeasures : option (list Measure)
}.

Record Risk := mkRisk {
  severityCategory : option string;
  severityLevel : option string;
  likelihoodLevel : option string;
  riskScore : option string
}.

Record Consequence := mkConsequence {
  q_id : string;
  q_text : string;
  mitigationMeasures : option (list Measure);
  risk : option Risk
}.

Record Recommendation := mkRecommendation {
  r_id : string;
  action : string;
  responsible : string
}.

(** Entries of [causes] and [consequences] may be [null] (the code guards
    every access with [cause ? ... : ...]). *)
Record Hazard := mkHazard {
  h_id : string;
  title : string;
  description : string;
  causes : list (option Cause);
  consequences : list (option Consequence);
  recommendations : list Recommendation
}.

Record LikelihoodLevel := mkLikelihood {
  lik_id : string; lik_label : string; lik_description : string
}.

Record SeverityLevel := mkSeverity {
  sev_id : string; sev_label : string; sev_description : string; sev_category : string
}.

Record RiskLevel := mkRiskLevel {
  rl_id : string; rl_label : string; rl_color : string
}.

(** [state.riskMatrix]. A cell of [matrix] holds whatever
    [riskLevels[k]] evaluated to, which is [undefined] when the list is
    shorter than [k+1]: hence [option RiskLevel] as the value type. *)
Record RiskMatrix := mkRiskMatrix {
  likelihood : list LikelihoodLevel;
  severity : list SeverityLevel;
  severityDescriptions : gmap string (gmap string string);
  riskLevels : list RiskLevel;
  matrix : gmap string (option RiskLevel)
}.

(** ** Block row count (exportToExcel, first lines of the hazard loop) *)

(** [cause ? (cause.preventionMeasures || []).length : 0] *)
Definition causeMeasureCount (cause : option Cause) : Z :=
  match cause with
  | Some c => len (orNil (preventionMeasures c))
  | None => 0
  end.

(** [cons ? (cons.mitigationMeasures || []).length : 0] *)
Definition consMeasureCount (cons : option Consequence) : Z :=
  match cons with
  | Some c => len (orNil (mitigationMeasures c))
  | None => 0
  end.

Definition totalPreventionMeasures (hazard : Hazard) : Z :=
  reduce (fun sum cause =>
            let measures := causeMeasureCount cause in
            sum + Z.max measures 1)
         (causes hazard) 0.

Definition totalMitigationMeasures (hazard : Hazard) : Z :=
  reduce (fun sum cons =>
            let measures := consMeasureCount cons in
            sum + Z.max measures 1)
         (consequences hazard) 0.

(** [Math.max(totalPreventionMeasures, totalMitigationMeasures, 1)] *)
Definition blockRows (hazard : Hazard) : Z :=
  Z.max (Z.max (totalPreventionMeasures hazard) (totalMitigationMeasures hazard)) 1.

(** ** Application state *)

(** [state]; the clipboard and the bow-tie colours belong to features that
    never touch the layout, the risk matrix or the persistence contract. *)
Record State := mkState {
  hazards : list Hazard;
  autosave : bool;
  compactMode : bool;
  riskMatrix : RiskMatrix
}.

Definition setHazards (hs : list Hazard) (st : State) : State :=
  mkState hs (autosave st) (compactMode st) (riskMatrix st).

Definition setCompactMode (b : bool) (st : State) : State :=
  mkState (hazards st) (autosave st) b (riskMatrix st).

Definition setRiskMatrix (rm : RiskMatrix) (st : State) : State :=
  mkState (hazards st) (autosave st) (compactMode st) rm.

Definition setLikelihood (ls : list LikelihoodLevel) (rm : RiskMatrix) : RiskMatrix :=
  mkRiskMatrix ls (severity rm) (severityDescriptions rm) (riskLevels rm) (matrix rm).

Definition setSeverityDescriptions (d : gmap string (gmap string string))
    (rm : RiskMatrix) : RiskMatrix :=
  mkRiskMatrix (likelihood rm) (severity rm) d (riskLevels rm) (matrix rm).

Definition setRiskLevels (rs : list RiskLevel) (rm : RiskMatrix) : RiskMatrix :=
  mkRiskMatrix (likelihood rm) (severity rm) (severityDescriptions rm) rs (matrix rm).

Definition setMatrix (m : gmap string (option RiskLevel)) (rm : RiskMatrix) : RiskMatrix :=
  mkRiskMatrix (likelihood rm) (severity rm) (severityDescriptions rm) (riskLevels rm) m.

(** ** Risk helpers *)

(** [o.field] where [o] may be [undefined]: reading a property of
    [undefined] throws a TypeError. *)
Definition prop {A B} (field : A -> B) (o : option A) : JsResult B :=
  match o with
  | Some a => Ok (field a)
  | None => Throw TypeError
  end.

(** The condition [o ? ... : ...] on a value that is an object or
    [undefined]. *)
Definition defined {A} (o : option A) : bool :=
  match o with
  | Some _ => true
  | None => false
  end.

(** [`${likelihoodLevel}-${severityLevel}`] *)
Definition cellKey (likelihoodLevel severityLevel : string) : string :=
  likelihoodLevel +:+ "-" +:+ severityLevel.

(** [matrix[key]]: [undefined] when the key is absent and also when the
    cell holds [undefined]. *)
Definition cell (m : gmap string (option RiskLevel)) (key : string) : option RiskLevel :=
  match m !! key with
  | Some v => v
  | None => None
  end.

Definition computeRiskScore (st : State) (severityLevel likelihoodLevel : option string)
    : JsResult string :=
  if negb (truthy severityLevel) || negb (truthy likelihoodLevel) then Ok ""
  else
    let key := cellKey (orEmpty likelihoodLevel) (orEmpty severityLevel) in
    let riskLevel := cell (matrix (riskMatrix st)) key in
    if defined riskLevel then prop rl_label riskLevel else Ok "".

Definition getRiskLevelColor (st : State) (severityLevel likelihoodLevel : option string)
    : JsResult string :=
  if negb (truthy severityLevel) || negb (truthy likelihoodLevel) then Ok ""
  else
    let key := cellKey (orEmpty likelihoodLevel) (orEmpty severityLevel) in
    let riskLevel := cell (matrix (riskMatrix st)) key in
    if defined riskLevel then prop rl_color riskLevel else Ok "".

Definition getRiskLevel (st : State) (severityLevel likelihoodLevel : option string)
    : JsResult string :=
  if negb (truthy severityLevel) || negb (truthy likelihoodLevel) then Ok ""
  else
    let key := cellKey (orEmpty likelihoodLevel) (orEmpty severityLevel) in
    let riskLevel := cell (matrix (riskMatrix st)) key in
    if defined riskLevel then prop rl_label riskLevel else Ok "".

(** A JavaScript number holding the integer [z] (exact below 2^53). *)
Definition js_num (z : Z) : float :=
  if z <? 0 then PrimFloat.opp (PrimFloat.of_uint63 (Uint63.of_Z (- z)))
  else PrimFloat.of_uint63 (Uint63.of_Z z).

(** The literals [0.7] and [0.4] as the binary64 values they denote. *)
Definition lit_0_7 : float := 0x1.6666666666666p-1%float.
Definition lit_0_4 : float := 0x1.999999999999ap-2%float.

(** [riskSum / maxSum] *)
Definition riskRatio (riskSum maxSum : Z) : float :=
  PrimFloat.div (js_num riskSum) (js_num maxSum).

(** [a >= b] on numbers *)
Definition js_ge (a b : float) : bool := PrimFloat.leb b a.

(** The body of the inner callback of [updateRiskMatrix]. *)
Definition assignCell (rm : RiskMatrix) (lik : LikelihoodLevel) (li : Z)
    (sev : SeverityLevel) (si : Z)
    (m : gmap string (option RiskLevel)) : gmap string (option RiskLevel) :=
  let key := cellKey (lik_id lik) (sev_id sev) in
  let riskLevel := riskLevels rm !! 0%nat in
  let riskSum := li + si in
  let maxSum := (len (likelihood rm) - 1) + (len (severity rm) - 1) in
  let riskRatio := riskRatio riskSum maxSum in
  let riskLevel :=
    if js_ge riskRatio lit_0_7 then riskLevels rm !! 2%nat
    else if js_ge riskRatio lit_0_4 then riskLevels rm !! 1%nat
    else riskLevel in
  <[key := riskLevel]> m.

Definition updateRiskMatrix (rm : RiskMatrix) : RiskMatrix :=
  setMatrix
    (forEach (fun lik li m => forEach (fun sev si m => assignCell rm lik li sev si m)
                                      (severity rm) m)
             (likelihood rm) ∅)
    rm.

Definition defaultSeverityDescriptions : gmap string (gmap string string) :=
  let row (p a e r o : string) : gmap string string :=
    <["personnel" := p]> (<["asset" := a]> (<["environmental" := e]>
      (<["reputation" := r]> (<["operation" := o]> ∅)))) in
  <["1" := row "Minor injury, no lost time" "Minor damage, easily repairable"
              "Minimal environmental impact" "No reputation impact"
              "No operational impact"]>
  (<["2" := row "Minor injury, some lost time" "Moderate damage, repairable"
               "Minor environmental impact" "Minor local reputation impact"
               "Minor operational disruption"]>
  (<["3" := row "Serious injury, significant lost time" "Major damage, expensive repair"
               "Moderate environmental impact" "Moderate reputation impact"
               "Moderate operational disruption"]>
  (<["4" := row "Major injury, permanent disability" "Severe damage, major repair cost"
               "Major environmental impact" "Major reputation impact"
               "Major operational disruption"]>
  (<["5" := row "Multiple fatalities" "Total loss of facility"
               "Permanent environmental damage" "Major international effect"
               "Loss of operation up to a year"]> ∅)))).

(** The initial value of [state.riskMatrix], which is also what
    [loadDefaultRiskMatrix] installs before regenerating the mapping. *)
Definition initialRiskMatrix : RiskMatrix := {|
  likelihood := [
    mkLikelihood "A" "A" "Very unlikely";
    mkLikelihood "B" "B" "Unlikely";
    mkLikelihood "C" "C" "Possible";
    mkLikelihood "D" "D" "Likely";
    mkLikelihood "E" "E" "Very likely" ];
  severity := [
    mkSeverity "1" "1" "Negligible effect" "personnel";
    mkSeverity "2" "2" "Minor effect" "personnel";
    mkSeverity "3" "3" "Moderate effect" "personnel";
    mkSeverity "4" "4" "Major effect" "personnel";
    mkSeverity "5" "5" "Severest effect" "personnel" ];
  severityDescriptions := defaultSeverityDescriptions;
  riskLevels := [
    mkRiskLevel "low" "Low" "#28a745";
    mkRiskLevel "medium" "Medium" "#ffc107";
    mkRiskLevel "high" "High" "#dc3545" ];
  matrix := ∅
|}.

Definition loadDefaultRiskMatrix (st : State) : State :=
  setRiskMatrix (updateRiskMatrix initialRiskMatrix) st.

Definition initialState : State := {|
  hazards := [];
  autosave := true;
  compactMode := false;
  riskMatrix := initialRiskMatrix
|}.

(** ** The worksheet as a trace of calls *)

(** The calls [exportToExcel] makes on the HAZID worksheet, in order:
    [sheet.addRow], the helper [mergeAndSet], the border and alignment
    assignment of the styling loop, and the fill and font assignment of the
    risk colouring pass. *)
Inductive SheetCall :=
| AddRow (cells : list string)
| MergeAndSet (startRow col rowSpan : Z) (value : string)
| CellStyle (row col : Z) (borderArgb : string)
| RiskFill (row col : Z) (fillArgb fontArgb : string).

(** What one [mergeAndSet] call does on the ExcelJS worksheet. *)
Inductive ExcelOp :=
| mergeCells (top left bottom right : Z)
| setCellValue (row col : Z) (value : string)
| setCellAlignmentTopLeftWrap (row col : Z).

Definition mergeAndSet (startRow col rowSpan : Z) (value : string) : list ExcelOp :=
  let endRow := startRow + Z.max rowSpan 1 - 1 in
  (if endRow >? startRow then [mergeCells startRow col endRow col] else [])
  ++ [setCellValue startRow col value; setCellAlignmentTopLeftWrap startRow col].

(** The strings of ASCII characters: every code unit is below 128. *)
Fixpoint isAscii (s : string) : bool :=
  match s with
  | EmptyString => true
  | String c t => (nat_of_ascii c <? 128)%nat && isAscii t
  end.

(** [c.toUpperCase()] for an ASCII character: the letters a to z. *)
Definition toUpperChar (c : ascii) : ascii :=
  let n := nat_of_ascii c in
  if (97 <=? n)%nat && (n <=? 122)%nat then ascii_of_nat (n - 32) else c.

(** [s.toUpperCase()] for a string of ASCII characters; upper-casing other
    characters can change the length of a string (a sharp s becomes "SS"),
    which this function does not model. *)
Fixpoint toUpperCase (s : string) : string :=
  match s with
  | EmptyString => EmptyString
  | String c t => String (toUpperChar c) (toUpperCase t)
  end.

(** [hex.replace('#','')]: removes the first ['#'] only. *)
Fixpoint removeFirstHash (s : string) : string :=
  match s with
  | EmptyString => EmptyString
  | String c t => if Ascii.eqb c "#"%char then t else String c (removeFirstHash t)
  end.

(** [clean.split('').map(x => x + x).join('')] *)
Fixpoint doubleChars (s : string) : string :=
  match s with
  | EmptyString => EmptyString
  | String c t => String c (String c (doubleChars t))
  end.

(** [cssHexToARGB(hex)], for a string of ASCII characters (see
    [toUpperCase]). *)
Definition cssHexToARGB (hex : string) : string :=
  let clean := removeFirstHash hex in
  if (String.length clean =? 6)%nat then "FF" +:+ toUpperCase clean
  else if (String.length clean =? 3)%nat then "FF" +:+ toUpperCase (doubleChars clean)
  else "FF000000".

Definition borderColor : string := "#024F75".

(** ** exportToExcel: the block of one hazard *)

Definition causeText (cause : option Cause) : string :=
  match cause with
  | Some c => c_text c
  | None => ""
  end.

Definition consText (cons : option Consequence) : string :=
  match cons with
  | Some c => q_text c
  | None => ""
  end.

(** The object [{}] read as a risk: every field is [undefined]. *)
Definition emptyRisk : Risk := mkRisk None None None None.

(** [cons ? cons.risk || {} : {}] *)
Definition consRisk (cons : option Consequence) : Risk :=
  match cons with
  | Some c => match risk c with Some r => r | None => emptyRisk end
  | None => emptyRisk
  end.

(** The callback of [measures.forEach] (the same in both passes but for the
    column). *)
Definition measureCallback (col itemStartRow itemRows measureCount : Z)
    (measure : Measure) (measureIndex : Z) (sheet : list SheetCall) : list SheetCall :=
  let measureRow := itemStartRow + measureIndex in
  let measureRows :=
    if measureIndex =? measureCount - 1 then itemRows - measureIndex else 1 in
  sheet ++ [MergeAndSet measureRow col measureRows (m_text measure)].

(** The callback of [hazard.causes.forEach]; its state is
    [causeRowOffset] and the worksheet. *)
Definition causeCallback (hazard : Hazard) (blockRows startRow : Z)
    (cause : option Cause) (causeIndex : Z) (s : Z * list SheetCall)
    : Z * list SheetCall :=
  let '(causeRowOffset, sheet) := s in
  let actualMeasures := causeMeasureCount cause in
  let causeRows := Z.max actualMeasures 1 in
  let causeRows :=
    if causeIndex =? len (causes hazard) - 1 then blockRows - causeRowOffset
    else causeRows in
  let causeStartRow := startRow + causeRowOffset in
  let sheet := sheet ++ [MergeAndSet causeStartRow 2 causeRows (causeText cause)] in
  let sheet :=
    if actualMeasures >? 0 then
      let measures := match cause with
                      | Some c => orNil (preventionMeasures c)
                      | None => []
                      end in
      forEach (measureCallback 3 causeStartRow causeRows (len measures)) measures sheet
    else sheet in
  (causeRowOffset + causeRows, sheet).

(** The callback of the first [hazard.consequences.forEach]. *)
Definition consCallback (hazard : Hazard) (blockRows startRow : Z)
    (cons : option Consequence) (consIndex : Z) (s : Z * list SheetCall)
    : Z * list SheetCall :=
  let '(consRowOffset, sheet) := s in
  let actualMeasures := consMeasureCount cons in
  let consRows := Z.max actualMeasures 1 in
  let consRows :=
    if consIndex =? len (consequences hazard) - 1 then blockRows - consRowOffset
    else consRows in
  let consStartRow := startRow + consRowOffset in
  let sheet := sheet ++ [MergeAndSet consStartRow 4 consRows (consText cons)] in
  let sheet :=
    if actualMeasures >? 0 then
      let measures := match cons with
                      | Some c => orNil (mitigationMeasures c)
                      | None => []
                      end in
      forEach (measureCallback 5 consStartRow consRows (len measures)) measures sheet
    else sheet in
  let risk := consRisk cons in
  let sheet := sheet ++
    [ MergeAndSet consStartRow 6 consRows (orEmpty (severityCategory risk));
      MergeAndSet consStartRow 7 consRows (orEmpty (severityLevel risk));
      MergeAndSet consStartRow 8 consRows (orEmpty (likelihoodLevel risk));
      MergeAndSet consStartRow 9 consRows (orEmpty (riskScore risk)) ] in
  (consRowOffset + consRows, sheet).

(** The callback of the second [hazard.consequences.forEach], which applies
    the risk colours; it calls [getRiskLevelColor], so it lives in
    [JsResult]. *)
Definition colorCallback (st : State) (hazard : Hazard) (blockRows startRow : Z)
    (cons : option Consequence) (consIndex : Z) (s : JsResult (Z * list SheetCall))
    : JsResult (Z * list SheetCall) :=
  '(consRowOffset, sheet) ← s;
  let actualMeasures := consMeasureCount cons in
  let consRows := Z.max actualMeasures 1 in
  let consRows :=
    if consIndex =? len (consequences hazard) - 1 then blockRows - consRowOffset
    else consRows in
  let consStartRow := startRow + consRowOffset in
  let risk := consRisk cons in
  riskColor ← getRiskLevelColor st (severityLevel risk) (likelihoodLevel risk);
  let sheet :=
    if truthy (Some riskColor) && truthy (riskScore risk) then
      sheet ++ map (fun r => RiskFill r 9 (cssHexToARGB riskColor) "FFFFFFFF")
                   (seqZ consStartRow consRows)
    else sheet in
  Ok (consRowOffset + consRows, sheet).

Definition blankRow : list string := ["";"";"";"";"";"";"";"";"";""].

Definition hazardCellText (hazard : Hazard) : string :=
  title hazard +:+
  (if truthy (Some (description hazard)) then newline +:+ description hazard else "").

Definition recommendationsText (hazard : Hazard) : string :=
  join newline (map (fun r => action r +:+ " — " +:+ responsible r) (recommendations hazard)).

(** The trace of the causes pass and of the consequences pass of one
    hazard, for a given [blockRows] and [startRow]. *)
Definition causesPass (hazard : Hazard) (blockRows startRow : Z) : list SheetCall :=
  snd (forEach (causeCallback hazard blockRows startRow) (causes hazard) (0, [])).

Definition consequencesPass (hazard : Hazard) (blockRows startRow : Z) : list SheetCall :=
  snd (forEach (consCallback hazard blockRows startRow) (consequences hazard) (0, [])).

Definition riskColorPass (st : State) (hazard : Hazard) (blockRows startRow : Z)
    : JsResult (list SheetCall) :=
  s ← forEach (colorCallback st hazard blockRows startRow) (consequences hazard) (Ok (0, []));
  Ok (snd s).

(** The body of [state.hazards.forEach((hazard) => ...)]: returns the calls
    made for this hazard and the next value of [currentRow]. *)
Definition exportHazard (st : State) (hazard : Hazard) (currentRow : Z)
    : JsResult (list SheetCall * Z) :=
  let blockRows := blockRows hazard in
  let startRow := currentRow in
  let rows := map (fun _ => AddRow blankRow) (seqZ 0 blockRows) in
  let hazardCell := [MergeAndSet startRow 1 blockRows (hazardCellText hazard)] in
  let causeCells := causesPass hazard blockRows startRow in
  let consCells := consequencesPass hazard blockRows startRow in
  let recoCell := [MergeAndSet startRow 10 blockRows (recommendationsText hazard)] in
  let styles :=
    flat_map (fun r => map (fun c => CellStyle r c (cssHexToARGB borderColor)) (seqZ 1 10))
             (seqZ startRow blockRows) in
  colors ← riskColorPass st hazard blockRows startRow;
  Ok (rows ++ hazardCell ++ causeCells ++ consCells ++ recoCell ++ styles ++ colors,
      startRow + blockRows).

Definition headers : list string :=
  ["Hazard"; "Causes"; "Prevention measures"; "Consequences"; "Mitigation measures";
   "Severity category"; "Severity level"; "Likelihood level"; "Risk"; "Recommendations"].

(** The HAZID worksheet built by [exportToExcel] (header styling and column
    widths, which no row arithmetic depends on, are left out). *)
Definition exportToExcel (st : State) : JsResult (list SheetCall) :=
  s ← forEach (fun hazard (_ : Z) (acc : JsResult (list SheetCall * Z)) =>
                 '(sheet, currentRow) ← acc;
                 '(calls, nextRow) ← exportHazard st hazard currentRow;
                 Ok (sheet ++ calls, nextRow))
              (hazards st) (Ok ([AddRow headers], 2));
  Ok (fst s).

(** The Risk Ranking cell of the Risk Summary worksheet for a consequence
    with both levels set: its value is [getRiskLevel(...) || ''], and it is
    filled when [getRiskLevelColor(...)] resolves. Returns the value and the
    fill colour, if any. *)
Definition summaryRiskRanking (st : State) (risk : Risk)
    : JsResult (string * option string) :=
  riskLevel ← getRiskLevel st (severityLevel risk) (likelihoodLevel risk);
  riskColor ← getRiskLevelColor st (severityLevel risk) (likelihoodLevel risk);
  Ok (orEmpty (Some riskLevel),
      if truthy (Some riskColor) then Some (cssHexToARGB riskColor) else None).

(** ** Interactive table: measure stacks and the computed risk field *)

(** One segment of a measure stack: either the input of a persisted
    measure or the placeholder holding the "add" button. *)
Inductive Segment :=
| MeasureInput (m : Measure)
| AddMeasureButton.

(** [segmentedContainer(segmentCount)] with the segments appended to it: a
    grid of [Math.max(segmentCount, 1)] equal rows of full height. *)
Record Segments := mkSegments {
  gridTemplateRows : Z;
  segments : list Segment
}.

Definition segmentedContainer (segmentCount : Z) : Segments :=
  mkSegments (Z.max segmentCount 1) [].

Definition appendSegment (seg : Segment) (c : Segments) : Segments :=
  mkSegments (gridTemplateRows c) (segments c ++ [seg]).

(** [renderMeasureStack] on the owner's measure list ([owner[key] || []]);
    [None] stands for the empty [div] returned when the owner is missing. *)
Definition renderMeasureStack (owner : option (option (list Measure))) : option Segments :=
  match owner with
  | None => None
  | Some ownerKey =>
      let ownerKey := orNil ownerKey in
      let count := Z.max (len ownerKey) 1 in
      let container := segmentedContainer count in
      if len ownerKey =? 0 then Some (appendSegment AddMeasureButton container)
      else Some (forEach (fun m (_ : Z) c => appendSegment (MeasureInput m) c)
                         ownerKey container)
  end.

Definition causeMeasureStack (hazard : Hazard) (rowIndex : nat) : option Segments :=
  renderMeasureStack (preventionMeasures <$> mjoin (causes hazard !! rowIndex)).

Definition consMeasureStack (hazard : Hazard) (rowIndex : nat) : option Segments :=
  renderMeasureStack (mitigationMeasures <$> mjoin (consequences hazard !! rowIndex)).

(** What [renderRiskField] shows for the computed field. *)
Record RiskView := mkRiskView {
  textContent : string;
  backgroundColor : option string
}.

(** [renderRiskField(hazard, hazardIndex, rowIndex, field, true)] on the
    consequence at [rowIndex]: it writes the recomputed score into
    [risk.riskScore] and shows it. Returns the consequence as mutated and
    the view. *)
Definition renderRiskField (st : State) (consequence : Consequence)
    : JsResult (Consequence * RiskView) :=
  let risk := match risk consequence with
              | Some r => r
              | None => mkRisk (Some "") (Some "") (Some "") (Some "")
              end in
  score ← computeRiskScore st (severityLevel risk) (likelihoodLevel risk);
  let risk := mkRisk (severityCategory risk) (severityLevel risk)
                     (likelihoodLevel risk) (Some score) in
  color ← getRiskLevelColor st (severityLevel risk) (likelihoodLevel risk);
  Ok (mkConsequence (q_id consequence) (q_text consequence)
                    (mitigationMeasures consequence) (Some risk),
      mkRiskView (orEmpty (riskScore risk))
                 (if truthy (Some color) then Some color else None)).

(** [renderRiskSegments(hazard, hazardIndex, 'riskScore', true)]: the
    computed field of every consequence of the hazard, in order; a missing
    consequence gets an empty cell. Returns the hazard as mutated and the
    views. *)
Definition renderRiskSegments (st : State) (hazard : Hazard)
    : JsResult (Hazard * list (option RiskView)) :=
  rendered ← mapJs (fun cons : option Consequence =>
                      match cons with
                      | Some c =>
                          '(c', view) ← renderRiskField st c;
                          Ok (Some c', Some view)
                      | None => Ok (None, None)
                      end)
                   (consequences hazard);
  Ok (mkHazard (h_id hazard) (title hazard) (description hazard) (causes hazard)
               (map fst rendered) (recommendations hazard),
      map snd rendered).

(** ** Risk configuration export and import *)

(** The risk configuration document. The importer reads a field only when
    it is present (and, for the two lists, an array), so each field is
    optional. *)
Record RiskConfig := mkRiskConfig {
  likelihoodLevels : option Z;
  likelihoodDescriptions : option (list LikelihoodLevel);
  severityCategories : option (list string);
  cfg_severityDescriptions : option (gmap string (gmap string string));
  cfg_riskLevels : option Z;
  riskLevelDescriptions : option (list RiskLevel);
  cfg_matrix : option (gmap string string)
}.

(** The click handler of [export-risk-matrix], up to the document it
    serializes. [riskLevel.id] is read without a guard. *)
Definition exportRiskMatrix (st : State) : JsResult RiskConfig :=
  let rm := riskMatrix st in
  entries ← mapJs (fun '(key, riskLevel) => id ← prop rl_id riskLevel; Ok (key, id))
                  (map_to_list (matrix rm));
  Ok {|
    likelihoodLevels := Some (len (likelihood rm));
    likelihoodDescriptions :=
      Some (map (fun l => mkLikelihood (lik_id l) (lik_label l) (lik_description l))
                (likelihood rm));
    severityCategories :=
      Some ["personnel"; "asset"; "environmental"; "reputation"; "operation"];
    cfg_severityDescriptions := Some (severityDescriptions rm);
    cfg_riskLevels := Some (len (riskLevels rm));
    riskLevelDescriptions :=
      Some (map (fun r => mkRiskLevel (rl_id r) (rl_label r) (rl_color r)) (riskLevels rm));
    cfg_matrix := Some (list_to_map entries)
  |}.

(** [state.riskMatrix.riskLevels.find(r => r.id === riskLevelId)] *)
Definition findRiskLevel (rs : list RiskLevel) (riskLevelId : string) : option RiskLevel :=
  List.find (fun r => String.eqb (rl_id r) riskLevelId) rs.

(** The key under which a plain object exposes its prototype. An
    assignment [object[key] = value] with this key goes to the setter that
    [Object.prototype] defines for it: it creates no property of the object
    (with an object as [value], it replaces the prototype). *)
Definition prototypeKey : string := "__proto__".

(** The callback of [Object.entries(data.matrix).forEach]:
    [if (riskLevel) state.riskMatrix.matrix[key] = riskLevel]. The mapping
    was created as [{}] just before, and [Object.entries] lists every
    property of the parsed document, a ["__proto__"] one included; for that
    key the assignment stores no cell. Every later read of the mapping uses
    a key with a ['-'] in it, or [Object.entries], so the replaced prototype
    is not observed. *)
Definition importCell (rs : list RiskLevel) (key riskLevelId : string)
    (m : gmap string (option RiskLevel)) : gmap string (option RiskLevel) :=
  let riskLevel := findRiskLevel rs riskLevelId in
  if defined riskLevel then
    if String.eqb key prototypeKey then m else <[key := riskLevel]> m
  else m.

Definition loadRiskMatrixFromJSON (data : RiskConfig) (st : State) : State :=
  let rm := riskMatrix st in
  let rm :=
    match likelihoodDescriptions data with
    | Some ls =>
        setLikelihood
          (map (fun l => mkLikelihood (lik_id l) (lik_label l) (lik_description l)) ls) rm
    | None => rm
    end in
  let rm :=
    match cfg_severityDescriptions data with
    | Some d => setSeverityDescriptions d rm
    | None => rm
    end in
  let rm :=
    match riskLevelDescriptions data with
    | Some rs =>
        setRiskLevels (map (fun r => mkRiskLevel (rl_id r) (rl_label r) (rl_color r)) rs) rm
    | None => rm
    end in
  let rm :=
    match cfg_matrix data with
    | Some m => setMatrix (map_fold (importCell (riskLevels rm)) ∅ m) rm
    | None => updateRiskMatrix rm
    end in
  setRiskMatrix rm st.

(** ** Persistence and initialization *)

(** The object written by [persist.save]. *)
Record SavedDoc := mkSavedDoc {
  doc_hazards : option (list Hazard);
  doc_riskMatrix : option RiskMatrix;
  doc_compactMode : option bool
}.

(** The values [JSON.parse] can return for the stored text: a bare array of
    hazards (the legacy format), an object, or anything else. *)
Inductive JsonValue :=
| JArray (hs : list Hazard)
| JObject (d : SavedDoc)
| JOther.

(** A stored text, known by what [JSON.parse] makes of it. *)
Inductive StoredText :=
| EmptyText
| JsonText (v : JsonValue)
| CorruptText.

Definition JSON_parse (raw : StoredText) : JsResult JsonValue :=
  match raw with
  | JsonText v => Ok v
  | EmptyText | CorruptText => Throw SyntaxError
  end.

(** [JSON.stringify] drops the properties whose value is [undefined]: here
    the matrix cells holding [undefined]. *)
Definition stringifyRiskMatrix (rm : RiskMatrix) : RiskMatrix :=
  setMatrix (filter (fun kv => is_Some (snd kv)) (matrix rm)) rm.

Definition JSON_stringify (v : JsonValue) : StoredText :=
  match v with
  | JObject d =>
      JsonText (JObject (mkSavedDoc (doc_hazards d)
                                    (stringifyRiskMatrix <$> doc_riskMatrix d)
                                    (doc_compactMode d)))
  | _ => JsonText v
  end.

(** [localStorage], reduced to the item under [STORAGE_KEY]; [setItem]
    throws when the quota is exceeded. *)
Record LocalStorage := mkLocalStorage {
  item : option StoredText;
  quotaExceeded : bool
}.

Definition getItem (ls : LocalStorage) : option StoredText := item ls.

Definition setItem (raw : StoredText) (ls : LocalStorage) : JsResult LocalStorage :=
  if quotaExceeded ls then Throw QuotaExceededError
  else Ok (mkLocalStorage (Some raw) (quotaExceeded ls)).

Module persist.

Definition load (ls : LocalStorage) : JsonValue :=
  tryCatch
    (match getItem ls with
     | None | Some EmptyText => Ok (JArray [])
     | Some raw =>
         data ← JSON_parse raw;
         Ok (match data with
             | JArray _ => data
             | _ => JArray []
             end)
     end)
    (fun _ => JArray []).

Definition save (doc : JsonValue) (ls : LocalStorage) : LocalStorage :=
  tryCatch (setItem (JSON_stringify doc) ls) (fun _ => ls).

End persist.

(** The object [scheduleSave] passes to [persist.save] (bow-tie colours
    aside); the other callers pass [hazards] and [riskMatrix] only. Every
    caller passes an object, never a bare array. *)
Definition savedDocument (st : State) : JsonValue :=
  JObject (mkSavedDoc (Some (hazards st)) (Some (riskMatrix st)) (Some (compactMode st))).

Definition scheduleSave (st : State) (ls : LocalStorage) : LocalStorage :=
  if autosave st then persist.save (savedDocument st) ls else ls.

Definition createHazard (id : string) : Hazard := mkHazard id "" "" [] [] [].
Definition createCause (id : string) : Cause := mkCause id "" (Some []).
Definition createConsequence (id : string) : Consequence :=
  mkConsequence id "" (Some []) (Some (mkRisk (Some "") (Some "") (Some "") (Some ""))).
Definition createMeasure (id : string) : Measure := mkMeasure id "".
Definition createRecommendation (id : string) : Recommendation := mkRecommendation id "" "".

(** [scheduleSaveAndRerender]: the document is saved at once; the table is
    rendered again by a timer, after the calling handler has returned. The
    storage returned is the one the handler leaves behind. *)
Definition scheduleSaveAndRerender (st : State) (ls : LocalStorage) : LocalStorage :=
  scheduleSave st ls.

(** The [onchange] handler of the likelihood select of a consequence:
    [risk[field] = e.target.value; scheduleSaveAndRerender()]. Returns the
    state and the storage as the handler leaves them. *)
Definition onLikelihoodChange (hazardIndex rowIndex : nat) (value : string)
    (st : State) (ls : LocalStorage) : State * LocalStorage :=
  let setLevel (c : option Consequence) : option Consequence :=
    match c with
    | Some c =>
        let r := consRisk (Some c) in
        Some (mkConsequence (q_id c) (q_text c) (mitigationMeasures c)
                (Some (mkRisk (severityCategory r) (severityLevel r) (Some value)
                              (riskScore r))))
    | None => None
    end in
  let setCons (h : Hazard) : Hazard :=
    mkHazard (h_id h) (title h) (description h) (causes h)
             (alter setLevel rowIndex (consequences h)) (recommendations h) in
  let st := setHazards (alter setCons hazardIndex (hazards st)) st in
  (st, scheduleSaveAndRerender st ls).

(** What rendering the measure stacks of a hazard stores in it:
    [owner[key] = owner[key] || []] of [renderMeasureStack], which
    [renderCauseMeasuresSegments] and [renderConsequenceMeasuresSegments]
    call on every cause and every consequence; a missing owner is left
    alone. *)
Definition storeMeasureLists (hazard : Hazard) : Hazard :=
  mkHazard (h_id hazard) (title hazard) (description hazard)
           (map (fun cause : option Cause =>
                   match cause with
                   | Some c => Some (mkCause (c_id c) (c_text c)
                                             (Some (orNil (preventionMeasures c))))
                   | None => None
                   end)
                (causes hazard))
           (map (fun cons : option Consequence =>
                   match cons with
                   | Some c => Some (mkConsequence (q_id c) (q_text c)
                                                   (Some (orNil (mitigationMeasures c)))
                                                   (risk c))
                   | None => None
                   end)
                (consequences hazard))
           (recommendations hazard).

(** The state part of one row of [renderTable]: the measure stacks store the
    missing measure lists, then the risk columns create the missing risk
    records and the computed column writes the score ([renderRiskField]
    creates the same record whichever column reaches it first, so the three
    editable columns add nothing to what the computed one does). The other
    renderers only read the hazard. *)
Definition renderRow (st : State) (hazard : Hazard) : JsResult Hazard :=
  '(hazard', _) ← renderRiskSegments st (storeMeasureLists hazard);
  Ok hazard'.

(** The state part of [renderTable]: [state.hazards.forEach] over the
    rows. *)
Definition renderTable (st : State) : JsResult State :=
  hs ← mapJs (renderRow st) (hazards st);
  Ok (setHazards hs st).

(** The state part of [init]; [generateId] gives the identifiers
    [Math.random] would produce, in call order. [init] ends by rendering the
    table, the risk matrix configuration and the global actions; only the
    table writes to the state. Nothing in [init] catches an error: one
    thrown by [renderTable] would end [init] there (it throws none, see
    [renderTable_completes]). *)
Definition init (generateId : nat -> string) (ls : LocalStorage) (st : State) : State :=
  let saved := persist.load ls in
  let st :=
    match saved with
    | JObject d =>
        match doc_hazards d with
        | Some hs =>
            let st := setHazards hs st in
            let st := match doc_riskMatrix d with
                      | Some rm => setRiskMatrix rm st
                      | None => st
                      end in
            match doc_compactMode d with
            | Some b => setCompactMode b st
            | None => st
            end
        | None => st
        end
    | JArray hs => setHazards hs st
    | JOther => st
    end in
  let st :=
    if len (hazards st) =? 0 then
      let hz := createHazard (generateId 0%nat) in
      let hz := mkHazard (h_id hz) "New hazard" (description hz)
                         (causes hz ++ [Some (createCause (generateId 1%nat))])
                         (consequences hz ++ [Some (createConsequence (generateId 2%nat))])
                         (recommendations hz ++ [createRecommendation (generateId 3%nat)]) in
      setHazards (hazards st ++ [hz]) st
    else st in
  let st := setRiskMatrix (updateRiskMatrix (riskMatrix st)) st in
  match renderTable st with
  | Ok st => st
  | Throw _ => st
  end.

(** ** Observations on a trace and the allocation policy in closed form *)

(** The [(startRow, rowSpan)] of the [mergeAndSet] calls made on column
    [col], in call order. *)
Definition cellsOfColumn (col : Z) (sheet : list SheetCall) : list (Z * Z) :=
  omap (fun call => match call with
                    | MergeAndSet r c rowSpan _ =>
                        if c =? col then Some (r, rowSpan) else None
                    | _ => None
                    end) sheet.

(** The cells of a column that start inside the rows [r .. r + rowSpan - 1]. *)
Definition cellsWithin (r rowSpan : Z) (cells : list (Z * Z)) : list (Z * Z) :=
  filter (fun cell => r <= fst cell < r + rowSpan) cells.

Definition sumZ (l : list Z) : Z := foldr Z.add 0 l.

(** The sum over a list of measure counts of [max(count, 1)]. *)
Definition sumNatural (counts : list Z) : Z := sumZ (map (fun n => Z.max n 1) counts).

(** [cells] tile the rows [startRow .. startRow + rows - 1] with [n] ranges:
    the spans add up to [rows], the first range starts at [startRow], each
    next one starts where the previous one ended, and two different ranges
    are non-empty and do not overlap. *)
Definition Tiles (startRow rows : Z) (n : nat) (cells : list (Z * Z)) : Prop :=
  length cells = n /\
  sumZ (map snd cells) = rows /\
  (exists rowSpan, cells !! 0%nat = Some (startRow, rowSpan)) /\
  (forall i a b, cells !! i = Some a -> cells !! S i = Some b -> fst b = fst a + snd a) /\
  (forall i j a b, (i < j)%nat -> cells !! i = Some a -> cells !! j = Some b ->
                   1 <= snd a /\ 1 <= snd b /\ fst a + snd a <= fst b).

(** The measure cells of an item that starts at row [r], spans [rowSpan]
    rows and has [n] measures: measure [j] sits at row [r + j] with one row,
    but the last one takes [rowSpan - j] rows. *)
Definition measureCells (r rowSpan n : Z) : list (Z * Z) :=
  map (fun j => (r + j, if j =? n - 1 then rowSpan - j else 1)) (seqZ 0 n).

(** What the two passes read of an item: its text, its measures and the
    further cells merged over the item's rows (the four risk columns of a
    consequence). *)
Record ItemView := mkItemView {
  iv_text : string;
  iv_measures : list Measure;
  iv_extra : list (Z * string)
}.

Definition causeView (cause : option Cause) : ItemView :=
  mkItemView (causeText cause)
             (match cause with Some c => orNil (preventionMeasures c) | None => [] end)
             [].

Definition consView (cons : option Consequence) : ItemView :=
  mkItemView (consText cons)
             (match cons with Some c => orNil (mitigationMeasures c) | None => [] end)
             [ (6, orEmpty (severityCategory (consRisk cons)));
               (7, orEmpty (severityLevel (consRisk cons)));
               (8, orEmpty (likelihoodLevel (consRisk cons)));
               (9, orEmpty (riskScore (consRisk cons))) ].

Fixpoint measureTrace (col r rows j : Z) (ms : list Measure) : list SheetCall :=
  match ms with
  | [] => []
  | m :: t =>
      MergeAndSet (r + j) col (match t with [] => rows - j | _ => 1 end) (m_text m)
      :: measureTrace col r rows (j + 1) t
  end.

(** The allocation policy, by recursion on the item list: every item takes
    [max(measures, 1)] rows but the last one, which takes what is left of
    [blockRows]. *)
Fixpoint sideTrace (colItem colMeasure blockRows startRow offset : Z)
    (items : list ItemView) : list SheetCall :=
  match items with
  | [] => []
  | it :: t =>
      let rows := match t with
                  | [] => blockRows - offset
                  | _ => Z.max (len (iv_measures it)) 1
                  end in
      MergeAndSet (startRow + offset) colItem rows (iv_text it)
      :: measureTrace colMeasure (startRow + offset) rows 0 (iv_measures it)
      ++ map (fun cv => MergeAndSet (startRow + offset) (fst cv) rows (snd cv)) (iv_extra it)
      ++ sideTrace colItem colMeasure blockRows startRow (offset + rows) t
  end.

(** The item cells of the policy: [(offset, rows)] per item. *)
Fixpoint allocate (blockRows offset : Z) (counts : list Z) : list (Z * Z) :=
  match counts with
  | [] => []
  | n :: t =>
      let rows := match t with
                  | [] => blockRows - offset
                  | _ => Z.max n 1
                  end in
      (offset, rows) :: allocate blockRows (offset + rows) t
  end.

(** The measure cells of the policy, item after item. *)
Fixpoint allocateMeasures (blockRows offset : Z) (counts : list Z) : list (Z * Z) :=
  match counts with
  | [] => []
  | n :: t =>
      let rows := match t with
                  | [] => blockRows - offset
                  | _ => Z.max n 1
                  end in
      measureCells offset rows n ++ allocateMeasures blockRows (offset + rows) t
  end.

(** ** Further definitions used by the statements *)

(** A cell given by its offset in the block, moved to the block's first
    row. *)
Definition shiftRows (startRow : Z) (cell : Z * Z) : Z * Z :=
  (startRow + fst cell, snd cell).

(** [cells] give every item but the last its natural span, and the last
    item [B] minus the spans of the items before it, which is at least its
    natural span; a single item gets all of [B]. *)
Definition NaturalButLast (B startRow : Z) (counts : list Z) (cells : list (Z * Z)) : Prop :=
  length cells = length counts /\
  (forall i n, counts !! i = Some n -> (S i < length counts)%nat ->
     exists r, cells !! i = Some (r, Z.max n 1)) /\
  (forall i n, counts !! i = Some n -> S i = length counts ->
     exists r, cells !! i = Some (r, B - sumZ (map snd (take i cells))) /\
               Z.max n 1 <= B - sumZ (map snd (take i cells))) /\
  (forall n, counts = [n] -> cells = [(startRow, B)]).

(** The number of prevention measures of a cause, read off the data: the
    length of its measure list, and none for a missing cause or a missing
    list. Likewise the number of mitigation measures of a consequence. *)
Definition numberOfPreventionMeasures (cause : option Cause) : Z :=
  match cause with
  | Some {| preventionMeasures := Some measures |} => Z.of_nat (length measures)
  | _ => 0
  end.

Definition numberOfMitigationMeasures (cons : option Consequence) : Z :=
  match cons with
  | Some {| mitigationMeasures := Some measures |} => Z.of_nat (length measures)
  | _ => 0
  end.

(** The sum over the causes of max(number of prevention measures, 1), and
    the sum over the consequences of max(number of mitigation measures,
    1). *)
Definition preventionTotal (hazard : Hazard) : Z :=
  sumZ (map (fun cause => Z.max (numberOfPreventionMeasures cause) 1) (causes hazard)).

Definition mitigationTotal (hazard : Hazard) : Z :=
  sumZ (map (fun cons => Z.max (numberOfMitigationMeasures cons) 1) (consequences hazard)).

(** No cell of [cells] covers a row of [r .. r + rowSpan - 1]; a cell
    covers [Math.max(rowSpan, 1)] rows from its first one, as [mergeAndSet]
    has it. *)
Definition SlotFree (r rowSpan : Z) (cells : list (Z * Z)) : Prop :=
  Forall (fun cell => fst cell + Z.max (snd cell) 1 <= r \/ r + rowSpan <= fst cell) cells.

(** The hazard of the layout scenario: causes A (2 measures) and B
    (1 measure), consequences X (1 measure) and Y (3 measures). *)
Definition scenarioHazard : Hazard :=
  let m := mkMeasure "m" "measure" in
  mkHazard "h" "Hazard" ""
    [ Some (mkCause "a" "A" (Some [m; m])); Some (mkCause "b" "B" (Some [m])) ]
    [ Some (mkConsequence "x" "X" (Some [m]) None);
      Some (mkConsequence "y" "Y" (Some [m; m; m]) None) ]
    [].

(** The hazard of the second scenario: no cause, and one consequence
    without measures. *)
Definition bareHazard : Hazard :=
  mkHazard "h" "Hazard" "" [] [ Some (mkConsequence "x" "X" (Some []) None) ] [].

(** [cells] are the measure cells of an item starting at row [r] and
    spanning [rowSpan] rows, with [n] measures: one cell per measure,
    measure [j] at row [r + j], one row each but [rowSpan - j] for the last;
    when there is a measure they add up to [rowSpan] and none is empty; with
    no measure there is no cell. *)
Definition MeasuresFill (r rowSpan n : Z) (cells : list (Z * Z)) : Prop :=
  length cells = Z.to_nat n /\
  (forall j : nat,
     Z.of_nat j < n ->
     cells !! j = Some (r + Z.of_nat j,
                        if Z.of_nat j =? n - 1 then rowSpan - Z.of_nat j else 1)) /\
  (0 < n -> sumZ (map snd cells) = rowSpan /\
            Forall (fun cell => 1 <= snd cell) cells) /\
  (n = 0 -> cells = []).

(** The keys [updateRiskMatrix] writes, in iteration order. *)
Definition cellKeys (rm : RiskMatrix) : list string :=
  flat_map (fun lik => map (fun sev => cellKey (lik_id lik) (sev_id sev)) (severity rm))
           (likelihood rm).

(** The level the default rule picks for the indices [li] and [si]. *)
Definition ruleLevel (rm : RiskMatrix) (li si : Z) : option RiskLevel :=
  let ratio := riskRatio (li + si) ((len (likelihood rm) - 1) + (len (severity rm) - 1)) in
  if js_ge ratio lit_0_7 then riskLevels rm !! 2%nat
  else if js_ge ratio lit_0_4 then riskLevels rm !! 1%nat
  else riskLevels rm !! 0%nat.

(** A list with the indices [forEach] passes to its callback. *)
Fixpoint indexedFrom {A} (i : Z) (l : list A) : list (Z * A) :=
  match l with
  | [] => []
  | x :: t => (i, x) :: indexedFrom (i + 1) t
  end.

(** The writes of [updateRiskMatrix], in order. *)
Definition assignments (rm : RiskMatrix) : list (string * option RiskLevel) :=
  flat_map (fun ilik =>
              map (fun isev => (cellKey (lik_id (snd ilik)) (sev_id (snd isev)),
                                ruleLevel rm (fst ilik) (fst isev)))
                  (indexedFrom 0 (severity rm)))
           (indexedFrom 0 (likelihood rm)).

(** The ordinal the rule gives to the ratio [riskSum / maxSum], with the
    ratio taken as the exact fraction and compared with 7/10 and 4/10. *)
Definition exactOrdinal (riskSum maxSum : Z) : nat :=
  let ratio := QArith_base.Qmake riskSum (Z.to_pos maxSum) in
  if QArith_base.Qle_bool (QArith_base.Qmake 7 10) ratio then 2%nat
  else if QArith_base.Qle_bool (QArith_base.Qmake 4 10) ratio then 1%nat
  else 0%nat.

(** The writes of the rule, in the iteration order of the two lists, with
    the exact ordinal. *)
Definition exactAssignments (rm : RiskMatrix) : list (string * option RiskLevel) :=
  let maxSum := (len (likelihood rm) - 1) + (len (severity rm) - 1) in
  flat_map (fun ilik =>
              map (fun isev => (cellKey (lik_id (snd ilik)) (sev_id (snd isev)),
                                riskLevels rm !! exactOrdinal (fst ilik + fst isev) maxSum))
                  (indexedFrom 0 (severity rm)))
           (indexedFrom 0 (likelihood rm)).

(** One write [matrix[key] = riskLevel]. *)
Definition writeCell (m : gmap string (option RiskLevel)) (kv : string * option RiskLevel)
    : gmap string (option RiskLevel) :=
  <[fst kv := snd kv]> m.

(** For a given [maxSum], whether the two binary64 comparisons of the
    default rule agree, at every [riskSum] from 0 to [maxSum], with the exact
    comparisons of the fraction [riskSum / maxSum] with 7/10 and 2/5. *)
Definition thresholdsExactFor (maxSum : Z) : bool :=
  forallb (fun riskSum =>
             Bool.eqb (js_ge (riskRatio riskSum maxSum) lit_0_7) (7 * maxSum <=? 10 * riskSum)
             && Bool.eqb (js_ge (riskRatio riskSum maxSum) lit_0_4) (2 * maxSum <=? 5 * riskSum))
          (seqZ 0 (maxSum + 1)).

(** [JSON.stringify] followed by [JSON.parse] on the exported document: it
    holds strings, numbers, arrays and plain objects only, so parsing its
    text gives the same document back. *)
Definition jsonRoundTrip (config : RiskConfig) : RiskConfig := config.

(** Export the risk matrix of [st], then import the document into
    [target]. *)
Definition exportThenImport (st target : State) : JsResult State :=
  config ← exportRiskMatrix st;
  Ok (loadRiskMatrixFromJSON (jsonRoundTrip config) target).

(** Every cell of the matrix holds a level of the risk-level list. *)
Definition CellsFromLevels (rm : RiskMatrix) : Prop :=
  forall key v, matrix rm !! key = Some v ->
                exists level, v = Some level /\ level ∈ riskLevels rm.

(** The risk levels in force once [data] is imported into [st]. *)
Definition importedLevels (data : RiskConfig) (st : State) : list RiskLevel :=
  match riskLevelDescriptions data with
  | Some rs => map (fun r => mkRiskLevel (rl_id r) (rl_label r) (rl_color r)) rs
  | None => riskLevels (riskMatrix st)
  end.

(** A configuration whose three risk levels share one id, and the state
    reached by importing it into the initial state (it has no [matrix], so
    the mapping is regenerated by the default rule). *)
Definition sharedIdConfig : RiskConfig := {|
  likelihoodLevels := None;
  likelihoodDescriptions := None;
  severityCategories := None;
  cfg_severityDescriptions := None;
  cfg_riskLevels := Some 3;
  riskLevelDescriptions := Some [
    mkRiskLevel "risk" "Low" "#28a745";
    mkRiskLevel "risk" "Medium" "#ffc107";
    mkRiskLevel "risk" "High" "#dc3545" ];
  cfg_matrix := None
|}.

Definition sharedIdState : State := loadRiskMatrixFromJSON sharedIdConfig initialState.

(** A configuration with two risk levels only, imported likewise. *)
Definition twoLevelConfig : RiskConfig := {|
  likelihoodLevels := None;
  likelihoodDescriptions := None;
  severityCategories := None;
  cfg_severityDescriptions := None;
  cfg_riskLevels := Some 2;
  riskLevelDescriptions := Some [
    mkRiskLevel "ok" "Acceptable" "#28a745";
    mkRiskLevel "bad" "Unacceptable" "#dc3545" ];
  cfg_matrix := None
|}.

Definition twoLevelState : State := loadRiskMatrixFromJSON twoLevelConfig initialState.

(** The id the export writes for a cell that holds a level. *)
Definition cellId (v : option RiskLevel) : string :=
  match v with
  | Some r => rl_id r
  | None => ""
  end.

(** Every level held by a cell is a level of the risk-level list. Both
    ways of building the mapping establish it. *)
Definition CellsKnown (rm : RiskMatrix) : Prop :=
  forall key level, matrix rm !! key = Some (Some level) -> level ∈ riskLevels rm.

(** The values written by the [mergeAndSet] calls on column [col], and the
    rows filled by the risk colouring pass. *)
Definition valuesOfColumn (col : Z) (sheet : list SheetCall) : list string :=
  omap (fun call => match call with
                    | MergeAndSet _ c _ value => if c =? col then Some value else None
                    | _ => None
                    end) sheet.

Definition riskFills (sheet : list SheetCall) : list (Z * string) :=
  omap (fun call => match call with
                    | RiskFill r _ argb _ => Some (r, argb)
                    | _ => None
                    end) sheet.

(** The evaluator's label and colour for a consequence's levels. *)
Definition evaluatorLabel (st : State) (cons : option Consequence) : string :=
  tryCatch (computeRiskScore st (severityLevel (consRisk cons))
                             (likelihoodLevel (consRisk cons)))
           (fun _ => "").

Definition evaluatorColor (st : State) (cons : option Consequence) : string :=
  tryCatch (getRiskLevelColor st (severityLevel (consRisk cons))
                              (likelihoodLevel (consRisk cons)))
           (fun _ => "").

(** The stored score of every consequence of the hazard is the evaluator's
    label for its levels. *)
Definition ScoresUpToDate (st : State) (hazard : Hazard) : Prop :=
  Forall (fun cons => orEmpty (riskScore (consRisk cons)) = evaluatorLabel st cons)
         (consequences hazard).

(** The Risk cells to colour for a consequence whose cell is [cell], going
    by the evaluator: all its rows, when a colour and a label resolve. *)
Definition evaluatorFills (st : State) (cons : option Consequence) (cell : Z * Z)
    : list (Z * string) :=
  if truthy (Some (evaluatorColor st cons)) && truthy (Some (evaluatorLabel st cons))
  then map (fun row => (row, cssHexToARGB (evaluatorColor st cons)))
           (seqZ (fst cell) (snd cell))
  else [].

(** The export of the hazard shows the evaluator's results: the Risk column
    holds the evaluator's label of each consequence, and the colouring pass
    fills the rows of the consequences for which the evaluator resolves a
    colour and a label, with that colour. *)
Definition ExportShowsEvaluator (st : State) (hazard : Hazard) (startRow : Z) : Prop :=
  valuesOfColumn 9 (consequencesPass hazard (blockRows hazard) startRow)
  = map (evaluatorLabel st) (consequences hazard) /\
  exists calls,
    riskColorPass st hazard (blockRows hazard) startRow = Ok calls /\
    riskFills calls
    = flat_map (fun cc => evaluatorFills st (fst cc) (snd cc))
               (zip (consequences hazard)
                    (cellsOfColumn 4 (consequencesPass hazard (blockRows hazard) startRow))).

(** The colouring pass by recursion on the consequences, with the
    condition of the code (a resolved colour and a stored score). *)
Fixpoint colorTrace (st : State) (B s offset : Z) (l : list (option Consequence))
    : list SheetCall :=
  match l with
  | [] => []
  | c :: t =>
      let rows := match t with
                  | [] => B - offset
                  | _ => Z.max (consMeasureCount c) 1
                  end in
      (if truthy (Some (evaluatorColor st c)) && truthy (riskScore (consRisk c))
       then map (fun r => RiskFill r 9 (cssHexToARGB (evaluatorColor st c)) "FFFFFFFF")
                (seqZ (s + offset) rows)
       else [])
      ++ colorTrace st B s (offset + rows) t
  end.

(** The state in which the user has created a consequence and picked
    severity '3' for it (already rendered), at the moment the [onchange]
    handler for likelihood 'D' returns. *)
Definition pickedSeverityState : State :=
  setHazards
    [ mkHazard "h" "Fire" "" []
        [ Some (mkConsequence "q1" "Burns" (Some [])
                  (Some (mkRisk (Some "") (Some "3") (Some "") (Some "")))) ] [] ]
    (loadDefaultRiskMatrix initialState).

(** The state and the storage left by the [onchange] handler for likelihood
    'D', and the consequence as it then stands: both levels set, the score
    still the empty one. *)
Definition afterLikelihoodChange : State * LocalStorage :=
  onLikelihoodChange 0 0 "D" pickedSeverityState (mkLocalStorage None false).

Definition staleConsequence : Consequence :=
  mkConsequence "q1" "Burns" (Some [])
    (Some (mkRisk (Some "") (Some "3") (Some "D") (Some ""))).

(** ** More of app.js: the risk matrix table and the severity descriptions *)



(** The five categories of [renderSeverityDescriptionsTable], a constant
    list of the source, and the property name each one is. *)
Inductive Category := personnel | asset | environmental | reputation | operation.

Definition categoryKey (category : Category) : string :=
  match category with
  | personnel => "personnel"
  | asset => "asset"
  | environmental => "environmental"
  | reputation => "reputation"
  | operation => "operation"
  end.

(** [state.riskMatrix.severityDescriptions] and its rows are plain objects,
    and the severity id that indexes them comes from the severity list,
    which an imported document can fill with any string. A plain object
    also answers to the names it inherits from [Object.prototype]:
    ["__proto__"] gives [Object.prototype] itself, and the names below give
    its built-in functions. *)
Definition builtinMembers : list string :=
  [ "constructor"; "hasOwnProperty"; "isPrototypeOf"; "propertyIsEnumerable";
    "toLocaleString"; "toString"; "valueOf";
    "__defineGetter__"; "__defineSetter__"; "__lookupGetter__"; "__lookupSetter__" ].

(** What the program has written on those inherited objects, which live
    outside [state]: the properties written on [Object.prototype], and the
    properties written on the built-in function of a given name. Both are
    empty when the page is loaded. *)
Record Inherited := mkInherited {
  prototypeProps : gmap string string;
  memberProps : gmap string (gmap string string)
}.

Definition pristine : Inherited := mkInherited ∅ ∅.

(** The value of [severityDescriptions[severityId]]. *)
Inductive RowValue :=
| OwnRow (row : gmap string string)
| ThePrototype
| BuiltinMember (name : string)
| InheritedText (text : string)
| NoRow.

Definition lookupRow (descriptions : gmap string (gmap string string))
    (env : Inherited) (severityId : string) : RowValue :=
  match descriptions !! severityId with
  | Some row => OwnRow row
  | None =>
      if String.eqb severityId prototypeKey then ThePrototype
      else if bool_decide (severityId ∈ builtinMembers) then BuiltinMember severityId
      else match prototypeProps env !! severityId with
           | Some text => InheritedText text
           | None => NoRow
           end
  end.

(** The condition [!severityDescriptions[severityId]] is false for an
    object and a function, and for a string that is not empty. *)
Definition rowTruthy (v : RowValue) : bool :=
  match v with
  | OwnRow _ | ThePrototype | BuiltinMember _ => true
  | InheritedText text => truthy (Some text)
  | NoRow => false
  end.

(** [v?.[category]]: the property of the value itself, else the one
    inherited from [Object.prototype] (a row, a function and a string all
    end their prototype chain there). *)
Definition readCategory (env : Inherited) (v : RowValue) (category : Category)
    : option string :=
  let inherited := prototypeProps env !! categoryKey category in
  match v with
  | OwnRow row =>
      match row !! categoryKey category with
      | Some text => Some text
      | None => inherited
      end
  | ThePrototype => inherited
  | BuiltinMember name =>
      match memberProps env !! name ≫= (fun props => props !! categoryKey category) with
      | Some text => Some text
      | None => inherited
      end
  | InheritedText _ => inherited
  | NoRow => None
  end.

(** The [oninput] handler of a severity description:
    [if (!descriptions[severityId]) descriptions[severityId] = {};
     descriptions[severityId][category] = value].
    The first assignment creates a row of the object itself (the handler
    reaches it for a name that is neither ["__proto__"] nor a built-in
    one). The second one writes on whatever the lookup gives: a row, or
    [Object.prototype], or a built-in function; on a string it does
    nothing (the file is a classic script with no strict-mode directive).
    Returns the risk matrix and the inherited objects as the handler leaves
    them. *)
Definition setSeverityDescription (severityId : string) (category : Category)
    (value : string) (rm : RiskMatrix) (env : Inherited) : RiskMatrix * Inherited :=
  let descriptions := severityDescriptions rm in
  let descriptions :=
    if rowTruthy (lookupRow descriptions env severityId) then descriptions
    else <[severityId := ∅]> descriptions in
  match lookupRow descriptions env severityId with
  | OwnRow row =>
      (setSeverityDescriptions
         (<[severityId := <[categoryKey category := value]> row]> descriptions) rm,
       env)
  | ThePrototype =>
      (setSeverityDescriptions descriptions rm,
       mkInherited (<[categoryKey category := value]> (prototypeProps env))
                   (memberProps env))
  | BuiltinMember name =>
      let props := match memberProps env !! name with
                   | Some props => props
                   | None => ∅
                   end in
      (setSeverityDescriptions descriptions rm,
       mkInherited (prototypeProps env)
                   (<[name := <[categoryKey category := value]> props]> (memberProps env)))
  | InheritedText _ | NoRow =>
      (setSeverityDescriptions descriptions rm, env)
  end.

(** [state.riskMatrix.severityDescriptions[severityId]?.[category] || ''],
    the value [renderSeverityDescriptionsTable] puts in the input. *)
Definition shownSeverityDescription (rm : RiskMatrix) (env : Inherited)
    (severityId : string) (category : Category) : string :=
  orEmpty (readCategory env (lookupRow (severityDescriptions rm) env severityId) category).

(** A risk matrix whose severity list is an imported one, with the level
    ["__proto__"] next to the level ["1"]; the level ["1"] has a
    description for the category personnel only. *)
Definition importedSeverityMatrix : RiskMatrix :=
  mkRiskMatrix (likelihood initialRiskMatrix)
               [ mkSeverity "1" "1" "Negligible effect" "personnel";
                 mkSeverity "__proto__" "P" "" "personnel" ]
               (<["1" := <["personnel" := "Minor injury"]> ∅]> ∅)
               (riskLevels initialRiskMatrix)
               (matrix initialRiskMatrix).

(** The ordinal of the risk level the default rule picks for a given
    [riskSum] and [maxSum]: the two comparisons of [updateRiskMatrix]. *)
Definition ruleOrdinal (riskSum maxSum : Z) : nat :=
  if js_ge (riskRatio riskSum maxSum) lit_0_7 then 2%nat
  else if js_ge (riskRatio riskSum maxSum) lit_0_4 then 1%nat
  else 0%nat.

(** ** More of app.js: what a rendering leaves of a stored hazard *)

(** A stored cause and the cause the table holds once rendered: the same,
    with a measure list in any case. *)
Definition RenderedCause (stored rendered : option Cause) : Prop :=
  match stored, rendered with
  | None, None => True
  | Some c, Some c' =>
      c_id c' = c_id c /\ c_text c' = c_text c /\
      preventionMeasures c'
      = Some (match preventionMeasures c with Some ms => ms | None => [] end)
  | _, _ => False
  end.

(** A stored consequence and the rendered one: the same, with a measure
    list and a risk record in any case (a record that was missing has the
    empty string in its three editable fields), and with the evaluator's
    label for the stored levels as its score. *)
Definition RenderedConsequence (st : State) (stored rendered : option Consequence) : Prop :=
  match stored, rendered with
  | None, None => True
  | Some c, Some c' =>
      q_id c' = q_id c /\ q_text c' = q_text c /\
      mitigationMeasures c'
      = Some (match mitigationMeasures c with Some ms => ms | None => [] end) /\
      risk c'
      = Some (match risk c with
              | Some r => mkRisk (severityCategory r) (severityLevel r) (likelihoodLevel r)
                                 (Some (evaluatorLabel st stored))
              | None => mkRisk (Some "") (Some "") (Some "")
                               (Some (evaluatorLabel st stored))
              end)
  | _, _ => False
  end.

Definition RenderedHazard (st : State) (stored rendered : Hazard) : Prop :=
  h_id rendered = h_id stored /\ title rendered = title stored /\
  description rendered = description stored /\
  recommendations rendered = recommendations stored /\
  Forall2 RenderedCause (causes stored) (causes rendered) /\
  Forall2 (RenderedConsequence st) (consequences stored) (consequences rendered).

(** A hazard as an older document may hold it: a cause without a measure
    list, a consequence without measure list and risk record, and a
    consequence whose stored score "High" is not the one of its levels;
    and the storage holding the bare array of that hazard. *)
Definition legacyHazard : Hazard :=
  mkHazard "h" "Hazard" ""
    [ Some (mkCause "a" "A" None) ]
    [ Some (mkConsequence "x" "X" None None);
      Some (mkConsequence "y" "Y" (Some [])
              (Some (mkRisk (Some "personnel") (Some "3") (Some "D") (Some "High")))) ]
    [].

Definition legacyStorage : LocalStorage :=
  mkLocalStorage (Some (JsonText (JArray [legacyHazard]))) false.

(** ** More of app.js: JSON export and import of the hazard document *)




(** ** Further definitions for the HAZID worksheet as a whole *)

(** The number of [sheet.addRow] calls of a trace. *)
Definition isAddRow (call : SheetCall) : bool :=
  match call with AddRow _ => true | _ => false end.

Definition addedRows (sheet : list SheetCall) : Z :=
  len (List.filter isAddRow sheet).

(** The sum of the block row counts of a list of hazards. *)
Definition totalBlockRows (hs : list Hazard) : Z := sumZ (map blockRows hs).

(** The call stays inside the rows [first .. last - 1] and the ten columns
    of the sheet: a merged range is not empty and ends before [last]. *)
Definition CallInRows (first last : Z) (call : SheetCall) : Prop :=
  match call with
  | AddRow _ => True
  | MergeAndSet r c rowSpan _ =>
      first <= r /\ 1 <= rowSpan /\ r + rowSpan <= last /\ 1 <= c <= 10
  | CellStyle r c _ => first <= r < last /\ 1 <= c <= 10
  | RiskFill r c _ _ => first <= r < last /\ c = 9
  end.

(** The calls made for one hazard whose block starts at [startRow], in
    closed form. *)
Definition blockTrace (st : State) (hazard : Hazard) (startRow : Z) : list SheetCall :=
  map (fun _ => AddRow blankRow) (seqZ 0 (blockRows hazard))
  ++ [MergeAndSet startRow 1 (blockRows hazard) (hazardCellText hazard)]
  ++ sideTrace 2 3 (blockRows hazard) startRow 0 (map causeView (causes hazard))
  ++ sideTrace 4 5 (blockRows hazard) startRow 0 (map consView (consequences hazard))
  ++ [MergeAndSet startRow 10 (blockRows hazard) (recommendationsText hazard)]
  ++ flat_map (fun r => map (fun c => CellStyle r c (cssHexToARGB borderColor)) (seqZ 1 10))
              (seqZ startRow (blockRows hazard))
  ++ colorTrace st (blockRows hazard) startRow 0 (consequences hazard).

Fixpoint blocksTrace (st : State) (row : Z) (hs : list Hazard) : list SheetCall :=
  match hs with
  | [] => []
  | h :: t => blockTrace st h row ++ blocksTrace st (row + blockRows h) t
  end.

(** The hazard blocks laid one under the other from [row]. *)
Fixpoint blockCells (row : Z) (hs : list Hazard) : list (Z * Z) :=
  match hs with
  | [] => []
  | h :: t => (row, blockRows h) :: blockCells (row + blockRows h) t
  end.

(** ** The Risk Summary and Recommendations worksheets (exportToExcel) *)

(** The two further worksheets are filled cell by cell. *)
Inductive CellCall :=
| SetValue (row col : Z) (value : string)
    (* [ws.getCell(row, col).value = value] *)
| HeaderStyle (col : Z)
    (* the font, fill and alignment of the header cell [(1, col)] *)
| SetFill (row col : Z) (argb font : string)
    (* the solid fill and the font colour of a cell *)
| MergeCells (top left bottom right : Z)
    (* [ws.mergeCells(top, left, bottom, right)] *)
| SetWidth (col width : Z)
    (* [ws.getColumn(col).width = width] *)
| SetBorder (row col : Z) (argb : string).
    (* the four thin borders of a cell *)

(** A computation that writes to a worksheet and may throw: what it wrote
    before throwing stays in the worksheet. *)
Record Sheet (A : Type) := mkSheet {
  written : list CellCall;
  completion : JsResult A
}.
Arguments mkSheet {A} written completion.
Arguments written {A} _.
Arguments completion {A} _.

#[global] Instance Sheet_ret : MRet Sheet := fun A a => mkSheet [] (Ok a).
#[global] Instance Sheet_bind : MBind Sheet := fun A B k m =>
  match completion m with
  | Ok a => mkSheet (written m ++ written (k a)) (completion (k a))
  | Throw e => mkSheet (written m) (Throw e)
  end.

Definition call (c : CellCall) : Sheet unit := mkSheet [c] (Ok tt).
Definition calls (l : list CellCall) : Sheet unit := mkSheet l (Ok tt).
Definition liftJs {A} (m : JsResult A) : Sheet A := mkSheet [] m.

(** [Array.prototype.filter] with a callback that may throw. *)
Fixpoint filterJs {A} (f : A -> JsResult bool) (l : list A) : JsResult (list A) :=
  match l with
  | [] => Ok []
  | x :: t =>
      keep ← f x;
      rest ← filterJs f t;
      Ok (if keep : bool then x :: rest else rest)
  end.

(** [s || fallback] on a string. *)
Definition orDefault (s fallback : string) : string :=
  if String.eqb s "" then fallback else s.

(** The header loop of both worksheets. *)
Definition headerCells (headers : list string) : Sheet unit :=
  forEach (fun header index (acc : Sheet unit) =>
             _ ← acc;
             _ ← call (SetValue 1 (index + 1) header);
             call (HeaderStyle (index + 1)))
          headers (mret tt).

(** The border loops: rows [1 .. lastRow - 1], columns [1 .. cols], the
    header row in white and the data rows in blue. *)
Definition borderCells (lastRow cols : Z) : list CellCall :=
  flat_map (fun row =>
              map (fun col => SetBorder row col
                                (if row =? 1 then "FFFFFFFF" else "FF024F75"))
                  (seqZ 1 cols))
           (seqZ 1 (lastRow - 1)).

Definition summaryHeaders : list string :=
  ["Hazard"; "Consequence"; "Severity Category"; "Severity Index"; "Likelihood Index";
   "Risk Ranking"].

(** The callback of [hazard.consequences.filter]:
    [consequence.risk && consequence.risk.severityLevel &&
     consequence.risk.likelihoodLevel], with no guard on [consequence]. *)
Definition isRiskRanked (consequence : option Consequence) : JsResult bool :=
  r ← prop risk consequence;
  Ok (match r with
      | Some rk => truthy (severityLevel rk) && truthy (likelihoodLevel rk)
      | None => false
      end).

(** [consequence.risk.field] *)
Definition riskField {B} (field : Risk -> B) (consequence : option Consequence)
    : JsResult B :=
  r ← prop risk consequence;
  prop field r.

(** The callback of [riskRankedConsequences.forEach]; the state is
    [(summaryRow, consequenceCount)]. *)
Definition summaryConsequence (st : State) (consequence : option Consequence) (_ : Z)
    (acc : Sheet (Z * Z)) : Sheet (Z * Z) :=
  '(summaryRow, consequenceCount) ← acc;
  text ← liftJs (prop q_text consequence);
  _ ← call (SetValue summaryRow 2 (orDefault text "Untitled Consequence"));
  category ← liftJs (riskField severityCategory consequence);
  _ ← call (SetValue summaryRow 3 (orEmpty category));
  sev ← liftJs (riskField severityLevel consequence);
  _ ← call (SetValue summaryRow 4 (orEmpty sev));
  lik ← liftJs (riskField likelihoodLevel consequence);
  _ ← call (SetValue summaryRow 5 (orEmpty lik));
  riskLevel ← liftJs (getRiskLevel st sev lik);
  _ ← call (SetValue summaryRow 6 (orEmpty (Some riskLevel)));
  riskColor ← liftJs (getRiskLevelColor st sev lik);
  _ ← (if truthy (Some riskColor)
       then call (SetFill summaryRow 6 (cssHexToARGB riskColor) "FFFFFFFF")
       else mret tt);
  mret (summaryRow + 1, consequenceCount + 1).

(** The callback of [hazards.forEach] of the Risk Summary worksheet; the
    state is [summaryRow]. *)
Definition summaryHazard (st : State) (hazard : Hazard) (_ : Z) (acc : Sheet Z) : Sheet Z :=
  summaryRow ← acc;
  riskRankedConsequences ← liftJs (filterJs isRiskRanked (consequences hazard));
  if len riskRankedConsequences >? 0 then
    let hazardStartRow := summaryRow in
    '(summaryRow, consequenceCount) ←
      forEach (summaryConsequence st) riskRankedConsequences (mret (summaryRow, 0));
    _ ← call (SetValue hazardStartRow 1 (orDefault (title hazard) "Untitled Hazard"));
    _ ← (if consequenceCount >? 1
         then call (MergeCells hazardStartRow 1 (hazardStartRow + consequenceCount - 1) 1)
         else mret tt);
    mret summaryRow
  else mret summaryRow.

(** The body of the [try] that builds the Risk Summary worksheet. Its
    [catch] only logs the error: the workbook keeps what was [written]. *)
Definition summaryWorksheet (st : State) : Sheet unit :=
  _ ← headerCells summaryHeaders;
  summaryRow ← forEach (summaryHazard st) (hazards st) (mret 2);
  _ ← calls [SetWidth 1 30; SetWidth 2 40; SetWidth 3 20; SetWidth 4 15; SetWidth 5 15;
             SetWidth 6 15];
  if summaryRow >? 2 then calls (borderCells summaryRow 6) else mret tt.

Definition recommendationsHeaders : list string := ["Hazard"; "Action"; "Responsible Party"].

(** The callback of [hazard.recommendations.forEach]; the state is
    [(recommendationsRow, recommendationCount)]. *)
Definition recommendationRow (recommendation : Recommendation) (_ : Z)
    (acc : Sheet (Z * Z)) : Sheet (Z * Z) :=
  '(recommendationsRow, recommendationCount) ← acc;
  _ ← call (SetValue recommendationsRow 2 (orEmpty (Some (action recommendation))));
  _ ← call (SetValue recommendationsRow 3 (orEmpty (Some (responsible recommendation))));
  mret (recommendationsRow + 1, recommendationCount + 1).

Definition recommendationsHazard (hazard : Hazard) (_ : Z) (acc : Sheet Z) : Sheet Z :=
  recommendationsRow ← acc;
  if len (recommendations hazard) >? 0 then
    let hazardStartRow := recommendationsRow in
    '(recommendationsRow, recommendationCount) ←
      forEach recommendationRow (recommendations hazard) (mret (recommendationsRow, 0));
    _ ← call (SetValue hazardStartRow 1 (orDefault (title hazard) "Untitled Hazard"));
    _ ← (if recommendationCount >? 1
         then call (MergeCells hazardStartRow 1 (hazardStartRow + recommendationCount - 1) 1)
         else mret tt);
    mret recommendationsRow
  else mret recommendationsRow.

(** The body of the [try] that builds the Recommendations worksheet. *)
Definition recommendationsWorksheet (st : State) : Sheet unit :=
  _ ← headerCells recommendationsHeaders;
  recommendationsRow ← forEach recommendationsHazard (hazards st) (mret 2);
  _ ← calls [SetWidth 1 30; SetWidth 2 50; SetWidth 3 25];
  if recommendationsRow >? 2 then calls (borderCells recommendationsRow 3) else mret tt.

(** ** Observations on a worksheet filled cell by cell *)

(** The [(row, value)] of the values written to column [col], in call order. *)
Definition valuesAt (col : Z) (l : list CellCall) : list (Z * string) :=
  omap (fun c => match c with
                 | SetValue r c v => if c =? col then Some (r, v) else None
                 | _ => None
                 end) l.

(** The merged ranges [(top, left, bottom, right)], in call order. *)
Definition mergedRanges (l : list CellCall) : list (Z * Z * Z * Z) :=
  omap (fun c => match c with
                 | MergeCells t l b r => Some (t, l, b, r)
                 | _ => None
                 end) l.

(** The filled cells [(row, col, argb)]. *)
Definition fillsOf (l : list CellCall) : list (Z * Z * string) :=
  omap (fun c => match c with
                 | SetFill r c argb _ => Some (r, c, argb)
                 | _ => None
                 end) l.

(** The cells [(row, col)] that got borders, and the columns that got a
    width. *)
Definition bordersOf (l : list CellCall) : list (Z * Z) :=
  omap (fun c => match c with
                 | SetBorder r c _ => Some (r, c)
                 | _ => None
                 end) l.

Definition widthsOf (l : list CellCall) : list (Z * Z) :=
  omap (fun c => match c with
                 | SetWidth c w => Some (c, w)
                 | _ => None
                 end) l.

(** All cells of the rows [1 .. rows] and the columns [1 .. cols], row by
    row. *)
Definition gridCells (rows cols : Z) : list (Z * Z) :=
  flat_map (fun r => map (pair r) (seqZ 1 cols)) (seqZ 1 rows).

(** Whether a consequence has both levels set. *)
Definition isRated (c : Consequence) : bool :=
  match risk c with
  | Some rk => truthy (severityLevel rk) && truthy (likelihoodLevel rk)
  | None => false
  end.

(** The consequences of a hazard that have both levels set. *)
Definition ratedConsequences (hazard : Hazard) : list Consequence :=
  List.filter isRated (omap id (consequences hazard)).

(** The title a worksheet shows for a hazard. *)
Definition shownTitle (hazard : Hazard) : string :=
  orDefault (title hazard) "Untitled Hazard".

(** Groups of [n] rows laid one under the other from [row], empty groups
    taking no row: [(first row, title, n)] for each group that is not
    empty. *)
Fixpoint groupCells (row : Z) (groups : list (string * Z)) : list (Z * string * Z) :=
  match groups with
  | [] => []
  | (title, n) :: t =>
      (if n >? 0 then [(row, title, n)] else []) ++ groupCells (row + n) t
  end.

(** The title cell of a group and the range merged for it, which exists
    when the group has more than one row. *)
Definition groupTitle (g : Z * string * Z) : Z * string := (fst (fst g), snd (fst g)).

Definition groupMerge (g : Z * string * Z) : option (Z * Z * Z * Z) :=
  if snd g >? 1 then Some (fst (fst g), 1, fst (fst g) + snd g - 1, 1) else None.

(** The calls that set the title cell of a group and merge its range. *)
Definition groupCalls (g : Z * string * Z) : list CellCall :=
  [SetValue (fst (fst g)) 1 (snd (fst g))]
  ++ (if snd g >? 1 then [MergeCells (fst (fst g)) 1 (fst (fst g) + snd g - 1) 1] else []).

(** The calls of the rows of one group, of one group, and of all groups,
    given the calls [rowCalls row x] of a row. *)
Fixpoint groupRows {X} (rowCalls : Z -> X -> list CellCall) (row : Z) (xs : list X)
    : list CellCall :=
  match xs with
  | [] => []
  | x :: t => rowCalls row x ++ groupRows rowCalls (row + 1) t
  end.

Definition groupBlock {X} (rowCalls : Z -> X -> list CellCall) (row : Z)
    (title : string) (xs : list X) : list CellCall :=
  if len xs >? 0 then
    groupRows rowCalls row xs
    ++ [SetValue row 1 title]
    ++ (if len xs >? 1 then [MergeCells row 1 (row + len xs - 1) 1] else [])
  else [].

Fixpoint groupBlocks {X} (rowCalls : Z -> X -> list CellCall) (row : Z)
    (groups : list (string * list X)) : list CellCall :=
  match groups with
  | [] => []
  | (title, xs) :: t =>
      groupBlock rowCalls row title xs ++ groupBlocks rowCalls (row + len xs) t
  end.

(** The calls of the Risk Summary row of a rated consequence. *)
Definition summaryRowCalls (st : State) (row : Z) (c : Consequence) : list CellCall :=
  [ SetValue row 2 (orDefault (q_text c) "Untitled Consequence");
    SetValue row 3 (orEmpty (severityCategory (consRisk (Some c))));
    SetValue row 4 (orEmpty (severityLevel (consRisk (Some c))));
    SetValue row 5 (orEmpty (likelihoodLevel (consRisk (Some c))));
    SetValue row 6 (evaluatorLabel st (Some c)) ]
  ++ (if truthy (Some (evaluatorColor st (Some c)))
      then [SetFill row 6 (cssHexToARGB (evaluatorColor st (Some c))) "FFFFFFFF"]
      else []).

(** The calls of the Recommendations row of a recommendation. *)
Definition recommendationRowCalls (row : Z) (r : Recommendation) : list CellCall :=
  [ SetValue row 2 (action r); SetValue row 3 (responsible r) ].

(** The header calls of a worksheet. *)
Definition headerTrace (headers : list string) : list CellCall :=
  flat_map (fun ih => [SetValue 1 (fst ih + 1) (snd ih); HeaderStyle (fst ih + 1)])
           (indexedFrom 0 headers).

(** A state with one hazard that has a rated consequence and a
    recommendation, and the state with a second hazard that has a [null]
    entry among its consequences, as a hand-edited import can produce. *)
Definition ratedHazard : Hazard :=
  mkHazard "h1" "Fire" "" []
    [Some (mkConsequence "q1" "Burns" None (Some (mkRisk None (Some "3") (Some "D") None)))]
    [mkRecommendation "r1" "Install detector" "HSE"].

Definition nullEntryHazard : Hazard := mkHazard "h2" "Leak" "" [] [None] [].

Definition ratedState : State := setHazards [ratedHazard] initialState.

Definition nullEntryState : State := setHazards [ratedHazard; nullEntryHazard] initialState.

(** ** Copy, paste and the hazard actions (copyItem, pasteItem,
    renderHazardActions) *)

Inductive OwnerType := ownerCause | ownerConsequence.

(** [state.clipboard] when it is not [null]: the copied item with its
    type. A copied cause or consequence may be [null], as the entries of
    the lists may. *)
Inductive Clip :=
| ClipCause (data : option Cause)
| ClipConsequence (data : option Consequence)
| ClipMeasure (ownerType : OwnerType) (data : Measure)
| ClipRecommendation (data : Recommendation)
| ClipHazard (data : Hazard).

(** The [ref] argument of [copyItem] and [pasteItem], as the buttons build
    it: every index is given. *)
Inductive ItemRef :=
| RefCause (hazardIndex rowIndex : nat)
| RefConsequence (hazardIndex rowIndex : nat)
| RefMeasure (ownerType : OwnerType) (hazardIndex rowIndex measureIndex : nat)
| RefRecommendation (hazardIndex recoIndex : nat).

(** [deepClone(obj)], that is [JSON.parse(JSON.stringify(obj))], on a value
    that may be [undefined]: [undefined] has no JSON text and
    [JSON.parse(undefined)] throws a SyntaxError; any other value of the
    data model comes back as an equal copy. *)
Definition deepClone {A} (obj : option A) : JsResult A :=
  match obj with
  | Some a => Ok a
  | None => Throw SyntaxError
  end.

(** [array.splice(start, 0, x)]: [start] is clamped to the length. *)
Definition spliceIn {A} (start : nat) (x : A) (l : list A) : list A :=
  take start l ++ x :: drop start l.

(** [array.splice(start, 1)] *)
Definition spliceOut {A} (start : nat) (l : list A) : list A := delete start l.

Definition setCauses (cs : list (option Cause)) (h : Hazard) : Hazard :=
  mkHazard (h_id h) (title h) (description h) cs (consequences h) (recommendations h).

Definition setConsequences (qs : list (option Consequence)) (h : Hazard) : Hazard :=
  mkHazard (h_id h) (title h) (description h) (causes h) qs (recommendations h).

Definition setRecommendations (rs : list Recommendation) (h : Hazard) : Hazard :=
  mkHazard (h_id h) (title h) (description h) (causes h) (consequences h) rs.

Definition setHazardId (id : string) (h : Hazard) : Hazard :=
  mkHazard id (title h) (description h) (causes h) (consequences h) (recommendations h).

Definition setCauseId (id : string) (c : Cause) : Cause :=
  mkCause id (c_text c) (preventionMeasures c).

Definition setConsequenceId (id : string) (c : Consequence) : Consequence :=
  mkConsequence id (q_text c) (mitigationMeasures c) (risk c).

Definition setMeasureId (id : string) (m : Measure) : Measure := mkMeasure id (m_text m).

Definition setRecommendationId (id : string) (r : Recommendation) : Recommendation :=
  mkRecommendation id (action r) (responsible r).

Definition setPreventionMeasures (ms : list Measure) (c : Cause) : Cause :=
  mkCause (c_id c) (c_text c) (Some ms).

Definition setMitigationMeasures (ms : list Measure) (c : Consequence) : Consequence :=
  mkConsequence (q_id c) (q_text c) (Some ms) (risk c).

(** [owner?.[key]?.[measureIndex]] *)
Definition measureOf {A} (key : A -> option (list Measure)) (owner : option (option A))
    (measureIndex : nat) : option Measure :=
  match owner with
  | Some (Some o) =>
      match key o with
      | Some ms => ms !! measureIndex
      | None => None
      end
  | _ => None
  end.

(** [copyItem(ref)]: returns the clipboard it leaves. *)
Definition copyItem (ref : ItemRef) (st : State) (clipboard : option Clip)
    : JsResult (option Clip) :=
  match ref with
  | RefCause hazardIndex rowIndex =>
      items ← prop causes (hazards st !! hazardIndex);
      data ← deepClone (items !! rowIndex);
      Ok (Some (ClipCause data))
  | RefConsequence hazardIndex rowIndex =>
      items ← prop consequences (hazards st !! hazardIndex);
      data ← deepClone (items !! rowIndex);
      Ok (Some (ClipConsequence data))
  | RefMeasure ownerType hazardIndex rowIndex measureIndex =>
      item ← match ownerType with
             | ownerCause =>
                 items ← prop causes (hazards st !! hazardIndex);
                 Ok (measureOf preventionMeasures (items !! rowIndex) measureIndex)
             | ownerConsequence =>
                 items ← prop consequences (hazards st !! hazardIndex);
                 Ok (measureOf mitigationMeasures (items !! rowIndex) measureIndex)
             end;
      match item with
      | Some m => data ← deepClone (Some m); Ok (Some (ClipMeasure ownerType data))
      | None => Ok clipboard
      end
  | RefRecommendation hazardIndex recoIndex =>
      items ← prop recommendations (hazards st !! hazardIndex);
      data ← deepClone (items !! recoIndex);
      Ok (Some (ClipRecommendation data))
  end.

(** [owner[key]] for writing: a TypeError when the owner is [undefined] or
    [null], and, at the following [.splice], when the list is [undefined]. *)
Definition measuresOf {A} (key : A -> option (list Measure)) (owner : option (option A))
    : JsResult (list Measure) :=
  match owner with
  | Some (Some o) => prop id (key o)
  | _ => Throw TypeError
  end.

Definition sameOwner (a b : OwnerType) : bool :=
  match a, b with
  | ownerCause, ownerCause | ownerConsequence, ownerConsequence => true
  | _, _ => false
  end.

(** The state in which the hazard at [hazardIndex] has been changed in
    place. *)
Definition updateHazard (hazardIndex : nat) (f : Hazard -> Hazard) (st : State) : State :=
  setHazards (alter f hazardIndex (hazards st)) st.

(** [pasteItem(ref)]; [newId] is what [generateId()] returns. The handler
    either throws before it has changed anything or returns the state and
    the storage it leaves. *)
Definition pasteItem (newId : string) (ref : ItemRef) (clipboard : option Clip)
    (st : State) (ls : LocalStorage) : JsResult (State * LocalStorage) :=
  match clipboard with
  | None => Ok (st, ls)
  | Some clip =>
      match ref, clip with
      | RefCause hazardIndex rowIndex, ClipCause data =>
          let hazard := hazards st !! hazardIndex in
          clone ← deepClone (Some data);
          clone ← prop (setCauseId newId) clone;
          items ← prop causes hazard;
          let st := updateHazard hazardIndex
                      (setCauses (spliceIn (rowIndex + 1) (Some clone) items)) st in
          Ok (st, scheduleSaveAndRerender st ls)
      | RefConsequence hazardIndex rowIndex, ClipConsequence data =>
          let hazard := hazards st !! hazardIndex in
          clone ← deepClone (Some data);
          clone ← prop (setConsequenceId newId) clone;
          items ← prop consequences hazard;
          let st := updateHazard hazardIndex
                      (setConsequences (spliceIn (rowIndex + 1) (Some clone) items)) st in
          Ok (st, scheduleSaveAndRerender st ls)
      | RefMeasure ownerType hazardIndex rowIndex measureIndex, ClipMeasure clipOwner data =>
          if sameOwner ownerType clipOwner then
            let hazard := hazards st !! hazardIndex in
            match ownerType with
            | ownerCause =>
                items ← prop causes hazard;
                clone ← deepClone (Some data);
                let clone := setMeasureId newId clone in
                ms ← measuresOf preventionMeasures (items !! rowIndex);
                let owner := setPreventionMeasures (spliceIn (measureIndex + 1) clone ms) in
                let st := updateHazard hazardIndex
                            (fun h => setCauses (alter (fmap owner) rowIndex (causes h)) h)
                            st in
                Ok (st, scheduleSaveAndRerender st ls)
            | ownerConsequence =>
                items ← prop consequences hazard;
                clone ← deepClone (Some data);
                let clone := setMeasureId newId clone in
                ms ← measuresOf mitigationMeasures (items !! rowIndex);
                let owner := setMitigationMeasures (spliceIn (measureIndex + 1) clone ms) in
                let st := updateHazard hazardIndex
                            (fun h => setConsequences
                                        (alter (fmap owner) rowIndex (consequences h)) h)
                            st in
                Ok (st, scheduleSaveAndRerender st ls)
            end
          else Ok (st, ls)
      | RefRecommendation hazardIndex recoIndex, ClipRecommendation data =>
          let hazard := hazards st !! hazardIndex in
          clone ← deepClone (Some data);
          let clone := setRecommendationId newId clone in
          items ← prop recommendations hazard;
          let st := updateHazard hazardIndex
                      (setRecommendations (spliceIn (recoIndex + 1) clone items)) st in
          Ok (st, scheduleSaveAndRerender st ls)
      | _, _ => Ok (st, ls)
      end
  end.

(** The click handlers of [renderHazardActions(hazardIndex)]. *)
Definition addHazardAbove (newId : string) (hazardIndex : nat) (st : State)
    (ls : LocalStorage) : State * LocalStorage :=
  let st := setHazards (spliceIn hazardIndex (createHazard newId) (hazards st)) st in
  (st, scheduleSaveAndRerender st ls).

Definition addHazardBelow (newId : string) (hazardIndex : nat) (st : State)
    (ls : LocalStorage) : State * LocalStorage :=
  let st := setHazards (spliceIn (hazardIndex + 1) (createHazard newId) (hazards st)) st in
  (st, scheduleSaveAndRerender st ls).

Definition duplicateHazard (newId : string) (hazardIndex : nat) (st : State)
    (ls : LocalStorage) : JsResult (State * LocalStorage) :=
  clone ← deepClone (hazards st !! hazardIndex);
  let clone := setHazardId newId clone in
  let st := setHazards (spliceIn (hazardIndex + 1) clone (hazards st)) st in
  Ok (st, scheduleSaveAndRerender st ls).

Definition copyHazard (hazardIndex : nat) (st : State) : JsResult (option Clip) :=
  data ← deepClone (hazards st !! hazardIndex);
  Ok (Some (ClipHazard data)).

Definition pasteHazard (newId : string) (hazardIndex : nat) (clipboard : option Clip)
    (st : State) (ls : LocalStorage) : JsResult (State * LocalStorage) :=
  match clipboard with
  | Some (ClipHazard data) =>
      clone ← deepClone (Some data);
      let clone := setHazardId newId clone in
      let st := setHazards (spliceIn (hazardIndex + 1) clone (hazards st)) st in
      Ok (st, scheduleSaveAndRerender st ls)
  | _ => Ok (st, ls)
  end.

Definition removeHazard (hazardIndex : nat) (st : State) (ls : LocalStorage)
    : State * LocalStorage :=
  let st := setHazards (spliceOut hazardIndex (hazards st)) st in
  (st, scheduleSaveAndRerender st ls).

(** The type of a reference and of a clipboard content, and whether
    [pasteItem] accepts the pair. *)
Inductive ItemKind := kindCause | kindConsequence | kindMeasure (o : OwnerType)
                    | kindRecommendation | kindHazard.

Definition refKind (ref : ItemRef) : ItemKind :=
  match ref with
  | RefCause _ _ => kindCause
  | RefConsequence _ _ => kindConsequence
  | RefMeasure o _ _ _ => kindMeasure o
  | RefRecommendation _ _ => kindRecommendation
  end.

Definition clipKind (clip : Clip) : ItemKind :=
  match clip with
  | ClipCause _ => kindCause
  | ClipConsequence _ => kindConsequence
  | ClipMeasure o _ => kindMeasure o
  | ClipRecommendation _ => kindRecommendation
  | ClipHazard _ => kindHazard
  end.

(** A state holding the hazard of the layout scenario. *)
Definition scenarioState : State := setHazards [scenarioHazard] initialState.

(** ** The segmented columns of the table (renderCauseSegments and the
    like) *)

(** What a segment of a column holds. *)
Inductive SegmentContent :=
| AddItemButton
    (* the "+ Add cause" or "+ Add consequence" button of an empty list *)
| EmptyContent
    (* nothing: the placeholder of a measures or risk column *)
| CauseCell (cause : option Cause)
    (* [renderCauseCell] *)
| ConsequenceCell (consequence : option Consequence)
    (* [renderConsequenceCell] *)
| MeasureStack (stack : option Segments)
    (* [renderMeasureStack] *)
| RiskField (view : option RiskView).
    (* [renderRiskField] for the computed field *)

(** A segment with its [dataset]: the kind and the segment index, which a
    placeholder does not have. *)
Record ColumnSegment := mkColumnSegment {
  dataset : option (string * Z);
  content : SegmentContent
}.

(** [segmentedContainer(segmentCount)] as used for a column, with the
    segments appended to it. *)
Record Column := mkColumn {
  templateRows : Z;
  columnSegments : list ColumnSegment
}.

Definition columnContainer (segmentCount : Z) : Column :=
  mkColumn (Z.max segmentCount 1) [].

Definition appendColumn (seg : ColumnSegment) (c : Column) : Column :=
  mkColumn (templateRows c) (columnSegments c ++ [seg]).

Definition renderCauseSegments (hazard : Hazard) : Column :=
  let count := Z.max (len (causes hazard)) 1 in
  let container := columnContainer count in
  if len (causes hazard) =? 0 then
    appendColumn (mkColumnSegment None AddItemButton) container
  else
    forEach (fun cause i c =>
               appendColumn (mkColumnSegment (Some ("cause", i)) (CauseCell cause)) c)
            (causes hazard) container.

(** [renderMeasureStack] also stores [[]] in a measure list that is
    [undefined]; no count depends on it. *)
Definition renderCauseMeasuresSegments (hazard : Hazard) : Column :=
  let count := Z.max (len (causes hazard)) 1 in
  let container := columnContainer count in
  if len (causes hazard) =? 0 then
    appendColumn (mkColumnSegment None EmptyContent) container
  else
    forEach (fun (_ : option Cause) i c =>
               appendColumn (mkColumnSegment (Some ("cause-measures", i))
                               (MeasureStack (causeMeasureStack hazard (Z.to_nat i)))) c)
            (causes hazard) container.

Definition renderConsequenceSegments (hazard : Hazard) : Column :=
  let count := Z.max (len (consequences hazard)) 1 in
  let container := columnContainer count in
  if len (consequences hazard) =? 0 then
    appendColumn (mkColumnSegment None AddItemButton) container
  else
    forEach (fun consequence i c =>
               appendColumn (mkColumnSegment (Some ("consequence", i))
                               (ConsequenceCell consequence)) c)
            (consequences hazard) container.

Definition renderConsequenceMeasuresSegments (hazard : Hazard) : Column :=
  let count := Z.max (len (consequences hazard)) 1 in
  let container := columnContainer count in
  if len (consequences hazard) =? 0 then
    appendColumn (mkColumnSegment None EmptyContent) container
  else
    forEach (fun (_ : option Consequence) i c =>
               appendColumn (mkColumnSegment (Some ("consequence-measures", i))
                               (MeasureStack (consMeasureStack hazard (Z.to_nat i)))) c)
            (consequences hazard) container.

(** The column of [renderRiskSegments(hazard, hazardIndex, 'riskScore',
    true)], around the views of [renderRiskSegments]; returns the hazard
    as the rendering leaves it. *)
Definition renderRiskScoreColumn (st : State) (hazard : Hazard) : JsResult (Hazard * Column) :=
  let count := Z.max (len (consequences hazard)) 1 in
  let container := columnContainer count in
  if len (consequences hazard) =? 0 then
    Ok (hazard, appendColumn (mkColumnSegment None EmptyContent) container)
  else
    '(hazard', views) ← renderRiskSegments st hazard;
    Ok (hazard',
        forEach (fun view i c =>
                   appendColumn (mkColumnSegment (Some ("risk-score", i)) (RiskField view)) c)
                views container).

(** The segment indices a column carries in its datasets, for a kind: what
    the selector [.segment[data-kind="kind"]] of [alignSegments] finds. *)
Definition segmentsOfKind (kind : string) (c : Column) : list Z :=
  omap (fun seg => match dataset seg with
                   | Some (k, i) => if String.eqb k kind then Some i else None
                   | None => None
                   end)
       (columnSegments c).

(** The grid of the column or stack has one row per segment. *)
Definition ColumnFilled (c : Column) : Prop := templateRows c = len (columnSegments c).

Definition StackFilled (rows : Z) (stack : option Segments) : Prop :=
  exists s, stack = Some s /\ gridTemplateRows s = rows /\ len (segments s) = rows.

(** ** Merged ranges of the HAZID worksheet *)

(** The worksheet operations all [mergeAndSet] calls of a trace make. *)
Definition mergeOps (sheet : list SheetCall) : list ExcelOp :=
  flat_map (fun call => match call with
                        | MergeAndSet r c rowSpan v => mergeAndSet r c rowSpan v
                        | _ => []
                        end) sheet.

(** The [(top, bottom)] of the ranges merged in column [col], in call
    order. *)
Definition mergedRowsOfColumn (col : Z) (ops : list ExcelOp) : list (Z * Z) :=
  omap (fun op => match op with
                  | mergeCells top col' bottom _ =>
                      if col' =? col then Some (top, bottom) else None
                  | _ => None
                  end) ops.

(** The cells [(start row, row span)] lie one after the other within the
    rows [lo .. hi - 1]: each spans at least one row and starts at or after
    the end of the one before. *)
Fixpoint Chain (lo hi : Z) (cells : list (Z * Z)) : Prop :=
  match cells with
  | [] => lo <= hi
  | cell :: t => lo <= fst cell /\ 1 <= snd cell /\ Chain (fst cell + snd cell) hi t
  end.

(** The same for merged ranges [(top, bottom)], which have at least two
    rows. *)
Fixpoint RangeChain (lo hi : Z) (ranges : list (Z * Z)) : Prop :=
  match ranges with
  | [] => True
  | range :: t =>
      lo <= fst range /\ fst range < snd range /\ snd range < hi /\
      RangeChain (snd range + 1) hi t
  end.

(** The range [mergeAndSet] merges for a cell, if any. *)
Definition mergedRange (cell : Z * Z) : option (Z * Z) :=
  let endRow := fst cell + Z.max (snd cell) 1 - 1 in
  if endRow >? fst cell then Some (fst cell, endRow) else None.

(** ** Adding and removing items (the click handlers of renderHazardCell,
    renderCauseCell, renderMeasureStack and renderRecommendationsCell) *)

(** A handler that changes the hazard at [hazardIndex] in place and then
    calls [scheduleSaveAndRerender]. *)
Definition editHazard (hazardIndex : nat) (f : Hazard -> Hazard) (st : State)
    (ls : LocalStorage) : State * LocalStorage :=
  let st := updateHazard hazardIndex f st in
  (st, scheduleSaveAndRerender st ls).

(** [hazard.causes.push(createCause())] *)
Definition pushCause (newId : string) (hazard : Hazard) : Hazard :=
  setCauses (causes hazard ++ [Some (createCause newId)]) hazard.

(** [hazard.causes.splice(rowIndex, 1)] *)
Definition removeCause (rowIndex : nat) (hazard : Hazard) : Hazard :=
  setCauses (spliceOut rowIndex (causes hazard)) hazard.

(** The measure handlers of a cause, which [renderMeasureStack] creates
    after [owner[key] = owner[key] || []]:
    [owner[key].push(createMeasure())] of the placeholder,
    [owner[key].splice(mi + 1, 0, createMeasure())] and
    [owner[key].splice(mi, 1)]. *)
Definition pushMeasure (newId : string) (c : Cause) : Cause :=
  setPreventionMeasures (orNil (preventionMeasures c) ++ [createMeasure newId]) c.

Definition insertMeasureBelow (newId : string) (mi : nat) (c : Cause) : Cause :=
  setPreventionMeasures (spliceIn (mi + 1) (createMeasure newId) (orNil (preventionMeasures c)))
                        c.

Definition removeMeasure (mi : nat) (c : Cause) : Cause :=
  setPreventionMeasures (spliceOut mi (orNil (preventionMeasures c))) c.

(** The hazard in which the cause at [rowIndex] has been changed. *)
Definition editCause (rowIndex : nat) (f : Cause -> Cause) (hazard : Hazard) : Hazard :=
  setCauses (alter (fmap f) rowIndex (causes hazard)) hazard.

(** [hazards(hazardIndex).recommendations.push(createRecommendation())] *)
Definition pushRecommendation (newId : string) (hazard : Hazard) : Hazard :=
  setRecommendations (recommendations hazard ++ [createRecommendation newId]) hazard.

(** * Proofs *)

(** Case analysis on the integer equality test of the goal. *)
Ltac case_eqb :=
  match goal with
  | |- context [?a =? ?b] => destruct (Z.eqb_spec a b)
  end.

(** ** The merge helper *)

(** A [mergeAndSet] call with a row span of at least one covers exactly the
    rows [startRow .. startRow + rowSpan - 1]: it merges them when there is
    more than one, and sets the value of the first. *)
Lemma mergeAndSet_range startRow col rowSpan value :
  1 <= rowSpan ->
  mergeAndSet startRow col rowSpan value
  = (if rowSpan >? 1 then [mergeCells startRow col (startRow + rowSpan - 1) col] else [])
    ++ [setCellValue startRow col value; setCellAlignmentTopLeftWrap startRow col].
Proof.
  intros H. unfold mergeAndSet. rewrite Z.max_l by lia.
  destruct (Z.gtb_spec (startRow + rowSpan - 1) startRow),
           (Z.gtb_spec rowSpan 1); try lia; done.
Qed.

(** ** Loops *)

Lemma len_nonneg {A} (l : list A) : 0 <= len l.
Proof. unfold len. lia. Qed.

Lemma len_cons {A} (x : A) (l : list A) : len (x :: l) = len l + 1.
Proof. unfold len. simpl. lia. Qed.

Lemma len_nil_iff {A} (l : list A) : len l = 0 <-> l = [].
Proof. unfold len. destruct l; simpl; split; intros; try done; lia. Qed.

Lemma reduce_sum {A} (f : A -> Z) (l : list A) (init : Z) :
  reduce (fun sum x => let measures := f x in sum + Z.max measures 1) l init
  = init + sumNatural (map f l).
Proof.
  unfold reduce, sumNatural, sumZ. revert init.
  induction l as [|x l IH]; intros init; simpl.
  - lia.
  - rewrite IH. lia.
Qed.

Lemma measure_forEach col r rows n ms : forall j sheet,
  j + len ms = n ->
  forEachFrom (measureCallback col r rows n) j ms sheet
  = sheet ++ measureTrace col r rows j ms.
Proof.
  induction ms as [|m t IH]; intros j sheet Hn; simpl.
  - by rewrite app_nil_r.
  - rewrite len_cons in Hn. rewrite IH by lia.
    unfold measureCallback. rewrite <- app_assoc. simpl.
    destruct t as [|m' t'].
    + unfold len in Hn; simpl in Hn.
      replace (j =? n - 1) with true by (symmetry; apply Z.eqb_eq; lia). done.
    + pose proof (len_nonneg t'). rewrite len_cons in Hn.
      replace (j =? n - 1) with false by (symmetry; apply Z.eqb_neq; lia). done.
Qed.

Lemma causeMeasureCount_view cause :
  causeMeasureCount cause = len (iv_measures (causeView cause)).
Proof. by destruct cause. Qed.

Lemma consMeasureCount_view cons :
  consMeasureCount cons = len (iv_measures (consView cons)).
Proof. by destruct cons. Qed.

(** The measures loop, guarded by [actualMeasures > 0], emits the measure
    trace of the policy. *)
Lemma guarded_measure_forEach col r rows (ms : list Measure) sheet :
  (if len ms >? 0
   then forEach (measureCallback col r rows (len ms)) ms sheet
   else sheet)
  = sheet ++ measureTrace col r rows 0 ms.
Proof.
  destruct (len ms >? 0) eqn:E.
  - unfold forEach. apply measure_forEach. lia.
  - assert (ms = []) as ->.
    { apply len_nil_iff. pose proof (len_nonneg ms). lia. }
    simpl. by rewrite app_nil_r.
Qed.

Lemma last_index_test {A} (i : Z) (t all : list A) :
  i + (len t + 1) = len all ->
  (i =? len all - 1) = match t with [] => true | _ => false end.
Proof.
  intros H. destruct t as [|x t'].
  - unfold len in H at 1; simpl in H. apply Z.eqb_eq. lia.
  - rewrite len_cons in H. pose proof (len_nonneg t'). apply Z.eqb_neq. lia.
Qed.

Lemma cause_forEach hazard B s : forall l i off sheet,
  i + len l = len (causes hazard) ->
  snd (forEachFrom (causeCallback hazard B s) i l (off, sheet))
  = sheet ++ sideTrace 2 3 B s off (map causeView l).
Proof.
  induction l as [|cause t IH]; intros i off sheet Hi; simpl.
  - by rewrite app_nil_r.
  - rewrite len_cons in Hi.
    rewrite (last_index_test i t (causes hazard) Hi).
    rewrite causeMeasureCount_view.
    change (match cause with
            | Some c => orNil (preventionMeasures c)
            | None => []
            end) with (iv_measures (causeView cause)).
    rewrite guarded_measure_forEach.
    rewrite IH by lia.
    rewrite <- !app_assoc. simpl.
    destruct t; simpl; reflexivity.
Qed.

Lemma cons_forEach hazard B s : forall l i off sheet,
  i + len l = len (consequences hazard) ->
  snd (forEachFrom (consCallback hazard B s) i l (off, sheet))
  = sheet ++ sideTrace 4 5 B s off (map consView l).
Proof.
  induction l as [|cons t IH]; intros i off sheet Hi; simpl.
  - by rewrite app_nil_r.
  - rewrite len_cons in Hi.
    rewrite (last_index_test i t (consequences hazard) Hi).
    rewrite consMeasureCount_view.
    change (match cons with
            | Some c => orNil (mitigationMeasures c)
            | None => []
            end) with (iv_measures (consView cons)).
    rewrite guarded_measure_forEach.
    rewrite IH by lia.
    rewrite <- !app_assoc. simpl.
    destruct t; simpl; reflexivity.
Qed.

(** The causes pass and the consequences pass follow the allocation
    policy. *)
Lemma causesPass_policy hazard B s :
  causesPass hazard B s = sideTrace 2 3 B s 0 (map causeView (causes hazard)).
Proof. unfold causesPass, forEach. rewrite cause_forEach by lia. done. Qed.

Lemma consequencesPass_policy hazard B s :
  consequencesPass hazard B s = sideTrace 4 5 B s 0 (map consView (consequences hazard)).
Proof. unfold consequencesPass, forEach. rewrite cons_forEach by lia. done. Qed.

(** ** Reading the cells of a column off a trace *)

Lemma cellsOfColumn_app col t1 t2 :
  cellsOfColumn col (t1 ++ t2) = cellsOfColumn col t1 ++ cellsOfColumn col t2.
Proof. unfold cellsOfColumn. apply omap_app. Qed.

Lemma cellsOfColumn_cons_eq col r rowSpan v t :
  cellsOfColumn col (MergeAndSet r col rowSpan v :: t) = (r, rowSpan) :: cellsOfColumn col t.
Proof. unfold cellsOfColumn. simpl. by rewrite Z.eqb_refl. Qed.

Lemma cellsOfColumn_cons_ne col c r rowSpan v t :
  c <> col ->
  cellsOfColumn col (MergeAndSet r c rowSpan v :: t) = cellsOfColumn col t.
Proof.
  intros H. unfold cellsOfColumn. simpl.
  by replace (c =? col) with false by (symmetry; by apply Z.eqb_neq).
Qed.

Lemma measureTrace_cells col r rows ms : forall j,
  cellsOfColumn col (measureTrace col r rows j ms)
  = map (fun k => (r + k, if k =? j + len ms - 1 then rows - k else 1)) (seqZ j (len ms)).
Proof.
  induction ms as [|m t IH]; intros j.
  - done.
  - simpl measureTrace. rewrite cellsOfColumn_cons_eq, IH, len_cons.
    pose proof (len_nonneg t).
    rewrite (seqZ_cons j) by lia. simpl.
    replace (Z.pred (len t + 1)) with (len t) by lia.
    replace (Z.succ j) with (j + 1) by lia.
    f_equal.
    + f_equal. destruct t as [|m' t'].
      * unfold len; simpl. case_eqb; [done | lia].
      * rewrite len_cons. pose proof (len_nonneg t'). case_eqb; [lia | done].
    + apply map_ext. intros k. by replace (j + 1 + len t - 1) with (j + (len t + 1) - 1) by lia.
Qed.

Lemma measureTrace_cells_0 col r rows ms :
  cellsOfColumn col (measureTrace col r rows 0 ms) = measureCells r rows (len ms).
Proof. rewrite measureTrace_cells. unfold measureCells. done. Qed.

Lemma measureTrace_other col c r rows ms : forall j,
  c <> col -> cellsOfColumn col (measureTrace c r rows j ms) = [].
Proof.
  induction ms as [|m t IH]; intros j H.
  - done.
  - simpl measureTrace. rewrite cellsOfColumn_cons_ne by done. by apply IH.
Qed.

Lemma extra_other col r rows (extra : list (Z * string)) :
  Forall (fun cv => fst cv <> col) extra ->
  cellsOfColumn col (map (fun cv => MergeAndSet r (fst cv) rows (snd cv)) extra) = [].
Proof.
  induction 1 as [|cv t Hcv _ IH].
  - done.
  - simpl map. by rewrite cellsOfColumn_cons_ne.
Qed.

Lemma shift_measureCells s off rows n :
  map (shiftRows s) (measureCells off rows n) = measureCells (s + off) rows n.
Proof.
  unfold measureCells. rewrite map_map. apply map_ext.
  intros k. unfold shiftRows. simpl. f_equal. lia.
Qed.

Section SideTrace.

Variables colItem colMeasure : Z.
Hypothesis cols_differ : colItem <> colMeasure.
Variable items : list ItemView.
Hypothesis extra_not_item :
  Forall (fun it => Forall (fun cv => fst cv <> colItem) (iv_extra it)) items.
Hypothesis extra_not_measure :
  Forall (fun it => Forall (fun cv => fst cv <> colMeasure) (iv_extra it)) items.

Lemma sideTrace_items B s off :
  cellsOfColumn colItem (sideTrace colItem colMeasure B s off items)
  = map (shiftRows s) (allocate B off (map (fun it => len (iv_measures it)) items)).
Proof using cols_differ extra_not_item.
  clear extra_not_measure. revert off.
  induction items as [|it t IH]; intros off.
  - done.
  - apply Forall_cons in extra_not_item as [Hit Ht].
    simpl sideTrace. rewrite cellsOfColumn_cons_eq, !cellsOfColumn_app.
    rewrite measureTrace_other by done.
    rewrite extra_other by done.
    rewrite (IH Ht). simpl. by destruct t.
Qed.

Lemma sideTrace_measures B s off :
  cellsOfColumn colMeasure (sideTrace colItem colMeasure B s off items)
  = map (shiftRows s)
        (allocateMeasures B off (map (fun it => len (iv_measures it)) items)).
Proof using cols_differ extra_not_measure.
  clear extra_not_item. revert off.
  induction items as [|it t IH]; intros off.
  - done.
  - apply Forall_cons in extra_not_measure as [Hit Ht].
    simpl sideTrace. rewrite cellsOfColumn_cons_ne by done.
    rewrite !cellsOfColumn_app, measureTrace_cells_0.
    rewrite extra_other by done.
    rewrite (IH Ht). simpl. rewrite map_app, shift_measureCells. by destruct t.
Qed.

End SideTrace.

(** ** The allocation policy *)

Lemma sumNatural_cons n ns : sumNatural (n :: ns) = Z.max n 1 + sumNatural ns.
Proof. done. Qed.

Lemma sumNatural_app ns ms : sumNatural (ns ++ ms) = sumNatural ns + sumNatural ms.
Proof.
  induction ns as [|n ns IH]; [done|].
  simpl app. rewrite !sumNatural_cons, IH. lia.
Qed.

Lemma sumNatural_nonneg ns : 0 <= sumNatural ns.
Proof.
  induction ns as [|n ns IH]; [done|]. rewrite sumNatural_cons. lia.
Qed.

Lemma sumNatural_take_S ns i n :
  ns !! i = Some n ->
  sumNatural (take (S i) ns) = sumNatural (take i ns) + Z.max n 1.
Proof.
  intros H. rewrite (take_S_r _ _ _ H), sumNatural_app.
  rewrite sumNatural_cons. change (sumNatural []) with 0. lia.
Qed.

Lemma sumNatural_take_mono ns i j :
  (i <= j)%nat -> sumNatural (take i ns) <= sumNatural (take j ns).
Proof.
  intros H. replace j with (i + (j - i))%nat by lia.
  rewrite <- take_take_drop, sumNatural_app.
  pose proof (sumNatural_nonneg (take (j - i) (drop i ns))). lia.
Qed.

Lemma sumNatural_take_all ns i n :
  ns !! i = Some n -> S i = length ns ->
  sumNatural ns = sumNatural (take i ns) + Z.max n 1.
Proof.
  intros H Hl. rewrite <- (sumNatural_take_S _ _ _ H).
  by rewrite take_ge by lia.
Qed.

Lemma length_allocate B ns : forall off, length (allocate B off ns) = length ns.
Proof.
  induction ns as [|n t IH]; intros off; simpl; [done|]. by rewrite IH.
Qed.

(** Item [i] starts after the natural spans of the items before it; it
    takes its natural span, or what is left of [B] when it is the last. *)
Lemma allocate_lookup B ns : forall off i n,
  ns !! i = Some n ->
  allocate B off ns !! i
  = Some (off + sumNatural (take i ns),
          if decide (S i = length ns) then B - (off + sumNatural (take i ns))
          else Z.max n 1).
Proof.
  induction ns as [|m t IH]; intros off i n H; [done|].
  destruct i as [|i]; simpl in H.
  - injection H as ->. simpl. change (sumNatural []) with 0.
    rewrite Z.add_0_r. by destruct t as [|m' t'].
  - pose proof (lookup_lt_Some _ _ _ H) as Hlt.
    simpl allocate. simpl lookup. rewrite (IH _ _ _ H).
    destruct t as [|m' t']; [simpl in Hlt; lia|].
    simpl take. rewrite sumNatural_cons.
    f_equal. f_equal; [lia|].
    simpl length. repeat case_decide; try lia. 
Qed.

Lemma allocate_sum B ns : forall off,
  ns <> [] -> sumZ (map snd (allocate B off ns)) = B - off.
Proof.
  induction ns as [|n t IH]; intros off H; [done|].
  destruct t as [|m t'].
  - simpl. unfold sumZ. simpl. lia.
  - change (sumZ (map snd (allocate B off (n :: m :: t'))))
      with (Z.max n 1 + sumZ (map snd (allocate B (off + Z.max n 1) (m :: t')))).
    rewrite IH by done. lia.
Qed.

(** With enough rows for the natural spans, the item cells tile the rows
    from [off] to [B]. *)
Lemma allocate_tiles B off ns :
  ns <> [] -> off + sumNatural ns <= B ->
  Tiles off (B - off) (length ns) (allocate B off ns).
Proof.
  intros Hne Hfit. unfold Tiles. split_and!.
  - apply length_allocate.
  - by apply allocate_sum.
  - destruct ns as [|n t]; [done|]. simpl. eauto.
  - intros i a b Ha Hb.
    assert (is_Some (ns !! i)) as [n Hn].
    { apply lookup_lt_is_Some. apply lookup_lt_Some in Ha.
      by rewrite length_allocate in Ha. }
    assert (is_Some (ns !! S i)) as [n' Hn'].
    { apply lookup_lt_is_Some. apply lookup_lt_Some in Hb.
      by rewrite length_allocate in Hb. }
    rewrite (allocate_lookup _ _ _ _ _ Hn) in Ha.
    rewrite (allocate_lookup _ _ _ _ _ Hn') in Hb.
    injection Ha as <-. injection Hb as <-. simpl.
    apply lookup_lt_Some in Hn'.
    rewrite decide_False by lia.
    rewrite (sumNatural_take_S _ _ _ Hn). lia.
  - intros i j a b Hij Ha Hb.
    assert (is_Some (ns !! i)) as [n Hn].
    { apply lookup_lt_is_Some. apply lookup_lt_Some in Ha.
      by rewrite length_allocate in Ha. }
    assert (is_Some (ns !! j)) as [n' Hn'].
    { apply lookup_lt_is_Some. apply lookup_lt_Some in Hb.
      by rewrite length_allocate in Hb. }
    rewrite (allocate_lookup _ _ _ _ _ Hn) in Ha.
    rewrite (allocate_lookup _ _ _ _ _ Hn') in Hb.
    injection Ha as <-. injection Hb as <-. simpl.
    pose proof (lookup_lt_Some _ _ _ Hn') as Hj.
    rewrite decide_False by lia.
    pose proof (sumNatural_take_S _ _ _ Hn) as HS.
    pose proof (sumNatural_take_mono ns (S i) j ltac:(lia)) as Hmono.
    split_and!; [lia| |lia].
    case_decide as Hlast; [|lia].
    pose proof (sumNatural_take_all _ _ _ Hn' Hlast). lia.
Qed.

Lemma allocate_take_spans B ns : forall off i,
  (i < length ns)%nat ->
  map snd (take i (allocate B off ns)) = map (fun n => Z.max n 1) (take i ns).
Proof.
  induction ns as [|n t IH]; intros off i Hi; [simpl in Hi; lia|].
  destruct i as [|i]; [done|].
  simpl in Hi. simpl. rewrite IH by lia.
  destruct t as [|m t']; [simpl in Hi; lia|]. done.
Qed.

Lemma map_snd_shiftRows s cells : map snd (map (shiftRows s) cells) = map snd cells.
Proof. rewrite map_map. by apply map_ext. Qed.

Lemma Tiles_shift s off rows n cells :
  Tiles off rows n cells -> Tiles (s + off) rows n (map (shiftRows s) cells).
Proof.
  intros (Hlen & Hsum & [sp H0] & Hnext & Hapart). unfold Tiles. split_and!.
  - by rewrite length_map.
  - by rewrite map_snd_shiftRows.
  - exists sp. change (map (shiftRows s) cells) with (shiftRows s <$> cells).
    by rewrite list_lookup_fmap, H0.
  - intros i a b Ha Hb.
    change (map (shiftRows s) cells) with (shiftRows s <$> cells) in Ha, Hb.
    rewrite list_lookup_fmap in Ha, Hb.
    destruct (cells !! i) as [a'|] eqn:Ea; [|done].
    destruct (cells !! S i) as [b'|] eqn:Eb; [|done].
    injection Ha as <-. injection Hb as <-. simpl.
    rewrite (Hnext i a' b' Ea Eb). lia.
  - intros i j a b Hij Ha Hb.
    change (map (shiftRows s) cells) with (shiftRows s <$> cells) in Ha, Hb.
    rewrite list_lookup_fmap in Ha, Hb.
    destruct (cells !! i) as [a'|] eqn:Ea; [|done].
    destruct (cells !! j) as [b'|] eqn:Eb; [|done].
    injection Ha as <-. injection Hb as <-. simpl.
    destruct (Hapart i j a' b' Hij Ea Eb) as (? & ? & ?). lia.
Qed.

(** ** The cells of the two passes *)

Lemma consView_extra_columns col (l : list (option Consequence)) :
  col = 4 \/ col = 5 ->
  Forall (fun it => Forall (fun cv => fst cv <> col) (iv_extra it)) (map consView l).
Proof.
  intros Hcol. apply Forall_fmap, Forall_true. intros cons.
  simpl. repeat constructor; simpl; lia.
Qed.

Lemma causeView_extra_columns col (l : list (option Cause)) :
  Forall (fun it => Forall (fun cv => fst cv <> col) (iv_extra it)) (map causeView l).
Proof.
  apply Forall_fmap, Forall_true. intros cause. constructor.
Qed.

Lemma causeView_counts (l : list (option Cause)) :
  map (fun it => len (iv_measures it)) (map causeView l) = map causeMeasureCount l.
Proof. rewrite map_map. apply map_ext. intros c. by rewrite causeMeasureCount_view. Qed.

Lemma consView_counts (l : list (option Consequence)) :
  map (fun it => len (iv_measures it)) (map consView l) = map consMeasureCount l.
Proof. rewrite map_map. apply map_ext. intros c. by rewrite consMeasureCount_view. Qed.

Lemma cause_cells hazard B s :
  cellsOfColumn 2 (causesPass hazard B s)
  = map (shiftRows s) (allocate B 0 (map causeMeasureCount (causes hazard))).
Proof.
  rewrite causesPass_policy, sideTrace_items, causeView_counts; [done|lia|].
  apply causeView_extra_columns.
Qed.

Lemma cause_measure_cells hazard B s :
  cellsOfColumn 3 (causesPass hazard B s)
  = map (shiftRows s) (allocateMeasures B 0 (map causeMeasureCount (causes hazard))).
Proof.
  rewrite causesPass_policy, sideTrace_measures, causeView_counts; [done|lia|].
  apply causeView_extra_columns.
Qed.

Lemma cons_cells hazard B s :
  cellsOfColumn 4 (consequencesPass hazard B s)
  = map (shiftRows s) (allocate B 0 (map consMeasureCount (consequences hazard))).
Proof.
  rewrite consequencesPass_policy, sideTrace_items, consView_counts; [done|lia|].
  apply consView_extra_columns. by left.
Qed.

Lemma cons_measure_cells hazard B s :
  cellsOfColumn 5 (consequencesPass hazard B s)
  = map (shiftRows s) (allocateMeasures B 0 (map consMeasureCount (consequences hazard))).
Proof.
  rewrite consequencesPass_policy, sideTrace_measures, consView_counts; [done|lia|].
  apply consView_extra_columns. by right.
Qed.

Lemma totalPreventionMeasures_sum hazard :
  totalPreventionMeasures hazard = sumNatural (map causeMeasureCount (causes hazard)).
Proof. unfold totalPreventionMeasures. rewrite reduce_sum. lia. Qed.

Lemma totalMitigationMeasures_sum hazard :
  totalMitigationMeasures hazard = sumNatural (map consMeasureCount (consequences hazard)).
Proof. unfold totalMitigationMeasures. rewrite reduce_sum. lia. Qed.

Lemma blockRows_fits hazard :
  sumNatural (map causeMeasureCount (causes hazard)) <= blockRows hazard /\
  sumNatural (map consMeasureCount (consequences hazard)) <= blockRows hazard.
Proof.
  unfold blockRows.
  rewrite totalPreventionMeasures_sum, totalMitigationMeasures_sum. lia.
Qed.

(** ** C1 *)

Lemma causeMeasureCount_number (cause : option Cause) :
  causeMeasureCount cause = numberOfPreventionMeasures cause.
Proof. by destruct cause as [[? ? [ms|]]|]. Qed.

Lemma consMeasureCount_number (cons : option Consequence) :
  consMeasureCount cons = numberOfMitigationMeasures cons.
Proof. by destruct cons as [[? ? [ms|] ?]|]. Qed.

Lemma cause_counts_numbers (l : list (option Cause)) :
  map causeMeasureCount l = map numberOfPreventionMeasures l.
Proof. apply map_ext. apply causeMeasureCount_number. Qed.

Lemma cons_counts_numbers (l : list (option Consequence)) :
  map consMeasureCount l = map numberOfMitigationMeasures l.
Proof. apply map_ext. apply consMeasureCount_number. Qed.

Lemma totalPreventionMeasures_total hazard :
  totalPreventionMeasures hazard = preventionTotal hazard.
Proof.
  rewrite totalPreventionMeasures_sum, cause_counts_numbers.
  unfold sumNatural, preventionTotal. by rewrite map_map.
Qed.

Lemma totalMitigationMeasures_total hazard :
  totalMitigationMeasures hazard = mitigationTotal hazard.
Proof.
  rewrite totalMitigationMeasures_sum, cons_counts_numbers.
  unfold sumNatural, mitigationTotal. by rewrite map_map.
Qed.

(** C1. For every hazard the block row count equals
    max(preventionTotal, mitigationTotal, 1), where preventionTotal is the
    sum over the causes of max(number of prevention measures, 1) and
    mitigationTotal the sum over the consequences of max(number of
    mitigation measures, 1), the numbers being the lengths of the measure
    lists; a hazard with no causes has preventionTotal 0, likewise for the
    consequences, and the result is at least 1. *)
Theorem blockRows_is_max_of_totals (hazard : Hazard) :
  totalPreventionMeasures hazard = preventionTotal hazard /\
  totalMitigationMeasures hazard = mitigationTotal hazard /\
  blockRows hazard = Z.max (Z.max (preventionTotal hazard) (mitigationTotal hazard)) 1 /\
  (causes hazard = [] ->
   preventionTotal hazard = 0 /\ totalPreventionMeasures hazard = 0) /\
  (consequences hazard = [] ->
   mitigationTotal hazard = 0 /\ totalMitigationMeasures hazard = 0) /\
  1 <= blockRows hazard.
Proof.
  pose proof (totalPreventionMeasures_total hazard) as HP.
  pose proof (totalMitigationMeasures_total hazard) as HM.
  split; [exact HP|]. split; [exact HM|]. split; [|split; [|split]].
  - unfold blockRows. by rewrite HP, HM.
  - intros Hnil. rewrite HP. unfold preventionTotal. by rewrite Hnil.
  - intros Hnil. rewrite HM. unfold mitigationTotal. by rewrite Hnil.
  - unfold blockRows. lia.
Qed.

(** The layout scenario: the causes have 2 and 1 measures, the consequences
    1 and 3, so the totals are 3 and 4 and the block has 4 rows. *)
Lemma blockRows_is_max_of_totals_witness :
  totalPreventionMeasures scenarioHazard = 3 /\
  totalMitigationMeasures scenarioHazard = 4 /\
  blockRows scenarioHazard = 4.
Proof.
  destruct (blockRows_is_max_of_totals scenarioHazard) as (HP & HM & HB & _).
  split; [|split].
  - exact (eq_trans HP eq_refl).
  - exact (eq_trans HM eq_refl).
  - exact (eq_trans HB eq_refl).
Defined.

(** ** C2 *)

(** C2. For every hazard whose cause list (respectively consequence list)
    is non-empty, the row spans given to that side's items by the export
    add up to blockRows, the first item starts at the block's first row
    (offset 0), each item starts where the previous one ended, and no two
    items' row ranges overlap. *)
Theorem item_spans_tile_block (hazard : Hazard) (startRow : Z) :
  let B := blockRows hazard in
  (causes hazard <> [] ->
   Tiles startRow B (length (causes hazard))
         (cellsOfColumn 2 (causesPass hazard B startRow))) /\
  (consequences hazard <> [] ->
   Tiles startRow B (length (consequences hazard))
         (cellsOfColumn 4 (consequencesPass hazard B startRow))).
Proof.
  intros B. destruct (blockRows_fits hazard) as [HP HM]. split; intros Hne.
  - rewrite cause_cells.
    replace startRow with (startRow + 0) at 1 by lia.
    replace B with (B - 0) at 1 by lia.
    rewrite <- (length_map causeMeasureCount).
    apply Tiles_shift, allocate_tiles; [|lia].
    by destruct (causes hazard).
  - rewrite cons_cells.
    replace startRow with (startRow + 0) at 1 by lia.
    replace B with (B - 0) at 1 by lia.
    rewrite <- (length_map consMeasureCount).
    apply Tiles_shift, allocate_tiles; [|lia].
    by destruct (consequences hazard).
Qed.

(** ** C3 *)

Lemma allocate_natural_but_last B s counts :
  sumNatural counts <= B ->
  NaturalButLast B s counts (map (shiftRows s) (allocate B 0 counts)).
Proof.
  intros Hfit. unfold NaturalButLast.
  change (map (shiftRows s) (allocate B 0 counts))
    with (shiftRows s <$> allocate B 0 counts).
  split_and!.
  - by rewrite length_fmap, length_allocate.
  - intros i n Hn Hlt.
    rewrite list_lookup_fmap, (allocate_lookup _ _ _ _ _ Hn).
    rewrite decide_False by lia. simpl. unfold shiftRows. simpl. eauto.
  - intros i n Hn Hlast.
    rewrite list_lookup_fmap, (allocate_lookup _ _ _ _ _ Hn).
    rewrite decide_True by done.
    rewrite <- fmap_take.
    change (map snd (shiftRows s <$> take i (allocate B 0 counts)))
      with (map snd (map (shiftRows s) (take i (allocate B 0 counts)))).
    rewrite map_snd_shiftRows, allocate_take_spans by lia.
    change (sumZ (map (fun n => Z.max n 1) (take i counts)))
      with (sumNatural (take i counts)).
    pose proof (sumNatural_take_all _ _ _ Hn Hlast).
    simpl. unfold shiftRows. simpl. rewrite Z.add_0_l.
    eexists. split; [done|lia].
  - intros n ->. simpl. unfold shiftRows. simpl. by rewrite Z.add_0_r, Z.sub_0_r.
Qed.

(** C3. In the row-span allocation of a non-empty item list with a row
    budget B that is at least the sum of the natural spans, every item but
    the last receives its natural span max(measureCount, 1), the last item
    receives B minus the spans of the earlier items, which is at least its
    natural span, and a list of exactly one item absorbs all of B whatever
    its measure count. Stated for both passes of the export. *)
Theorem last_item_absorbs_remainder (hazard : Hazard) (B startRow : Z) :
  sumNatural (map causeMeasureCount (causes hazard)) <= B ->
  sumNatural (map consMeasureCount (consequences hazard)) <= B ->
  NaturalButLast B startRow (map causeMeasureCount (causes hazard))
                 (cellsOfColumn 2 (causesPass hazard B startRow)) /\
  NaturalButLast B startRow (map consMeasureCount (consequences hazard))
                 (cellsOfColumn 4 (consequencesPass hazard B startRow)).
Proof.
  intros HP HM. rewrite cause_cells, cons_cells.
  split; by apply allocate_natural_but_last.
Qed.

Lemma last_item_absorbs_remainder_witness :
  NaturalButLast 4 2 [2; 1] (cellsOfColumn 2 (causesPass scenarioHazard 4 2)) /\
  NaturalButLast 4 2 [1; 3] (cellsOfColumn 4 (consequencesPass scenarioHazard 4 2)).
Proof.
  apply (last_item_absorbs_remainder scenarioHazard 4 2); vm_compute; discriminate.
Defined.

(** The layout scenario, evaluated: with the block starting at row 2, cause
    A takes rows 2-3 and cause B rows 4-5 (expanded from 1 to 2);
    consequence X takes row 2 and consequence Y rows 3-5. *)
Example scenario_layout :
  blockRows scenarioHazard = 4 /\
  cellsOfColumn 2 (causesPass scenarioHazard 4 2) = [(2, 2); (4, 2)] /\
  cellsOfColumn 3 (causesPass scenarioHazard 4 2) = [(2, 1); (3, 1); (4, 2)] /\
  cellsOfColumn 4 (consequencesPass scenarioHazard 4 2) = [(2, 1); (3, 3)] /\
  cellsOfColumn 5 (consequencesPass scenarioHazard 4 2) = [(2, 1); (3, 1); (4, 1); (5, 1)] /\
  cellsOfColumn 9 (consequencesPass scenarioHazard 4 2) = [(2, 1); (3, 3)].
Proof. vm_compute. done. Qed.

(** The second scenario, evaluated: one block row, no cell on the cause
    side, and the consequence on the single row. *)
Example bare_scenario_layout :
  totalPreventionMeasures bareHazard = 0 /\
  totalMitigationMeasures bareHazard = 1 /\
  blockRows bareHazard = 1 /\
  causesPass bareHazard 1 2 = [] /\
  cellsOfColumn 4 (consequencesPass bareHazard 1 2) = [(2, 1)] /\
  cellsOfColumn 5 (consequencesPass bareHazard 1 2) = [].
Proof. vm_compute. done. Qed.

(** ** Measure cells *)

Lemma filter_Forall_all {A} (P : A -> Prop) `{forall x, Decision (P x)} (l : list A) :
  Forall P l -> filter P l = l.
Proof.
  induction 1 as [|x l Hx _ IH]; [done|].
  by rewrite filter_cons_True, IH.
Qed.

Lemma filter_Forall_none {A} (P : A -> Prop) `{forall x, Decision (P x)} (l : list A) :
  Forall (fun x => ~ P x) l -> filter P l = [].
Proof.
  induction 1 as [|x l Hx _ IH]; [done|].
  by rewrite filter_cons_False.
Qed.

Lemma measureCells_rows r rowSpan n :
  Forall (fun cell => r <= fst cell < r + n) (measureCells r rowSpan n).
Proof.
  unfold measureCells. apply Forall_fmap, Forall_seqZ. intros j Hj. simpl. lia.
Qed.

Lemma measureCells_spans_pos r rowSpan n :
  n <= rowSpan -> Forall (fun cell => 1 <= snd cell) (measureCells r rowSpan n).
Proof.
  intros Hn. unfold measureCells. apply Forall_fmap, Forall_seqZ.
  intros j Hj. simpl. case_eqb; lia.
Qed.

Lemma unit_spans_sum n rowSpan (k : nat) : forall a,
  a + Z.of_nat k <= n - 1 ->
  sumZ (map (fun j => if j =? n - 1 then rowSpan - j else 1) (seqZ a (Z.of_nat k)))
  = Z.of_nat k.
Proof.
  induction k as [|k IH]; intros a Ha; [done|].
  rewrite seqZ_cons by lia.
  replace (Z.pred (Z.of_nat (S k))) with (Z.of_nat k) by lia.
  simpl map. unfold sumZ in *. simpl foldr. rewrite IH by lia.
  case_eqb; lia.
Qed.

Lemma measureCells_sum r rowSpan n :
  0 < n -> sumZ (map snd (measureCells r rowSpan n)) = rowSpan.
Proof.
  intros Hn. unfold measureCells. rewrite map_map. simpl.
  replace (seqZ 0 n) with (seqZ 0 ((n - 1) + 1)) by (f_equal; lia).
  rewrite seqZ_app by lia. rewrite map_app.
  assert (forall l1 l2, sumZ (l1 ++ l2) = sumZ l1 + sumZ l2) as Happ.
  { intros l1 l2. unfold sumZ. induction l1 as [|x l1 IH]; simpl; [done|]. lia. }
  rewrite Happ.
  replace (seqZ 0 (n - 1)) with (seqZ 0 (Z.of_nat (Z.to_nat (n - 1))))
    by (f_equal; lia).
  rewrite unit_spans_sum by lia.
  rewrite seqZ_cons by lia. rewrite seqZ_nil by lia.
  unfold sumZ. simpl. case_eqb; lia.
Qed.

Lemma allocate_start_lower B counts off i cell :
  allocate B off counts !! i = Some cell -> off <= fst cell.
Proof.
  intros H.
  assert (is_Some (counts !! i)) as [n Hn].
  { apply lookup_lt_is_Some. apply lookup_lt_Some in H.
    by rewrite length_allocate in H. }
  rewrite (allocate_lookup _ _ _ _ _ Hn) in H. injection H as <-. simpl.
  pose proof (sumNatural_nonneg (take i counts)). lia.
Qed.

Lemma allocateMeasures_lower B counts : forall off,
  Forall (fun cell => off <= fst cell) (allocateMeasures B off counts).
Proof.
  induction counts as [|n t IH]; intros off; [constructor|].
  simpl. apply Forall_app. split.
  - eapply Forall_impl; [apply measureCells_rows|]. simpl. intros cell. lia.
  - destruct t as [|m t']; [constructor|].
    eapply Forall_impl; [apply IH|]. simpl. intros cell. lia.
Qed.

(** The measure cells that start inside the rows of item [i] are the
    measure cells of item [i], and the item has room for them. *)
Lemma within_item B s counts : forall off i n r rowSpan,
  off + sumNatural counts <= B ->
  counts !! i = Some n ->
  allocate B off counts !! i = Some (r, rowSpan) ->
  n <= rowSpan /\
  cellsWithin (s + r) rowSpan (map (shiftRows s) (allocateMeasures B off counts))
  = measureCells (s + r) rowSpan n.
Proof.
  unfold cellsWithin.
  induction counts as [|m t IH]; intros off i n r rowSpan Hfit Hn Hcell; [done|].
  rewrite sumNatural_cons in Hfit. pose proof (sumNatural_nonneg t) as Ht.
  destruct i as [|i].
  - injection Hn as ->. simpl in Hcell. injection Hcell as <- <-.
    simpl allocateMeasures.
    set (rows := match t with [] => B - off | _ => Z.max n 1 end).
    assert (n <= rows) as Hroom.
    { subst rows. destruct t; lia. }
    split; [done|].
    rewrite map_app, filter_app, shift_measureCells.
    rewrite filter_Forall_all.
    2:{ eapply Forall_impl; [apply measureCells_rows|]. simpl. intros cell. lia. }
    rewrite filter_Forall_none; [by rewrite app_nil_r|].
    apply Forall_fmap.
    eapply Forall_impl; [apply allocateMeasures_lower|].
    simpl. intros cell. unfold shiftRows. simpl. lia.
  - simpl in Hn. destruct t as [|m' t']; [done|].
    change (allocate B (off + Z.max m 1) (m' :: t') !! i = Some (r, rowSpan)) in Hcell.
    change (allocateMeasures B off (m :: m' :: t'))
      with (measureCells off (Z.max m 1) m
            ++ allocateMeasures B (off + Z.max m 1) (m' :: t')).
    pose proof (allocate_start_lower _ _ _ _ _ Hcell) as Hlow. simpl in Hlow.
    rewrite map_app, filter_app, shift_measureCells.
    rewrite filter_Forall_none.
    2:{ eapply Forall_impl; [apply measureCells_rows|]. simpl. intros cell. lia. }
    simpl app.
    apply (IH (off + Z.max m 1) i n r rowSpan); [lia|done|done].
Qed.

(** ** C4 *)

Lemma measureCells_fill r rowSpan n :
  n <= rowSpan -> MeasuresFill r rowSpan n (measureCells r rowSpan n).
Proof.
  intros Hroom. unfold MeasuresFill. split_and!.
  - unfold measureCells. by rewrite length_map, length_seqZ.
  - intros j Hj. unfold measureCells.
    change (map ?f (seqZ 0 n)) with (f <$> seqZ 0 n).
    rewrite list_lookup_fmap, lookup_seqZ_lt by done. simpl.
    by rewrite Z.add_0_l.
  - intros Hn. split; [by apply measureCells_sum|by apply measureCells_spans_pos].
  - intros ->. unfold measureCells. by rewrite seqZ_nil.
Qed.

Lemma measureCells_upper r rowSpan n :
  n <= rowSpan ->
  Forall (fun cell => fst cell + Z.max (snd cell) 1 <= r + rowSpan)
         (measureCells r rowSpan n).
Proof.
  intros Hn. unfold measureCells. apply Forall_fmap, Forall_seqZ.
  intros j Hj. simpl. case_eqb; lia.
Qed.

(** No measure cell covers a row of an item without measures. *)
Lemma empty_item_slot_free B s counts : forall off i r rowSpan,
  off + sumNatural counts <= B ->
  counts !! i = Some 0 ->
  allocate B off counts !! i = Some (r, rowSpan) ->
  SlotFree (s + r) rowSpan (map (shiftRows s) (allocateMeasures B off counts)).
Proof.
  unfold SlotFree.
  induction counts as [|m t IH]; intros off i r rowSpan Hfit Hn Hcell; [done|].
  rewrite sumNatural_cons in Hfit. pose proof (sumNatural_nonneg t) as Ht.
  destruct i as [|i].
  - injection Hn as ->. simpl in Hcell. injection Hcell as <- <-.
    simpl allocateMeasures.
    set (rows := match t with [] => B - off | _ => Z.max 0 1 end).
    replace (measureCells off rows 0) with (@nil (Z * Z)) by done.
    simpl app. apply Forall_fmap.
    eapply Forall_impl; [apply allocateMeasures_lower|].
    simpl. intros cell. unfold shiftRows. simpl. lia.
  - simpl in Hn. destruct t as [|m' t']; [done|].
    change (allocate B (off + Z.max m 1) (m' :: t') !! i = Some (r, rowSpan)) in Hcell.
    change (allocateMeasures B off (m :: m' :: t'))
      with (measureCells off (Z.max m 1) m
            ++ allocateMeasures B (off + Z.max m 1) (m' :: t')).
    pose proof (allocate_start_lower _ _ _ _ _ Hcell) as Hlow. simpl in Hlow.
    rewrite map_app. apply Forall_app. split.
    + apply Forall_fmap.
      eapply Forall_impl; [apply (measureCells_upper off (Z.max m 1) m); lia|].
      simpl. intros cell. unfold shiftRows. simpl. lia.
    + apply (IH (off + Z.max m 1) i r rowSpan); [lia|done|done].
Qed.

Lemma item_measures_fill B s counts i n :
  sumNatural counts <= B ->
  counts !! i = Some n ->
  exists r rowSpan,
    map (shiftRows s) (allocate B 0 counts) !! i = Some (r, rowSpan) /\
    MeasuresFill r rowSpan n
      (cellsWithin r rowSpan (map (shiftRows s) (allocateMeasures B 0 counts))) /\
    (n = 0 -> SlotFree r rowSpan (map (shiftRows s) (allocateMeasures B 0 counts))).
Proof.
  intros Hfit Hn.
  pose proof (allocate_lookup B counts 0 i n Hn) as Hcell.
  destruct (within_item B s counts 0 i n _ _ ltac:(lia) Hn Hcell) as [Hroom Hwithin].
  eexists _, _. split; [|split].
  - change (map (shiftRows s) (allocate B 0 counts))
      with (shiftRows s <$> allocate B 0 counts).
    rewrite list_lookup_fmap, Hcell. done.
  - simpl. rewrite Hwithin. by apply measureCells_fill.
  - intros ->. simpl.
    apply (empty_item_slot_free B s counts 0 i _ _ ltac:(lia) Hn Hcell).
Qed.

Lemma empty_stack_placeholder (measures : option (list Measure)) :
  len (orNil measures) = 0 ->
  renderMeasureStack (Some measures) = Some (mkSegments 1 [AddMeasureButton]).
Proof. intros H. unfold renderMeasureStack. rewrite H. done. Qed.

(** C4. Within each allocated item that has at least one measure, every
    measure but the last occupies exactly one row, at consecutive offsets
    from the item's start row, and the last measure spans itemSpan minus
    its index, so that the measures together cover exactly the item's row
    range. An item with zero measures contributes no measure cell: the
    export leaves the measure column free over the whole range of the
    item, and in the on-screen table the slot is the single placeholder
    segment of a one-row stack, which spans the whole item. The number of
    measures is the length of the item's measure list. Stated for the
    causes (columns 2 and 3) and the consequences (columns 4 and 5) of the
    export. *)
Theorem measures_fill_item (hazard : Hazard) (startRow : Z) :
  let B := blockRows hazard in
  (forall i cause, causes hazard !! i = Some cause ->
     exists r rowSpan,
       cellsOfColumn 2 (causesPass hazard B startRow) !! i = Some (r, rowSpan) /\
       MeasuresFill r rowSpan (numberOfPreventionMeasures cause)
         (cellsWithin r rowSpan (cellsOfColumn 3 (causesPass hazard B startRow))) /\
       (numberOfPreventionMeasures cause = 0 ->
        SlotFree r rowSpan (cellsOfColumn 3 (causesPass hazard B startRow)) /\
        (is_Some cause ->
         causeMeasureStack hazard i = Some (mkSegments 1 [AddMeasureButton])))) /\
  (forall i cons, consequences hazard !! i = Some cons ->
     exists r rowSpan,
       cellsOfColumn 4 (consequencesPass hazard B startRow) !! i = Some (r, rowSpan) /\
       MeasuresFill r rowSpan (numberOfMitigationMeasures cons)
         (cellsWithin r rowSpan (cellsOfColumn 5 (consequencesPass hazard B startRow))) /\
       (numberOfMitigationMeasures cons = 0 ->
        SlotFree r rowSpan (cellsOfColumn 5 (consequencesPass hazard B startRow)) /\
        (is_Some cons ->
         consMeasureStack hazard i = Some (mkSegments 1 [AddMeasureButton])))).
Proof.
  intros B. destruct (blockRows_fits hazard) as [HP HM]. split.
  - intros i cause Hi.
    rewrite cause_cells, cause_measure_cells.
    assert (map causeMeasureCount (causes hazard) !! i
            = Some (numberOfPreventionMeasures cause)) as Hn.
    { change (map causeMeasureCount (causes hazard))
        with (causeMeasureCount <$> causes hazard).
      by rewrite list_lookup_fmap, Hi, <- causeMeasureCount_number. }
    destruct (item_measures_fill B startRow _ i _ HP Hn)
      as (r & rowSpan & Hcell & Hfill & Hfree).
    exists r, rowSpan. split; [done|]. split; [done|].
    intros Hzero. split; [by apply Hfree|].
    intros [c ->]. unfold causeMeasureStack. rewrite Hi. simpl.
    apply empty_stack_placeholder.
    by rewrite <- Hzero, <- causeMeasureCount_number.
  - intros i cons Hi.
    rewrite cons_cells, cons_measure_cells.
    assert (map consMeasureCount (consequences hazard) !! i
            = Some (numberOfMitigationMeasures cons)) as Hn.
    { change (map consMeasureCount (consequences hazard))
        with (consMeasureCount <$> consequences hazard).
      by rewrite list_lookup_fmap, Hi, <- consMeasureCount_number. }
    destruct (item_measures_fill B startRow _ i _ HM Hn)
      as (r & rowSpan & Hcell & Hfill & Hfree).
    exists r, rowSpan. split; [done|]. split; [done|].
    intros Hzero. split; [by apply Hfree|].
    intros [c ->]. unfold consMeasureStack. rewrite Hi. simpl.
    apply empty_stack_placeholder.
    by rewrite <- Hzero, <- consMeasureCount_number.
Qed.

(** The layout scenario, block at row 2: cause B, the second one, has one
    measure and gets the rows the last item absorbs; its measure fills
    them. Consequence Y has three measures. *)
Lemma measures_fill_item_witness :
  (exists r rowSpan,
     cellsOfColumn 2 (causesPass scenarioHazard 4 2) !! 1%nat = Some (r, rowSpan) /\
     MeasuresFill r rowSpan 1
       (cellsWithin r rowSpan (cellsOfColumn 3 (causesPass scenarioHazard 4 2)))) /\
  (exists r rowSpan,
     cellsOfColumn 4 (consequencesPass scenarioHazard 4 2) !! 1%nat = Some (r, rowSpan) /\
     MeasuresFill r rowSpan 3
       (cellsWithin r rowSpan (cellsOfColumn 5 (consequencesPass scenarioHazard 4 2)))).
Proof.
  split.
  - destruct (proj1 (measures_fill_item scenarioHazard 2) 1%nat _ eq_refl)
      as (r & rowSpan & Hcell & Hfill & _).
    exists r, rowSpan. split; [exact Hcell|exact Hfill].
  - destruct (proj2 (measures_fill_item scenarioHazard 2) 1%nat _ eq_refl)
      as (r & rowSpan & Hcell & Hfill & _).
    exists r, rowSpan. split; [exact Hcell|exact Hfill].
Defined.

(** The second scenario: the only consequence has no measure; the
    mitigation column is left free over its row and the on-screen slot is
    the placeholder. *)
Example bare_scenario_slot :
  numberOfMitigationMeasures (Some (mkConsequence "x" "X" (Some []) None)) = 0 /\
  cellsOfColumn 4 (consequencesPass bareHazard 1 2) = [(2, 1)] /\
  cellsOfColumn 5 (consequencesPass bareHazard 1 2) = [] /\
  consMeasureStack bareHazard 0 = Some (mkSegments 1 [AddMeasureButton]).
Proof. vm_compute. done. Qed.

(** ** The default risk matrix *)

Lemma assignCell_rule rm lik li sev si m :
  assignCell rm lik li sev si m
  = writeCell m (cellKey (lik_id lik) (sev_id sev), ruleLevel rm li si).
Proof.
  unfold assignCell, writeCell, ruleLevel. simpl.
  by repeat case_match.
Qed.

Lemma inner_forEach rm lik li sevs : forall j m,
  forEachFrom (fun sev si m => assignCell rm lik li sev si m) j sevs m
  = fold_left writeCell
      (map (fun isev => (cellKey (lik_id lik) (sev_id (snd isev)),
                         ruleLevel rm li (fst isev)))
           (indexedFrom j sevs)) m.
Proof.
  induction sevs as [|sev t IH]; intros j m; [done|].
  simpl. by rewrite IH, assignCell_rule.
Qed.

Lemma outer_forEach rm liks : forall i m,
  forEachFrom (fun lik li m =>
                 forEach (fun sev si m => assignCell rm lik li sev si m) (severity rm) m)
              i liks m
  = fold_left writeCell
      (flat_map (fun ilik =>
                   map (fun isev => (cellKey (lik_id (snd ilik)) (sev_id (snd isev)),
                                     ruleLevel rm (fst ilik) (fst isev)))
                       (indexedFrom 0 (severity rm)))
                (indexedFrom i liks)) m.
Proof.
  induction liks as [|lik t IH]; intros i m; [done|].
  simpl. rewrite IH. unfold forEach. rewrite inner_forEach.
  by rewrite fold_left_app.
Qed.

Lemma updateRiskMatrix_writes rm :
  matrix (updateRiskMatrix rm) = fold_left writeCell (assignments rm) ∅.
Proof. unfold updateRiskMatrix, forEach. simpl. apply outer_forEach. Qed.

Lemma writes_untouched (l : list (string * option RiskLevel)) : forall m k,
  k ∉ map fst l -> fold_left writeCell l m !! k = m !! k.
Proof.
  induction l as [|[k' v'] t IH]; intros m k Hk; [done|].
  simpl in *. apply not_elem_of_cons in Hk as [Hne Hk].
  rewrite IH by done. unfold writeCell. simpl. by rewrite lookup_insert_ne.
Qed.

Lemma writes_lookup (l : list (string * option RiskLevel)) : forall m k v,
  NoDup (map fst l) -> (k, v) ∈ l -> fold_left writeCell l m !! k = Some v.
Proof.
  induction l as [|[k' v'] t IH]; intros m k v Hnd Hin.
  - by apply elem_of_nil in Hin.
  - simpl in Hnd. apply NoDup_cons in Hnd as [Hk' Hnd].
    apply elem_of_cons in Hin as [Heq|Hin].
    + injection Heq as -> ->. simpl.
      rewrite writes_untouched by done.
      unfold writeCell. simpl. by rewrite lookup_insert_eq.
    + simpl. by apply IH.
Qed.

Lemma indexedFrom_lookup {A} (l : list A) : forall i (n : nat) x,
  l !! n = Some x -> (i + Z.of_nat n, x) ∈ indexedFrom i l.
Proof.
  induction l as [|y t IH]; intros i n x H; [done|].
  destruct n as [|n]; simpl in H; simpl indexedFrom.
  - injection H as ->. change (Z.of_nat 0) with 0. rewrite Z.add_0_r.
    apply elem_of_cons. by left.
  - apply elem_of_cons. right.
    replace (i + Z.of_nat (S n)) with ((i + 1) + Z.of_nat n) by lia.
    by apply (IH (i + 1)).
Qed.

Lemma indexedFrom_snd {A} (l : list A) : forall i, map snd (indexedFrom i l) = l.
Proof. induction l as [|y t IH]; intros i; simpl; [done|]. by rewrite IH. Qed.

Lemma assignments_keys rm : map fst (assignments rm) = cellKeys rm.
Proof.
  unfold assignments, cellKeys.
  rewrite <- (indexedFrom_snd (likelihood rm) 0) at 2.
  generalize (indexedFrom 0 (likelihood rm)) as liks.
  induction liks as [|ilik t IH]; [done|].
  simpl. rewrite map_app, IH. f_equal.
  rewrite map_map. simpl.
  rewrite <- (indexedFrom_snd (severity rm) 0) at 2.
  by rewrite map_map.
Qed.

Lemma assignments_elem rm (li si : nat) lik sev :
  likelihood rm !! li = Some lik ->
  severity rm !! si = Some sev ->
  (cellKey (lik_id lik) (sev_id sev), ruleLevel rm (Z.of_nat li) (Z.of_nat si))
  ∈ assignments rm.
Proof.
  intros Hl Hs. unfold assignments.
  apply list_elem_of_In, in_flat_map.
  exists (Z.of_nat li, lik). split.
  - apply list_elem_of_In. by apply (indexedFrom_lookup _ 0).
  - apply in_map_iff. exists (Z.of_nat si, sev). split; [done|].
    apply list_elem_of_In. by apply (indexedFrom_lookup _ 0).
Qed.

(** The binary64 comparisons of the default rule are the exact ones for
    every [maxSum] up to 200, that is for lists of up to a hundred levels
    each. *)
Lemma thresholds_exact_upto_200 :
  forallb thresholdsExactFor (seqZ 1 200) = true.
Proof. vm_compute. reflexivity. Qed.

(** ** C5 *)

Lemma thresholds_exact (riskSum maxSum : Z) :
  1 <= maxSum <= 200 -> 0 <= riskSum <= maxSum ->
  js_ge (riskRatio riskSum maxSum) lit_0_7 = (7 * maxSum <=? 10 * riskSum) /\
  js_ge (riskRatio riskSum maxSum) lit_0_4 = (2 * maxSum <=? 5 * riskSum).
Proof.
  intros Hm Hr.
  pose proof thresholds_exact_upto_200 as H.
  rewrite forallb_forall in H.
  specialize (H maxSum). 
  assert (In maxSum (seqZ 1 200)) as Hin.
  { apply list_elem_of_In, elem_of_seqZ. lia. }
  specialize (H Hin). unfold thresholdsExactFor in H.
  rewrite forallb_forall in H. specialize (H riskSum).
  assert (In riskSum (seqZ 0 (maxSum + 1))) as Hin'.
  { apply list_elem_of_In, elem_of_seqZ. lia. }
  specialize (H Hin'). apply andb_prop in H as [H7 H4].
  apply Bool.eqb_prop in H7, H4. done.
Qed.

(** Within that range the two binary64 comparisons give the ordinal of the
    exact fraction. *)
Lemma ruleOrdinal_is_exactOrdinal (riskSum maxSum : Z) :
  1 <= maxSum <= 200 -> 0 <= riskSum <= maxSum ->
  ruleOrdinal riskSum maxSum = exactOrdinal riskSum maxSum.
Proof.
  intros Hm Hr. unfold ruleOrdinal, exactOrdinal.
  destruct (thresholds_exact riskSum maxSum Hm Hr) as [-> ->].
  unfold QArith_base.Qle_bool. simpl.
  rewrite !Z2Pos.id by lia.
  replace (7 * maxSum <=? riskSum * 10) with (7 * maxSum <=? 10 * riskSum)
    by (f_equal; lia).
  replace (4 * maxSum <=? riskSum * 10) with (2 * maxSum <=? 5 * riskSum).
  2:{ destruct (Z.leb_spec (2 * maxSum) (5 * riskSum)),
               (Z.leb_spec (4 * maxSum) (riskSum * 10)); try done; lia. }
  done.
Qed.

Lemma ruleLevel_exact rm (li si : Z) :
  let maxSum := (len (likelihood rm) - 1) + (len (severity rm) - 1) in
  1 <= maxSum <= 200 -> 0 <= li -> 0 <= si -> li + si <= maxSum ->
  ruleLevel rm li si = riskLevels rm !! exactOrdinal (li + si) maxSum.
Proof.
  intros maxSum Hm Hli Hsi Hsum.
  rewrite <- ruleOrdinal_is_exactOrdinal by lia.
  unfold ruleLevel, ruleOrdinal. fold maxSum. by repeat case_match.
Qed.

Lemma indexedFrom_bounds {A} (l : list A) : forall i,
  Forall (fun p => i <= fst p <= i + len l - 1) (indexedFrom i l).
Proof.
  induction l as [|x t IH]; intros i; simpl; constructor.
  - simpl. unfold len. simpl length. lia.
  - eapply Forall_impl; [apply IH|]. simpl. intros p. unfold len. simpl length. lia.
Qed.

Lemma flat_map_ext_Forall {A B} (P : A -> Prop) (f g : A -> list B) (l : list A) :
  Forall P l -> (forall a, P a -> f a = g a) -> flat_map f l = flat_map g l.
Proof.
  intros Hl Hfg. induction Hl as [|a l Ha _ IH]; simpl; [done|].
  by rewrite IH, Hfg.
Qed.

(** For lists of up to a hundred levels each, the writes of
    [updateRiskMatrix] are those of the exact rule. *)
Lemma assignments_exact rm :
  1 <= (len (likelihood rm) - 1) + (len (severity rm) - 1) <= 200 ->
  assignments rm = exactAssignments rm.
Proof.
  intros Hm. unfold assignments, exactAssignments.
  assert (len (likelihood rm) = 0 \/ 1 <= len (likelihood rm)) as [Hnil|Hlik]
    by (unfold len; lia).
  { destruct (likelihood rm); [done|]. unfold len in Hnil. simpl in Hnil. lia. }
  assert (len (severity rm) = 0 \/ 1 <= len (severity rm)) as [Hnil|Hsev]
    by (unfold len; lia).
  { destruct (severity rm); [|unfold len in Hnil; simpl in Hnil; lia].
    simpl. generalize (indexedFrom 0 (likelihood rm)).
    intros l. induction l as [|x l IH]; simpl; [done|]. exact IH. }
  apply (flat_map_ext_Forall _ _ _ _ (indexedFrom_bounds (likelihood rm) 0)).
  intros ilik Hilik.
  apply map_ext_Forall.
  eapply Forall_impl; [apply (indexedFrom_bounds (severity rm) 0)|].
  intros isev Hisev. simpl in *. f_equal.
  apply ruleLevel_exact; lia.
Qed.

(** C5. When the risk matrix mapping is regenerated from scratch, the cell
    of likelihood index li and severity index si is assigned the risk level
    at ordinal 2 when (li+si)/((likelihoodCount-1)+(severityCount-1)) >= 0.7,
    the level at ordinal 1 when the ratio is >= 0.4, and the level at
    ordinal 0 otherwise. The regenerated mapping is the result of these
    writes in iteration order, and it holds that level in the cell when no
    two cells share a key. This is stated twice: with the ratio and the
    two comparisons computed in binary64, as the code does, for lists of
    any size; and with the ratio as the exact fraction, for lists of up to
    a hundred levels each (and more than one cell), where the two agree.
    Against the default 5x5 lists, severity level '3' with likelihood
    level 'D' has ratio (3+2)/(4+4) = 0.625 and resolves to the medium
    level; the first cell is low and the last one high. *)
Theorem default_rule_assigns_by_ratio (rm : RiskMatrix) :
  matrix (updateRiskMatrix rm) = fold_left writeCell (assignments rm) ∅ /\
  (forall (li si : nat) (lik : LikelihoodLevel) (sev : SeverityLevel),
     likelihood rm !! li = Some lik ->
     severity rm !! si = Some sev ->
     let ratio := riskRatio (Z.of_nat li + Z.of_nat si)
                            ((len (likelihood rm) - 1) + (len (severity rm) - 1)) in
     let level := if js_ge ratio lit_0_7 then riskLevels rm !! 2%nat
                  else if js_ge ratio lit_0_4 then riskLevels rm !! 1%nat
                  else riskLevels rm !! 0%nat in
     (cellKey (lik_id lik) (sev_id sev), level) ∈ assignments rm /\
     (NoDup (cellKeys rm) ->
      matrix (updateRiskMatrix rm) !! cellKey (lik_id lik) (sev_id sev) = Some level)) /\
  (let likelihoodCount := len (likelihood rm) in
   let severityCount := len (severity rm) in
   let maxSum := (likelihoodCount - 1) + (severityCount - 1) in
   1 <= maxSum <= 200 ->
   matrix (updateRiskMatrix rm) = fold_left writeCell (exactAssignments rm) ∅ /\
   forall (li si : nat) (lik : LikelihoodLevel) (sev : SeverityLevel),
     likelihood rm !! li = Some lik ->
     severity rm !! si = Some sev ->
     let level := riskLevels rm !! exactOrdinal (Z.of_nat li + Z.of_nat si) maxSum in
     (cellKey (lik_id lik) (sev_id sev), level) ∈ exactAssignments rm /\
     (NoDup (cellKeys rm) ->
      matrix (updateRiskMatrix rm) !! cellKey (lik_id lik) (sev_id sev) = Some level)) /\
  riskRatio (3 + 2) (4 + 4) = 0.625%float /\
  exactOrdinal (3 + 2) (4 + 4) = 1%nat /\
  matrix (updateRiskMatrix initialRiskMatrix) !! "D-3"
  = Some (Some (mkRiskLevel "medium" "Medium" "#ffc107")) /\
  matrix (updateRiskMatrix initialRiskMatrix) !! "A-1"
  = Some (Some (mkRiskLevel "low" "Low" "#28a745")) /\
  matrix (updateRiskMatrix initialRiskMatrix) !! "E-5"
  = Some (Some (mkRiskLevel "high" "High" "#dc3545")) /\
  forall st, computeRiskScore (loadDefaultRiskMatrix st) (Some "3") (Some "D")
             = Ok "Medium".
Proof.
  assert (forall (li si : nat) lik sev,
            likelihood rm !! li = Some lik -> severity rm !! si = Some sev ->
            (cellKey (lik_id lik) (sev_id sev), ruleLevel rm (Z.of_nat li) (Z.of_nat si))
            ∈ assignments rm /\
            (NoDup (cellKeys rm) ->
             matrix (updateRiskMatrix rm) !! cellKey (lik_id lik) (sev_id sev)
             = Some (ruleLevel rm (Z.of_nat li) (Z.of_nat si)))) as Hcell.
  { intros li si lik sev Hlik Hsev.
    pose proof (assignments_elem rm li si lik sev Hlik Hsev) as Hin.
    split; [exact Hin|].
    intros Hkeys. rewrite updateRiskMatrix_writes.
    apply writes_lookup; [by rewrite assignments_keys|exact Hin]. }
  split; [apply updateRiskMatrix_writes|].
  split; [exact Hcell|].
  split.
  { intros likelihoodCount severityCount maxSum Hm.
    split; [by rewrite updateRiskMatrix_writes, assignments_exact|].
    intros li si lik sev Hlik Hsev level.
    destruct (Hcell li si lik sev Hlik Hsev) as [Hin Hheld].
    apply lookup_lt_Some in Hlik as Hli. apply lookup_lt_Some in Hsev as Hsi.
    assert (ruleLevel rm (Z.of_nat li) (Z.of_nat si) = level) as Hlevel.
    { subst level maxSum likelihoodCount severityCount.
      apply ruleLevel_exact; unfold len in *; lia. }
    rewrite Hlevel in Hin, Hheld.
    split; [|exact Hheld].
    by rewrite <- assignments_exact. }
  split; [vm_compute; reflexivity|].
  split; [vm_compute; reflexivity|].
  split; [vm_compute; reflexivity|].
  split; [vm_compute; reflexivity|].
  split; [vm_compute; reflexivity|].
  intros st. vm_compute. reflexivity.
Qed.

(** The default 5x5 matrix has more than one cell and pairwise distinct
    keys. Its cell for likelihood 'D' (index 3) and severity '3' (index 2)
    holds the level at ordinal 1, that of the exact ratio 5/8; the cell of
    'A' and '1' (ratio 0) holds the level at ordinal 0 and the cell of 'E'
    and '5' (ratio 1) the level at ordinal 2. *)
Lemma default_rule_assigns_by_ratio_witness :
  1 <= (len (likelihood initialRiskMatrix) - 1) + (len (severity initialRiskMatrix) - 1)
    <= 200 /\
  matrix (updateRiskMatrix initialRiskMatrix) !! cellKey "D" "3"
  = Some (riskLevels initialRiskMatrix !! 1%nat) /\
  matrix (updateRiskMatrix initialRiskMatrix) !! cellKey "A" "1"
  = Some (riskLevels initialRiskMatrix !! 0%nat) /\
  matrix (updateRiskMatrix initialRiskMatrix) !! cellKey "E" "5"
  = Some (riskLevels initialRiskMatrix !! 2%nat).
Proof.
  assert (1 <= (len (likelihood initialRiskMatrix) - 1)
               + (len (severity initialRiskMatrix) - 1) <= 200) as Hm.
  { split; vm_compute; discriminate. }
  assert (NoDup (cellKeys initialRiskMatrix)) as Hkeys.
  { apply (bool_decide_unpack _). vm_compute. exact I. }
  pose proof (proj2 (proj1 (proj2 (proj2
                (default_rule_assigns_by_ratio initialRiskMatrix))) Hm)) as Hrule.
  split; [exact Hm|]. split; [|split].
  - exact (proj2 (Hrule 3%nat 2%nat (mkLikelihood "D" "D" "Likely")
                        (mkSeverity "3" "3" "Moderate effect" "personnel")
                        eq_refl eq_refl) Hkeys).
  - exact (proj2 (Hrule 0%nat 0%nat (mkLikelihood "A" "A" "Very unlikely")
                        (mkSeverity "1" "1" "Negligible effect" "personnel")
                        eq_refl eq_refl) Hkeys).
  - exact (proj2 (Hrule 4%nat 4%nat (mkLikelihood "E" "E" "Very likely")
                        (mkSeverity "5" "5" "Severest effect" "personnel")
                        eq_refl eq_refl) Hkeys).
Defined.

(** ** C10 *)

(** C10. When the likelihood list and the severity list hold exactly one
    level each, regenerating the default matrix still yields a result: the
    denominator (likelihoodCount-1)+(severityCount-1) is 0, the ratio 0/0
    is NaN and passes neither threshold, so the single cell keeps the
    pre-initialized level at ordinal 0. *)
Theorem single_level_matrix_is_low (lik : LikelihoodLevel) (sev : SeverityLevel)
    (descriptions : gmap string (gmap string string)) (levels : list RiskLevel)
    (old : gmap string (option RiskLevel)) :
  let rm := mkRiskMatrix [lik] [sev] descriptions levels old in
  (len (likelihood rm) - 1) + (len (severity rm) - 1) = 0 /\
  PrimFloat.is_nan (riskRatio (0 + 0) 0) = true /\
  js_ge (riskRatio (0 + 0) 0) lit_0_7 = false /\
  js_ge (riskRatio (0 + 0) 0) lit_0_4 = false /\
  matrix (updateRiskMatrix rm)
  = {[ cellKey (lik_id lik) (sev_id sev) := levels !! 0%nat ]}.
Proof.
  intros rm. split_and!; [reflexivity | reflexivity | reflexivity | reflexivity |].
  rewrite updateRiskMatrix_writes. reflexivity.
Qed.

(** ** C9 *)

Lemma guarded_prop {A} (field : A -> string) (o : option A) :
  (if defined o then prop field o else Ok "")
  = Ok (match o with Some a => field a | None => "" end).
Proof. by destruct o. Qed.

(** C9. Risk resolution, that is the riskScore label lookup and the risk
    colour lookup, returns the empty result whenever severityLevel or
    likelihoodLevel is unset or the matrix has no cell for the (likelihood,
    severity) pair, and it never throws: both lookups complete with a value
    on every input. *)
Theorem risk_resolution_degrades_silently (st : State)
    (severityLevel likelihoodLevel : option string) :
  (exists label, computeRiskScore st severityLevel likelihoodLevel = Ok label) /\
  (exists color, getRiskLevelColor st severityLevel likelihoodLevel = Ok color) /\
  (truthy severityLevel = false \/ truthy likelihoodLevel = false \/
   cell (matrix (riskMatrix st))
        (cellKey (orEmpty likelihoodLevel) (orEmpty severityLevel)) = None ->
   computeRiskScore st severityLevel likelihoodLevel = Ok "" /\
   getRiskLevelColor st severityLevel likelihoodLevel = Ok "").
Proof.
  unfold computeRiskScore, getRiskLevelColor. rewrite !guarded_prop.
  split_and!.
  - destruct (negb (truthy severityLevel) || negb (truthy likelihoodLevel)); eauto.
  - destruct (negb (truthy severityLevel) || negb (truthy likelihoodLevel)); eauto.
  - intros [H|[H|H]]; rewrite H; simpl; try done.
    + by rewrite orb_true_r.
    + by destruct (negb (truthy severityLevel) || negb (truthy likelihoodLevel)).
Qed.

(** The resolved case, for reference: a cell holding a level yields its
    label and its colour. *)
Lemma risk_resolution_resolved st (sev lik : string) (level : RiskLevel) :
  sev <> "" -> lik <> "" ->
  matrix (riskMatrix st) !! cellKey lik sev = Some (Some level) ->
  computeRiskScore st (Some sev) (Some lik) = Ok (rl_label level) /\
  getRiskLevelColor st (Some sev) (Some lik) = Ok (rl_color level).
Proof.
  intros Hs Hl Hcell. unfold computeRiskScore, getRiskLevelColor, cell. simpl.
  apply String.eqb_neq in Hs, Hl. rewrite Hs, Hl, Hcell. done.
Qed.

(** ** Risk configuration round trip *)

Lemma copy_levels (rs : list RiskLevel) :
  map (fun r => mkRiskLevel (rl_id r) (rl_label r) (rl_color r)) rs = rs.
Proof.
  induction rs as [|[i l c] t IH]; simpl; [done|]. by rewrite IH.
Qed.

Lemma export_entries (l : list (string * option RiskLevel)) :
  Forall (fun kv => is_Some (snd kv)) l ->
  mapJs (fun '(key, riskLevel) => id ← prop rl_id riskLevel; Ok (key, id)) l
  = Ok (prod_map id cellId <$> l).
Proof.
  induction 1 as [|[k v] t [r Hr] _ IH]; simpl; [done|].
  simpl in Hr. subst v. simpl. rewrite IH. done.
Qed.

Lemma export_matrix_ids st :
  (forall key v, matrix (riskMatrix st) !! key = Some v -> is_Some v) ->
  exists config,
    exportRiskMatrix st = Ok config /\
    riskLevelDescriptions config = Some (riskLevels (riskMatrix st)) /\
    cfg_matrix config = Some (cellId <$> matrix (riskMatrix st)).
Proof.
  intros Hdef. unfold exportRiskMatrix.
  rewrite export_entries.
  - eexists. split; [done|]. simpl. split.
    + by rewrite copy_levels.
    + by rewrite list_to_map_fmap, list_to_map_to_list.
  - apply Forall_forall. intros [k v] Hin. simpl.
    apply elem_of_map_to_list in Hin. by eapply Hdef.
Qed.

(** The matrix built by the import loop: a key other than ["__proto__"] is
    kept, with the level its id resolves to, exactly when the id resolves. *)
Lemma import_lookup (rs : list RiskLevel) (m : gmap string string) (key : string) :
  map_fold (importCell rs) ∅ m !! key
  = if String.eqb key prototypeKey then None
    else m !! key ≫= (fun riskLevelId => Some <$> findRiskLevel rs riskLevelId).
Proof.
  revert key.
  apply (map_fold_weak_ind
           (fun acc (m : gmap string string) => forall key,
              acc !! key
              = if String.eqb key prototypeKey then None
                else m !! key ≫= (fun riskLevelId => Some <$> findRiskLevel rs riskLevelId))).
  - intros key. rewrite !lookup_empty. by destruct (String.eqb key prototypeKey).
  - intros i x m' acc Hi IH key. unfold importCell.
    destruct (decide (key = i)) as [->|Hne].
    + rewrite lookup_insert_eq. simpl.
      destruct (findRiskLevel rs x) as [level|] eqn:E; simpl.
      * destruct (String.eqb i prototypeKey) eqn:Ep.
        -- rewrite IH, Ep. done.
        -- by rewrite lookup_insert_eq.
      * rewrite IH, Hi. by destruct (String.eqb i prototypeKey).
    + rewrite (lookup_insert_ne m') by done.
      destruct (findRiskLevel rs x) as [level|] eqn:E; simpl.
      * destruct (String.eqb i prototypeKey) eqn:Ep; [apply IH|].
        rewrite lookup_insert_ne by done. apply IH.
      * apply IH.
Qed.

Lemma findRiskLevel_unique (rs : list RiskLevel) (level : RiskLevel) :
  NoDup (map rl_id rs) -> level ∈ rs -> findRiskLevel rs (rl_id level) = Some level.
Proof.
  unfold findRiskLevel.
  induction rs as [|r t IH]; intros Hnd Hin.
  - by apply elem_of_nil in Hin.
  - simpl in Hnd. apply NoDup_cons in Hnd as [Hr Hnd]. simpl.
    apply elem_of_cons in Hin as [->|Hin].
    + by rewrite String.eqb_refl.
    + destruct (String.eqb_spec (rl_id r) (rl_id level)) as [Heq|Hne].
      * exfalso. apply Hr. rewrite Heq.
        apply list_elem_of_fmap. by exists level.
      * by apply IH.
Qed.

Lemma updateRiskMatrix_setMatrix m rm :
  updateRiskMatrix (setMatrix m rm) = updateRiskMatrix rm.
Proof. reflexivity. Qed.

Lemma writes_values (P : option RiskLevel -> Prop) (l : list (string * option RiskLevel)) :
  forall m,
  Forall (fun kv => P (snd kv)) l ->
  (forall k v, m !! k = Some v -> P v) ->
  forall k v, fold_left writeCell l m !! k = Some v -> P v.
Proof.
  induction l as [|[k' v'] t IH]; intros m Hl Hm k v Hk; simpl in *.
  - by eapply Hm.
  - apply Forall_cons in Hl as [Hv' Hl].
    eapply (IH _ Hl); [|done].
    intros k0 v0. unfold writeCell. simpl.
    destruct (decide (k' = k0)) as [->|Hne].
    + rewrite lookup_insert_eq. by intros [= <-].
    + rewrite lookup_insert_ne by done. apply Hm.
Qed.

Lemma assignments_values (P : option RiskLevel -> Prop) rm :
  P (riskLevels rm !! 0%nat) -> P (riskLevels rm !! 1%nat) -> P (riskLevels rm !! 2%nat) ->
  Forall (fun kv => P (snd kv)) (assignments rm).
Proof.
  intros H0 H1 H2. unfold assignments.
  apply Forall_forall. intros kv Hin.
  apply list_elem_of_In, in_flat_map in Hin as (ilik & _ & Hin).
  apply in_map_iff in Hin as (isev & <- & _). simpl.
  unfold ruleLevel. by repeat case_match.
Qed.

Lemma updateRiskMatrix_cells_known rm : CellsKnown (updateRiskMatrix rm).
Proof.
  intros key level Hcell. rewrite updateRiskMatrix_writes in Hcell.
  assert (forall l, Some level = Some l -> l ∈ riskLevels rm) as H; [|by apply H].
  revert Hcell.
  apply (writes_values (fun v => forall l, v = Some l -> l ∈ riskLevels rm)
           (assignments rm) ∅).
  - apply (assignments_values (fun v => forall l, v = Some l -> l ∈ riskLevels rm));
      intros l Hl; by eapply list_elem_of_lookup_2.
  - intros k v Hk. by rewrite lookup_empty in Hk.
Qed.

Lemma updateRiskMatrix_cells_from_levels rm :
  (3 <= length (riskLevels rm))%nat -> CellsFromLevels (updateRiskMatrix rm).
Proof.
  intros Hlen key v Hcell. rewrite updateRiskMatrix_writes in Hcell.
  revert Hcell.
  apply (writes_values (fun v => exists level, v = Some level /\ level ∈ riskLevels rm)
           (assignments rm) ∅).
  - apply (assignments_values
             (fun v => exists level, v = Some level /\ level ∈ riskLevels rm)).
    all: match goal with
         | |- context [riskLevels ?r !! ?n] =>
             destruct (lookup_lt_is_Some_2 (riskLevels r) n ltac:(lia)) as [l Hl]
         end; rewrite Hl; exists l; split; [done|]; by eapply list_elem_of_lookup_2.
  - intros k v' Hk. by rewrite lookup_empty in Hk.
Qed.

Lemma loadRiskMatrixFromJSON_cells_known data st :
  CellsKnown (riskMatrix (loadRiskMatrixFromJSON data st)).
Proof.
  unfold loadRiskMatrixFromJSON.
  destruct (cfg_matrix data) as [m|]; simpl.
  - intros key level. simpl. rewrite import_lookup.
    destruct (String.eqb key prototypeKey); [done|].
    destruct (m !! key) as [riskLevelId|]; simpl; [|done].
    unfold findRiskLevel.
    destruct (find _ _) as [found|] eqn:E; simpl; [|done].
    intros [= ->]. apply find_some in E as [Hin _].
    by apply list_elem_of_In.
  - apply updateRiskMatrix_cells_known.
Qed.

(** ** C6 *)

(** C6, as stated, fails: in the state reached by importing a configuration
    whose three risk levels share the id "risk", the cell "E-5" holds the
    level labelled High; the export writes the id "risk" for it and the
    import resolves that id to the first level of the list, labelled Low. *)
Lemma roundtrip_changes_cell_on_shared_ids :
  exists st',
    exportThenImport sharedIdState sharedIdState = Ok st' /\
    cell (matrix (riskMatrix sharedIdState)) "E-5"
    = Some (mkRiskLevel "risk" "High" "#dc3545") /\
    cell (matrix (riskMatrix st')) "E-5"
    = Some (mkRiskLevel "risk" "Low" "#28a745").
Proof. eexists. vm_compute. done. Qed.

(** A cell holding [undefined], which the default rule writes when fewer
    than three risk levels are configured, makes the export throw. *)
Example export_throws_on_undefined_cell :
  cell (matrix (riskMatrix twoLevelState)) "E-5" = None /\
  matrix (riskMatrix twoLevelState) !! "E-5" = Some None /\
  exportRiskMatrix twoLevelState = Throw TypeError.
Proof. vm_compute. done. Qed.

(** The import also drops a cell whose id resolves, when the key of the
    cell is ["__proto__"]: the document below maps that key and the key
    "A-1" to the id of the first default risk level, and only "A-1" comes
    back. *)
Example import_drops_prototype_key :
  let data := mkRiskConfig None None None None None None
                (Some (<["__proto__" := "low"]> (<["A-1" := "low"]> ∅))) in
  let m := matrix (riskMatrix (loadRiskMatrixFromJSON data initialState)) in
  findRiskLevel (importedLevels data initialState) "low"
  = Some (mkRiskLevel "low" "Low" "#28a745") /\
  m !! "A-1" = Some (Some (mkRiskLevel "low" "Low" "#28a745")) /\
  m !! "__proto__" = None.
Proof. vm_compute. done. Qed.

(** C6, amended. When the risk-level ids are pairwise distinct and every
    cell of the matrix holds a level of the risk-level list, exporting the
    risk-matrix configuration and importing the exported document
    reproduces the mapping, the same risk level in every cell, except for a
    cell stored under the key ["__proto__"], which is lost. On import, a
    matrix cell whose key is not ["__proto__"] is kept, with the level its
    id resolves to in the imported risk-level list, exactly when the id
    resolves; the other cells are dropped silently. A document with no
    matrix field gets the mapping that the default rule generates. *)
Theorem roundtrip_with_distinct_ids (st target : State) :
  NoDup (map rl_id (riskLevels (riskMatrix st))) ->
  CellsFromLevels (riskMatrix st) ->
  (exists st',
     exportThenImport st target = Ok st' /\
     riskLevels (riskMatrix st') = riskLevels (riskMatrix st) /\
     matrix (riskMatrix st') = delete "__proto__" (matrix (riskMatrix st)) /\
     (matrix (riskMatrix st) !! "__proto__" = None ->
      matrix (riskMatrix st') = matrix (riskMatrix st))) /\
  (forall data st0 m key,
     cfg_matrix data = Some m ->
     matrix (riskMatrix (loadRiskMatrixFromJSON data st0)) !! key
     = if decide (key = "__proto__") then None
       else m !! key ≫= (fun riskLevelId =>
                           Some <$> findRiskLevel (importedLevels data st0) riskLevelId)) /\
  (forall data st0,
     cfg_matrix data = None ->
     riskMatrix (loadRiskMatrixFromJSON data st0)
     = updateRiskMatrix (riskMatrix (loadRiskMatrixFromJSON data st0))).
Proof.
  intros Hids Hcells. split_and!.
  - destruct (export_matrix_ids st) as (config & Hexport & Hlevels & Hmatrix).
    { intros key v Hv. destruct (Hcells key v Hv) as (level & -> & _). done. }
    unfold exportThenImport, jsonRoundTrip. rewrite Hexport. simpl.
    eexists. split; [done|].
    unfold loadRiskMatrixFromJSON. rewrite Hlevels, Hmatrix. simpl.
    rewrite copy_levels.
    split; [by destruct (likelihoodDescriptions config),
                        (cfg_severityDescriptions config)|].
    match goal with
    | |- ?a = ?b /\ _ => assert (a = b) as Hdelete
    end.
    { apply map_eq. intros key.
      replace (riskLevels _) with (riskLevels (riskMatrix st))
        by (by destruct (likelihoodDescriptions config), (cfg_severityDescriptions config)).
      rewrite import_lookup, lookup_fmap.
      destruct (String.eqb_spec key prototypeKey) as [->|Hne].
      { by rewrite lookup_delete_eq. }
      rewrite lookup_delete_ne by done.
      destruct (matrix (riskMatrix st) !! key) as [v|] eqn:Hv; simpl; [|done].
      destruct (Hcells key v Hv) as (level & -> & Hin). simpl.
      by rewrite findRiskLevel_unique. }
    split; [exact Hdelete|].
    intros Hnone. rewrite Hdelete. by apply delete_id.
  - intros data st0 m key Hm. unfold loadRiskMatrixFromJSON, importedLevels.
    rewrite Hm. simpl. rewrite import_lookup.
    replace (String.eqb key prototypeKey) with (bool_decide (key = "__proto__")).
    2:{ destruct (String.eqb_spec key prototypeKey) as [->|Hne];
          [by rewrite bool_decide_eq_true_2|by rewrite bool_decide_eq_false_2]. }
    destruct (decide (key = "__proto__")) as [->|Hne].
    { done. }
    rewrite bool_decide_eq_false_2 by done.
    by destruct (likelihoodDescriptions data), (cfg_severityDescriptions data),
                (riskLevelDescriptions data).
  - intros data st0 Hm. unfold loadRiskMatrixFromJSON. rewrite Hm.
    unfold setRiskMatrix, riskMatrix at 1 5. unfold updateRiskMatrix at 2.
    symmetry. apply updateRiskMatrix_setMatrix.
Qed.

Lemma roundtrip_with_distinct_ids_witness :
  exists st',
    exportThenImport (loadDefaultRiskMatrix initialState) initialState = Ok st' /\
    riskLevels (riskMatrix st') = riskLevels (riskMatrix (loadDefaultRiskMatrix initialState)) /\
    matrix (riskMatrix st')
    = delete "__proto__" (matrix (riskMatrix (loadDefaultRiskMatrix initialState))) /\
    (matrix (riskMatrix (loadDefaultRiskMatrix initialState)) !! "__proto__" = None ->
     matrix (riskMatrix st') = matrix (riskMatrix (loadDefaultRiskMatrix initialState))).
Proof.
  refine (proj1 (roundtrip_with_distinct_ids (loadDefaultRiskMatrix initialState)
                   initialState _ _)).
  - apply (bool_decide_unpack _). vm_compute. exact I.
  - apply updateRiskMatrix_cells_from_levels. simpl. lia.
Defined.

(** ** C7 *)

(** What the persistence layer does keep: a bare array of hazards (the
    legacy format) comes back as saved; an absent, empty or corrupted item
    loads as the empty list; a failing [setItem] is swallowed and leaves
    the storage as it was. *)
Lemma persist_contract_for_arrays (hs : list Hazard) (previous : option StoredText)
    (doc : JsonValue) (full : bool) :
  persist.load (persist.save (JArray hs) (mkLocalStorage previous false)) = JArray hs /\
  persist.load (mkLocalStorage None full) = JArray [] /\
  persist.load (mkLocalStorage (Some EmptyText) full) = JArray [] /\
  persist.load (mkLocalStorage (Some CorruptText) full) = JArray [] /\
  persist.save doc (mkLocalStorage previous true) = mkLocalStorage previous true.
Proof. by split_and!. Qed.

(** C7, on the code. Every caller saves the object { hazards, riskMatrix,
    ... }. The text is stored, but [persist.load] keeps a parsed value only
    when it is an array, so for the stored object it returns the empty
    list: the saved document does not come back, and [init] starts from the
    starter hazard instead of the saved hazards. *)
Theorem saved_document_is_not_restored (st : State) (previous : option StoredText)
    (generateId : nat -> string) :
  let ls := persist.save (savedDocument st) (mkLocalStorage previous false) in
  item ls = Some (JSON_stringify (savedDocument st)) /\
  JSON_parse (JSON_stringify (savedDocument st))
  = Ok (JObject (mkSavedDoc (Some (hazards st))
                            (Some (stringifyRiskMatrix (riskMatrix st)))
                            (Some (compactMode st)))) /\
  persist.load ls = JArray [] /\
  hazards (init generateId ls initialState)
  = [ mkHazard (generateId 0%nat) "New hazard" ""
               [Some (createCause (generateId 1%nat))]
               [Some (createConsequence (generateId 2%nat))]
               [createRecommendation (generateId 3%nat)] ].
Proof. by split_and!. Qed.

(** ** C8 *)

Lemma computeRiskScore_completes st a b :
  computeRiskScore st a b = Ok (tryCatch (computeRiskScore st a b) (fun _ => "")).
Proof.
  unfold computeRiskScore. rewrite guarded_prop.
  by destruct (negb (truthy a) || negb (truthy b)).
Qed.

Lemma getRiskLevelColor_completes st a b :
  getRiskLevelColor st a b = Ok (tryCatch (getRiskLevelColor st a b) (fun _ => "")).
Proof.
  unfold getRiskLevelColor. rewrite guarded_prop.
  by destruct (negb (truthy a) || negb (truthy b)).
Qed.

(** Rendering the computed field of a consequence stores the evaluator's
    label in it and shows it; nothing else of the consequence changes but
    a missing risk record, which is created empty. *)
Lemma renderRiskField_refreshes st c :
  exists c' view,
    renderRiskField st c = Ok (c', view) /\
    orEmpty (riskScore (consRisk (Some c'))) = evaluatorLabel st (Some c') /\
    textContent view = evaluatorLabel st (Some c') /\
    mitigationMeasures c' = mitigationMeasures c.
Proof.
  unfold renderRiskField.
  rewrite computeRiskScore_completes. simpl.
  rewrite getRiskLevelColor_completes. simpl.
  eexists _, _. split; [reflexivity|]. by split_and!.
Qed.

Lemma renderRiskSegments_refreshes st hazard :
  exists hazard' views,
    renderRiskSegments st hazard = Ok (hazard', views) /\
    ScoresUpToDate st hazard' /\
    causes hazard' = causes hazard /\
    map consMeasureCount (consequences hazard')
    = map consMeasureCount (consequences hazard).
Proof.
  unfold renderRiskSegments, ScoresUpToDate.
  destruct hazard as [hid htitle hdesc hcauses hcons hrecs]. simpl.
  induction hcons as [|cons t (hazard' & views & Hrender & Hfresh & Hcauses & Hcounts)].
  - simpl. eexists _, _. split; [reflexivity|]. simpl. by split_and!.
  - simpl in *.
    destruct (mapJs _ t) as [rendered|e]; [|done]. simpl in Hrender.
    injection Hrender as <- <-. simpl in *.
    destruct cons as [c|].
    + destruct (renderRiskField_refreshes st c) as (c' & view & -> & Hlabel & _ & Hms).
      simpl. eexists _, _. split; [reflexivity|]. simpl. split_and!; [|done|].
      * by constructor.
      * rewrite Hcounts. by rewrite Hms.
    + simpl. eexists _, _. split; [reflexivity|]. simpl. split_and!; [|done|].
      * by constructor.
      * by rewrite Hcounts.
Qed.

Lemma valuesOfColumn_app col t1 t2 :
  valuesOfColumn col (t1 ++ t2) = valuesOfColumn col t1 ++ valuesOfColumn col t2.
Proof. unfold valuesOfColumn. apply omap_app. Qed.

Lemma valuesOfColumn_cons_ne col c r rowSpan v t :
  c <> col ->
  valuesOfColumn col (MergeAndSet r c rowSpan v :: t) = valuesOfColumn col t.
Proof.
  intros H. unfold valuesOfColumn. simpl.
  by replace (c =? col) with false by (symmetry; by apply Z.eqb_neq).
Qed.

Lemma valuesOfColumn_measureTrace col c r rows ms : forall j,
  c <> col -> valuesOfColumn col (measureTrace c r rows j ms) = [].
Proof.
  induction ms as [|m t IH]; intros j H.
  - done.
  - simpl measureTrace. rewrite valuesOfColumn_cons_ne by done. by apply IH.
Qed.

Lemma valuesOfColumn_extra col r rows (extra : list (Z * string)) :
  valuesOfColumn col (map (fun cv => MergeAndSet r (fst cv) rows (snd cv)) extra)
  = omap (fun cv => if fst cv =? col then Some (snd cv) else None) extra.
Proof.
  unfold valuesOfColumn. induction extra as [|cv t IH]; simpl; [done|].
  destruct (fst cv =? col); [f_equal|]; exact IH.
Qed.

Lemma sideTrace_extra_values colItem colMeasure col B s items : forall off,
  colItem <> col -> colMeasure <> col ->
  valuesOfColumn col (sideTrace colItem colMeasure B s off items)
  = flat_map (fun it => omap (fun cv => if fst cv =? col then Some (snd cv) else None)
                             (iv_extra it))
             items.
Proof.
  induction items as [|it t IH]; intros off Hi Hm; [done|].
  simpl sideTrace. rewrite valuesOfColumn_cons_ne by done.
  rewrite !valuesOfColumn_app, valuesOfColumn_measureTrace by done.
  rewrite valuesOfColumn_extra, IH by done. done.
Qed.

(** The Risk column of the consequences pass holds the stored scores. *)
Lemma risk_column_values hazard B s :
  valuesOfColumn 9 (consequencesPass hazard B s)
  = map (fun cons => orEmpty (riskScore (consRisk cons))) (consequences hazard).
Proof.
  rewrite consequencesPass_policy, sideTrace_extra_values by lia.
  induction (consequences hazard) as [|cons t IH]; [done|].
  simpl. by rewrite IH.
Qed.

Lemma colorCallback_step st hazard B s cons (t : list (option Consequence)) i off sheet :
  i + (len t + 1) = len (consequences hazard) ->
  colorCallback st hazard B s cons i (Ok (off, sheet))
  = Ok (off + match t with
              | [] => B - off
              | _ => Z.max (consMeasureCount cons) 1
              end,
        sheet ++
        (if truthy (Some (evaluatorColor st cons)) && truthy (riskScore (consRisk cons))
         then map (fun r => RiskFill r 9 (cssHexToARGB (evaluatorColor st cons)) "FFFFFFFF")
                  (seqZ (s + off)
                        match t with
                        | [] => B - off
                        | _ => Z.max (consMeasureCount cons) 1
                        end)
         else [])).
Proof.
  intros Hi. unfold colorCallback.
  change (Ok (off, sheet) ≫= ?k) with (k (off, sheet)). cbv beta iota.
  rewrite (last_index_test i t (consequences hazard) Hi).
  rewrite getRiskLevelColor_completes.
  change (Ok ?x ≫= ?k) with (k x). cbv beta.
  fold (evaluatorColor st cons).
  destruct (truthy (Some (evaluatorColor st cons)) && truthy (riskScore (consRisk cons)));
    destruct t; by rewrite ?app_nil_r.
Qed.

Lemma color_forEach st hazard B s : forall l i off sheet,
  i + len l = len (consequences hazard) ->
  exists off',
    forEachFrom (colorCallback st hazard B s) i l (Ok (off, sheet))
    = Ok (off', sheet ++ colorTrace st B s off l).
Proof.
  induction l as [|cons t IH]; intros i off sheet Hi.
  - simpl. rewrite app_nil_r. eauto.
  - rewrite len_cons in Hi.
    change (forEachFrom ?f i (cons :: t) ?x) with (forEachFrom f (i + 1) t (f cons i x)).
    rewrite (colorCallback_step st hazard B s cons t i off sheet Hi).
    match goal with
    | |- context [forEachFrom _ _ _ (Ok (?o, ?sh))] =>
        destruct (IH (i + 1) o sh ltac:(lia)) as [off' ->]
    end.
    exists off'. by rewrite <- app_assoc.
Qed.

Lemma riskColorPass_trace st hazard B s :
  riskColorPass st hazard B s = Ok (colorTrace st B s 0 (consequences hazard)).
Proof.
  unfold riskColorPass, forEach.
  destruct (color_forEach st hazard B s (consequences hazard) 0 0 [] ltac:(lia)) as [off' ->].
  done.
Qed.

Lemma riskFills_app t1 t2 : riskFills (t1 ++ t2) = riskFills t1 ++ riskFills t2.
Proof. unfold riskFills. apply omap_app. Qed.

Lemma riskFills_fill (rows : list Z) col argb font :
  riskFills (map (fun r => RiskFill r col argb font) rows) = map (fun r => (r, argb)) rows.
Proof. induction rows as [|r t IH]; simpl; [done|]. by rewrite <- IH. Qed.

Lemma truthy_orEmpty v : truthy v = truthy (Some (orEmpty v)).
Proof. by destruct v. Qed.

Lemma colorTrace_fills st B s (l : list (option Consequence)) : forall off,
  Forall (fun cons => orEmpty (riskScore (consRisk cons)) = evaluatorLabel st cons) l ->
  riskFills (colorTrace st B s off l)
  = flat_map (fun cc => evaluatorFills st (fst cc) (snd cc))
             (zip l (map (shiftRows s) (allocate B off (map consMeasureCount l)))).
Proof.
  induction l as [|cons t IH]; intros off Hfresh; [done|].
  apply Forall_cons in Hfresh as [Hcons Ht].
  simpl colorTrace. rewrite riskFills_app, (IH _ Ht).
  simpl. unfold evaluatorFills at 2. simpl.
  rewrite (truthy_orEmpty (riskScore (consRisk cons))), Hcons.
  f_equal.
  - unfold truthy.
    destruct (negb (String.eqb (evaluatorColor st cons) "")
              && negb (String.eqb (evaluatorLabel st cons) "")); [|done].
    rewrite riskFills_fill. by destruct t.
  - by destruct t.
Qed.

Lemma export_shows_evaluator st hazard startRow :
  ScoresUpToDate st hazard -> ExportShowsEvaluator st hazard startRow.
Proof.
  intros Hfresh. unfold ExportShowsEvaluator. split.
  - rewrite risk_column_values. apply Forall_fmap_ext_1.
    eapply Forall_impl; [exact Hfresh|]. done.
  - eexists. split; [apply riskColorPass_trace|].
    rewrite cons_cells. by apply colorTrace_fills.
Qed.

(** C8, as stated, fails. A consequence has severity '3'; the user picks
    likelihood 'D'. When the handler returns, the evaluator gives Medium
    (#ffc107) for the consequence but its stored riskScore is still empty,
    and that is the document the handler has saved. Exported as it stands,
    the hazard gets an empty Risk cell without colour, while the Risk
    Summary worksheet, which asks the evaluator, shows Medium. *)
Lemma stale_score_after_level_change :
  exists hazard,
    hazards (fst afterLikelihoodChange) = [hazard] /\
    consequences hazard = [Some staleConsequence] /\
    riskScore (consRisk (Some staleConsequence)) = Some "" /\
    computeRiskScore (fst afterLikelihoodChange) (Some "3") (Some "D") = Ok "Medium" /\
    getRiskLevelColor (fst afterLikelihoodChange) (Some "3") (Some "D") = Ok "#ffc107" /\
    item (snd afterLikelihoodChange)
    = Some (JSON_stringify (savedDocument (fst afterLikelihoodChange))) /\
    summaryRiskRanking (fst afterLikelihoodChange) (consRisk (Some staleConsequence))
    = Ok ("Medium", Some "FFFFC107") /\
    exists calls next,
      exportHazard (fst afterLikelihoodChange) hazard 2 = Ok (calls, next) /\
      valuesOfColumn 9 calls = [""] /\
      riskFills calls = [].
Proof.
  eexists. split_and!; try reflexivity.
  eexists _, _. split; [vm_compute; reflexivity|]. split; reflexivity.
Qed.

(** C8, amended. A consequence's riskScore is recomputed by the Risk Matrix
    Evaluator and stored each time its risk field is rendered, so that
    after a render the stored riskScore of every consequence equals the
    evaluator's result for its (severityLevel, likelihoodLevel). Whenever
    the stored scores are up to date in that sense, as they are after a
    render, the value written to the export's Risk column is the
    evaluator's current label, and the export colours the Risk cells of a
    consequence, over the consequence's rows and with the evaluator's
    current colour, exactly when the evaluator resolves a colour and a
    non-empty label. *)
Theorem rendered_scores_reach_export (st : State) (hazard : Hazard) (startRow : Z) :
  (exists hazard' views,
     renderRiskSegments st hazard = Ok (hazard', views) /\
     ScoresUpToDate st hazard' /\
     ExportShowsEvaluator st hazard' startRow) /\
  (ScoresUpToDate st hazard -> ExportShowsEvaluator st hazard startRow).
Proof.
  split.
  - destruct (renderRiskSegments_refreshes st hazard)
      as (hazard' & views & Hrender & Hfresh & _ & _).
    exists hazard', views. split_and!; [done|done|].
    by apply export_shows_evaluator.
  - apply export_shows_evaluator.
Qed.

(** * More properties of the code *)

(** ** cssHexToARGB *)

Lemma length_append (a b : string) :
  String.length (a +:+ b) = (String.length a + String.length b)%nat.
Proof. induction a as [|c a IH]; simpl; [done|]. by rewrite IH. Qed.

Lemma length_toUpperCase s : String.length (toUpperCase s) = String.length s.
Proof. induction s as [|c s IH]; simpl; [done|]. by rewrite IH. Qed.

Lemma length_doubleChars s : String.length (doubleChars s) = (2 * String.length s)%nat.
Proof. induction s as [|c s IH]; simpl; [done|]. rewrite IH. lia. Qed.

Lemma toUpperChar_idempotent c : toUpperChar (toUpperChar c) = toUpperChar c.
Proof. by destruct c as [[] [] [] [] [] [] [] []]. Qed.

Lemma toUpperChar_hash c : Ascii.eqb (toUpperChar c) "#" = Ascii.eqb c "#".
Proof. by destruct c as [[] [] [] [] [] [] [] []]. Qed.

Lemma toUpperCase_idempotent s : toUpperCase (toUpperCase s) = toUpperCase s.
Proof.
  induction s as [|c s IH]; simpl; [done|].
  by rewrite toUpperChar_idempotent, IH.
Qed.

Lemma toUpperCase_append a b : toUpperCase (a +:+ b) = toUpperCase a +:+ toUpperCase b.
Proof. induction a as [|c a IH]; simpl; [done|]. by rewrite IH. Qed.

Lemma removeFirstHash_toUpperCase s :
  removeFirstHash (toUpperCase s) = toUpperCase (removeFirstHash s).
Proof.
  induction s as [|c s IH]; simpl; [done|].
  rewrite toUpperChar_hash. destruct (Ascii.eqb c "#"); [done|].
  simpl. by rewrite IH.
Qed.

Lemma doubleChars_toUpperCase s :
  doubleChars (toUpperCase s) = toUpperCase (doubleChars s).
Proof. induction s as [|c s IH]; simpl; [done|]. by rewrite IH. Qed.

Lemma toUpperChar_ascii c :
  (nat_of_ascii c <? 128)%nat = true -> (nat_of_ascii (toUpperChar c) <? 128)%nat = true.
Proof. by destruct c as [[] [] [] [] [] [] [] []]. Qed.

Lemma isAscii_toUpperCase s : isAscii s = true -> isAscii (toUpperCase s) = true.
Proof.
  induction s as [|c s IH]; simpl; [done|].
  intros [Hc Hs]%andb_true_iff. by rewrite toUpperChar_ascii, IH.
Qed.

Lemma isAscii_doubleChars s : isAscii s = true -> isAscii (doubleChars s) = true.
Proof.
  induction s as [|c s IH]; simpl; [done|].
  intros [Hc Hs]%andb_true_iff. by rewrite Hc, IH.
Qed.

Lemma isAscii_removeFirstHash s : isAscii s = true -> isAscii (removeFirstHash s) = true.
Proof.
  induction s as [|c s IH]; simpl; [done|].
  intros [Hc Hs]%andb_true_iff.
  destruct (Ascii.eqb c "#"); [done|]. simpl. by rewrite Hc, IH.
Qed.

(** X1. For an input of ASCII characters, [cssHexToARGB] returns an opaque
    ARGB value of eight ASCII characters, "FF" followed by six, in upper
    case; and the result does not depend on the case of the letters of the
    input. *)
Theorem cssHexToARGB_well_formed (hex : string) :
  isAscii hex = true ->
  (exists rgb, cssHexToARGB hex = "FF" +:+ rgb /\ String.length rgb = 6%nat /\
               isAscii rgb = true) /\
  toUpperCase (cssHexToARGB hex) = cssHexToARGB hex /\
  cssHexToARGB (toUpperCase hex) = cssHexToARGB hex.
Proof.
  intros Hascii%isAscii_removeFirstHash.
  unfold cssHexToARGB. split_and!.
  - destruct (String.length (removeFirstHash hex) =? 6)%nat eqn:E6.
    + apply Nat.eqb_eq in E6. eexists. split; [done|].
      rewrite length_toUpperCase. split; [done|]. by apply isAscii_toUpperCase.
    + destruct (String.length (removeFirstHash hex) =? 3)%nat eqn:E3.
      * apply Nat.eqb_eq in E3. eexists. split; [done|].
        rewrite length_toUpperCase, length_doubleChars. split; [lia|].
        by apply isAscii_toUpperCase, isAscii_doubleChars.
      * by exists "000000".
  - destruct (String.length (removeFirstHash hex) =? 6)%nat;
      [|destruct (String.length (removeFirstHash hex) =? 3)%nat]; [| |done].
    + rewrite toUpperCase_append, toUpperCase_idempotent. done.
    + rewrite toUpperCase_append, toUpperCase_idempotent. done.
  - rewrite removeFirstHash_toUpperCase, length_toUpperCase.
    by rewrite doubleChars_toUpperCase, !toUpperCase_idempotent.
Qed.

Lemma cssHexToARGB_well_formed_witness :
  isAscii "#1a2b3c" = true /\
  (exists rgb, cssHexToARGB "#1a2b3c" = "FF" +:+ rgb /\ String.length rgb = 6%nat /\
               isAscii rgb = true) /\
  cssHexToARGB "#1A2B3C" = cssHexToARGB "#1a2b3c".
Proof.
  split; [reflexivity|].
  split.
  - exact (proj1 (cssHexToARGB_well_formed "#1a2b3c" eq_refl)).
  - exact (proj2 (proj2 (cssHexToARGB_well_formed "#1a2b3c" eq_refl))).
Defined.


(** ** updateRiskMatrix: the cells it leaves and their order *)

Lemma writes_lookup_is_Some (l : list (string * option RiskLevel)) : forall m k,
  is_Some (fold_left writeCell l m !! k) <-> is_Some (m !! k) \/ k ∈ map fst l.
Proof.
  induction l as [|[k' v'] t IH]; intros m k; simpl.
  - rewrite elem_of_nil. tauto.
  - rewrite IH. unfold writeCell. simpl. rewrite elem_of_cons.
    destruct (decide (k' = k)) as [->|Hne].
    + rewrite lookup_insert_eq. split; [tauto|]. intros _. left. by eexists.
    + rewrite lookup_insert_ne by done. split; [tauto|].
      intros [H|[H|H]]; [tauto|congruence|tauto].
Qed.

Lemma regenerated_cell_is_Some (rm : RiskMatrix) (key : string) :
  is_Some (matrix (updateRiskMatrix rm) !! key) <-> key ∈ cellKeys rm.
Proof.
  rewrite updateRiskMatrix_writes, writes_lookup_is_Some, assignments_keys.
  rewrite lookup_empty. split; [|by right].
  intros [[x Hx]|H]; [done|done].
Qed.

(** X3. After a regeneration the matrix has a cell for a key exactly when
    the key is that of a (likelihood, severity) pair of the current lists:
    whatever cells the mapping held before are gone, and the result does
    not depend on them. *)
Theorem regenerated_matrix_keys (rm : RiskMatrix) (old : gmap string (option RiskLevel))
    (key : string) :
  (is_Some (matrix (updateRiskMatrix rm) !! key) <-> key ∈ cellKeys rm) /\
  updateRiskMatrix (setMatrix old rm) = updateRiskMatrix rm.
Proof.
  split; [apply regenerated_cell_is_Some|reflexivity].
Qed.

Lemma assignCell_ordinal rm lik li sev si m :
  assignCell rm lik li sev si m
  = <[cellKey (lik_id lik) (sev_id sev) :=
        riskLevels rm !! ruleOrdinal (li + si)
                           ((len (likelihood rm) - 1) + (len (severity rm) - 1))]> m.
Proof.
  unfold assignCell, ruleOrdinal. simpl. by repeat case_match.
Qed.

Lemma ruleOrdinal_exact (riskSum maxSum : Z) :
  1 <= maxSum <= 200 -> 0 <= riskSum <= maxSum ->
  ruleOrdinal riskSum maxSum
  = if 7 * maxSum <=? 10 * riskSum then 2%nat
    else if 2 * maxSum <=? 5 * riskSum then 1%nat else 0%nat.
Proof.
  intros Hm Hr. unfold ruleOrdinal.
  destruct (thresholds_exact riskSum maxSum Hm Hr) as [-> ->]. done.
Qed.

(** X4. "Higher likelihood + higher severity = higher risk": for lists of
    at most a hundred levels each (and more than one cell), the cell of
    (li, si) gets the risk level at the ordinal the two comparisons give for
    li + si, and that ordinal never decreases when li + si grows; the first
    cell gets ordinal 0 and the last cell ordinal 2. *)
Theorem default_rule_is_monotone (rm : RiskMatrix) (lik lik' : LikelihoodLevel)
    (sev sev' : SeverityLevel) (li si li' si' : Z)
    (m : gmap string (option RiskLevel)) :
  let maxSum := (len (likelihood rm) - 1) + (len (severity rm) - 1) in
  1 <= maxSum <= 200 ->
  0 <= li -> 0 <= si -> li + si <= li' + si' -> li' + si' <= maxSum ->
  assignCell rm lik li sev si m
  = <[cellKey (lik_id lik) (sev_id sev) := riskLevels rm !! ruleOrdinal (li + si) maxSum]> m /\
  assignCell rm lik' li' sev' si' m
  = <[cellKey (lik_id lik') (sev_id sev')
      := riskLevels rm !! ruleOrdinal (li' + si') maxSum]> m /\
  (ruleOrdinal (li + si) maxSum <= ruleOrdinal (li' + si') maxSum)%nat /\
  ruleOrdinal 0 maxSum = 0%nat /\
  ruleOrdinal maxSum maxSum = 2%nat.
Proof.
  intros maxSum Hm Hli Hsi Hle Hmax.
  split_and!; [apply assignCell_ordinal|apply assignCell_ordinal| | |].
  - rewrite !ruleOrdinal_exact by lia.
    repeat case_match; try lia;
      repeat match goal with
             | H : (_ <=? _) = true |- _ => apply Z.leb_le in H
             | H : (_ <=? _) = false |- _ => apply Z.leb_gt in H
             end; lia.
  - rewrite ruleOrdinal_exact by lia.
    repeat case_match; try done;
      repeat match goal with
             | H : (_ <=? _) = true |- _ => apply Z.leb_le in H
             end; lia.
  - rewrite ruleOrdinal_exact by lia.
    repeat case_match; try done;
      repeat match goal with
             | H : (_ <=? _) = false |- _ => apply Z.leb_gt in H
             end; lia.
Qed.

Lemma default_rule_is_monotone_witness :
  assignCell initialRiskMatrix (mkLikelihood "B" "B" "Unlikely") 1
             (mkSeverity "2" "2" "Minor effect" "personnel") 1 ∅
  = <[cellKey "B" "2" := riskLevels initialRiskMatrix !! ruleOrdinal (1 + 1) 8]> ∅ /\
  assignCell initialRiskMatrix (mkLikelihood "D" "D" "Likely") 3
             (mkSeverity "4" "4" "Major effect" "personnel") 3 ∅
  = <[cellKey "D" "4" := riskLevels initialRiskMatrix !! ruleOrdinal (3 + 3) 8]> ∅ /\
  (ruleOrdinal (1 + 1) 8 <= ruleOrdinal (3 + 3) 8)%nat /\
  ruleOrdinal 0 8 = 0%nat /\
  ruleOrdinal 8 8 = 2%nat.
Proof.
  apply (default_rule_is_monotone initialRiskMatrix
           (mkLikelihood "B" "B" "Unlikely") (mkLikelihood "D" "D" "Likely")
           (mkSeverity "2" "2" "Minor effect" "personnel")
           (mkSeverity "4" "4" "Major effect" "personnel") 1 1 3 3 ∅);
    vm_compute; intuition discriminate.
Defined.

(** ** Risk configuration: when the export throws, what the import keeps *)

Lemma export_entries_throw (l : list (string * option RiskLevel)) :
  Exists (fun kv => snd kv = None) l ->
  mapJs (fun '(key, riskLevel) => id ← prop rl_id riskLevel; Ok (key, id)) l
  = Throw TypeError.
Proof.
  induction l as [|[k v] t IH]; intros Hex.
  - by apply Exists_nil in Hex.
  - simpl. destruct v as [r|]; [|done]. simpl.
    apply Exists_cons in Hex as [Hex|Hex]; [done|].
    by rewrite (IH Hex).
Qed.

(** X5. The risk-matrix export throws a TypeError exactly when some cell of
    the matrix holds [undefined]; otherwise it produces a document with one
    id per cell. *)
Theorem exportRiskMatrix_throws_iff (st : State) :
  (exportRiskMatrix st = Throw TypeError <->
   exists key, matrix (riskMatrix st) !! key = Some None) /\
  ((forall key, matrix (riskMatrix st) !! key <> Some None) ->
   exists config,
     exportRiskMatrix st = Ok config /\
     cfg_matrix config = Some (cellId <$> matrix (riskMatrix st))).
Proof.
  assert ((forall key, matrix (riskMatrix st) !! key <> Some None) ->
          exists config,
            exportRiskMatrix st = Ok config /\
            cfg_matrix config = Some (cellId <$> matrix (riskMatrix st))) as Hok.
  { intros Hdef. destruct (export_matrix_ids st) as (config & He & _ & Hm).
    - intros key [r|] Hv; [done|]. by destruct (Hdef key).
    - by exists config. }
  split; [|exact Hok]. split.
  - intros Hthrow.
    destruct (decide (map_Exists (fun _ v => v = None) (matrix (riskMatrix st))))
      as [(key & v & Hk & ->)|Hnone]; [by exists key|].
    destruct Hok as (config & He & _); [|congruence].
    intros key Hk. apply Hnone. by exists key, None.
  - intros [key Hk]. unfold exportRiskMatrix.
    rewrite export_entries_throw; [done|].
    apply Exists_exists. exists (key, None). split; [|done].
    by apply elem_of_map_to_list.
Qed.

(** X6. A configuration imported with an explicit [matrix] can always be
    exported again: every cell the import keeps holds a level (never
    [undefined]), that level is one of the imported risk levels, and its
    key is a key of the imported matrix. *)
Theorem imported_matrix_is_exportable (data : RiskConfig) (st : State)
    (m : gmap string string) :
  cfg_matrix data = Some m ->
  let st' := loadRiskMatrixFromJSON data st in
  (forall key v, matrix (riskMatrix st') !! key = Some v ->
     exists level, v = Some level /\ level ∈ riskLevels (riskMatrix st') /\
                   is_Some (m !! key)) /\
  exists config, exportRiskMatrix st' = Ok config.
Proof.
  intros Hm st'.
  assert (forall key v, matrix (riskMatrix st') !! key = Some v ->
            exists level, v = Some level /\ level ∈ riskLevels (riskMatrix st') /\
                          is_Some (m !! key)) as Hcells.
  { intros key v. subst st'. unfold loadRiskMatrixFromJSON. rewrite Hm. simpl.
    rewrite import_lookup.
    destruct (String.eqb key prototypeKey); [done|].
    destruct (m !! key) as [riskLevelId|]; simpl; [|done].
    unfold findRiskLevel.
    destruct (find _ _) as [found|] eqn:E; simpl; [|done].
    intros [= <-]. exists found. split_and!; [done| |by eexists].
    apply find_some in E as [Hin _]. by apply list_elem_of_In. }
  split; [exact Hcells|].
  destruct (export_matrix_ids st') as (config & He & _); [|by exists config].
  intros key v Hv. destruct (Hcells key v Hv) as (level & -> & _). done.
Qed.

Lemma imported_matrix_is_exportable_witness :
  exists config,
    exportRiskMatrix
      (loadRiskMatrixFromJSON
         (mkRiskConfig None None None None None None (Some {[ "A-1" := "low" ]}))
         initialState)
    = Ok config.
Proof.
  refine (proj2 (imported_matrix_is_exportable
                   (mkRiskConfig None None None None None None (Some {[ "A-1" := "low" ]}))
                   initialState {[ "A-1" := "low" ]} _)).
  reflexivity.
Defined.

(** X7. Importing a risk configuration twice gives the same state as
    importing it once, and the import changes the risk configuration only:
    the hazards, the autosave and compact flags and the list of severity
    levels stay as they were. *)
Theorem loadRiskMatrixFromJSON_idempotent (data : RiskConfig) (st : State) :
  loadRiskMatrixFromJSON data (loadRiskMatrixFromJSON data st)
  = loadRiskMatrixFromJSON data st /\
  hazards (loadRiskMatrixFromJSON data st) = hazards st /\
  autosave (loadRiskMatrixFromJSON data st) = autosave st /\
  compactMode (loadRiskMatrixFromJSON data st) = compactMode st /\
  severity (riskMatrix (loadRiskMatrixFromJSON data st)) = severity (riskMatrix st).
Proof.
  unfold loadRiskMatrixFromJSON.
  destruct (likelihoodDescriptions data), (cfg_severityDescriptions data),
           (riskLevelDescriptions data), (cfg_matrix data); by split_and!.
Qed.

(** ** Hazard document: JSON export and import, initialization *)


Lemma renderRiskField_result st c :
  exists c' view,
    renderRiskField st c = Ok (c', view) /\
    RenderedConsequence st
      (Some c)
      (Some (mkConsequence (q_id c') (q_text c')
                           (Some (match mitigationMeasures c' with
                                  | Some ms => ms
                                  | None => []
                                  end))
                           (risk c'))) /\
    mitigationMeasures c' = mitigationMeasures c.
Proof.
  unfold renderRiskField, evaluatorLabel.
  rewrite computeRiskScore_completes. simpl.
  rewrite getRiskLevelColor_completes. simpl.
  eexists _, _. split; [reflexivity|]. simpl.
  split_and!; try done.
  unfold evaluatorLabel, consRisk.
  destruct (risk c) as [r|]; simpl; [done|].
  unfold computeRiskScore. done.
Qed.

Lemma stored_causes_rendered (l : list (option Cause)) :
  Forall2 RenderedCause l
    (map (fun cause : option Cause =>
            match cause with
            | Some c => Some (mkCause (c_id c) (c_text c)
                                      (Some (orNil (preventionMeasures c))))
            | None => None
            end) l).
Proof.
  induction l as [|[c|] t IH]; simpl; constructor; try done.
Qed.

(** One row of the table: the rendering completes, and leaves the stored
    hazard with its measure lists and risk records in place and its scores
    recomputed. *)
Lemma renderRow_result st hazard :
  exists hazard', renderRow st hazard = Ok hazard' /\ RenderedHazard st hazard hazard'.
Proof.
  unfold renderRow, renderRiskSegments, RenderedHazard.
  destruct hazard as [hid htitle hdesc hcauses hcons hrecs]. simpl.
  assert (exists rendered,
            mapJs (fun cons : option Consequence =>
                     match cons with
                     | Some c => '(c', view) ← renderRiskField st c; Ok (Some c', Some view)
                     | None => Ok (None, None)
                     end)
                  (map (fun cons : option Consequence =>
                          match cons with
                          | Some c => Some (mkConsequence (q_id c) (q_text c)
                                              (Some (orNil (mitigationMeasures c))) (risk c))
                          | None => None
                          end) hcons)
            = Ok rendered /\
            Forall2 (RenderedConsequence st) hcons (map fst rendered))
    as (rendered & -> & Hcons).
  { induction hcons as [|cons t (rendered & IH & Hall)]; simpl.
    - exists []. split; [done|]. constructor.
    - rewrite IH. destruct cons as [c|]; simpl.
      + destruct (renderRiskField_result st
                    (mkConsequence (q_id c) (q_text c)
                       (Some (orNil (mitigationMeasures c))) (risk c)))
          as (c' & view & -> & Hc & Hms).
        simpl. eexists. split; [reflexivity|]. simpl. constructor; [|done].
        simpl in *. destruct Hc as (Hid & Htext & _ & Hrisk).
        rewrite Hms. by split_and!.
      + eexists. split; [reflexivity|]. simpl. by constructor. }
  simpl. eexists. split; [reflexivity|]. simpl.
  split_and!; try done. apply stored_causes_rendered.
Qed.

Lemma renderTable_rows st (l : list Hazard) :
  exists hs, mapJs (renderRow st) l = Ok hs /\ Forall2 (RenderedHazard st) l hs.
Proof.
  induction l as [|h t (hs & IH & Hall)]; simpl.
  - exists []. split; [done|]. constructor.
  - destruct (renderRow_result st h) as (h' & -> & Hh). simpl. rewrite IH. simpl.
    eexists. split; [reflexivity|]. by constructor.
Qed.

(** [renderTable] throws nothing and touches the hazards only. *)
Lemma renderTable_completes st :
  exists hs,
    renderTable st = Ok (setHazards hs st) /\ Forall2 (RenderedHazard st) (hazards st) hs.
Proof.
  unfold renderTable.
  destruct (renderTable_rows st (hazards st)) as (hs & -> & Hall).
  exists hs. by split.
Qed.

Lemma RenderedHazard_same_matrix st st' stored rendered :
  riskMatrix st' = riskMatrix st ->
  RenderedHazard st stored rendered -> RenderedHazard st' stored rendered.
Proof.
  intros Hrm (H1 & H2 & H3 & H4 & H5 & H6). split_and!; try done.
  eapply Forall2_impl; [exact H6|].
  intros [c|] [c'|]; simpl; try done.
  unfold evaluatorLabel, computeRiskScore. by rewrite Hrm.
Qed.

(** X9. Whatever the storage holds, [init] leaves a table with at least
    one hazard and a mapping regenerated by the default rule. A stored
    non-empty bare array becomes the hazard list as its first rendering
    leaves it: hazard by hazard the stored one, with an empty measure list
    and an empty risk record wherever one was missing, and with every
    stored score replaced by the label the evaluator gives for the stored
    levels. Anything else (also a stored object) gives the single starter
    hazard. *)
Theorem init_gives_a_table (generateId : nat -> string) (ls : LocalStorage) (st : State) :
  hazards (init generateId ls st) <> [] /\
  riskMatrix (init generateId ls st) = updateRiskMatrix (riskMatrix st) /\
  (forall h hs,
     item ls = Some (JsonText (JArray (h :: hs))) ->
     Forall2 (RenderedHazard (init generateId ls st)) (h :: hs)
             (hazards (init generateId ls st))) /\
  ((forall h hs, item ls <> Some (JsonText (JArray (h :: hs)))) ->
   exists starter,
     hazards (init generateId ls st) = [starter] /\
     title starter = "New hazard" /\
     length (causes starter) = 1%nat /\
     length (consequences starter) = 1%nat /\
     length (recommendations starter) = 1%nat).
Proof.
  assert (forall h hs,
            let st0 := setRiskMatrix (updateRiskMatrix (riskMatrix st))
                                     (setHazards (h :: hs) st) in
            exists hs',
              match renderTable st0 with Ok st1 => st1 | Throw _ => st0 end
              = setHazards hs' st0 /\
              Forall2 (RenderedHazard (setHazards hs' st0)) (h :: hs) hs' /\ hs' <> [])
    as Hstored.
  { intros h hs st0.
    destruct (renderTable_completes st0) as (hs' & -> & Hall).
    exists hs'. split; [done|]. split.
    - eapply Forall2_impl; [exact Hall|].
      intros a b. by apply RenderedHazard_same_matrix.
    - intros ->. subst st0. simpl in Hall. inversion Hall. }
  unfold init, persist.load, getItem.
  destruct ls as [[[ | [[|h hs] | d | ] | ]|] full]; simpl.
  all: try (split_and!; try done;
            [intros H; eexists; by split_and!]).
  destruct (Hstored h hs) as (hs' & Heq & Hall & Hne).
  simpl in Heq. rewrite Heq. simpl. split_and!; try done.
  - intros h0 hs0 [= <- <-]. done.
  - intros H. by destruct (H h hs).
Qed.

(** [init] on the stored legacy hazard, evaluated: the lists and the risk
    record are created and the stale score "High" becomes "Medium". *)
Example init_renders_legacy_hazard (generateId : nat -> string) :
  hazards (init generateId legacyStorage initialState)
  = [ mkHazard "h" "Hazard" ""
        [ Some (mkCause "a" "A" (Some [])) ]
        [ Some (mkConsequence "x" "X" (Some [])
                  (Some (mkRisk (Some "") (Some "") (Some "") (Some ""))));
          Some (mkConsequence "y" "Y" (Some [])
                  (Some (mkRisk (Some "personnel") (Some "3") (Some "D")
                                (Some "Medium")))) ]
        [] ].
Proof. vm_compute. reflexivity. Qed.

Lemma init_gives_a_table_witness :
  item legacyStorage = Some (JsonText (JArray [legacyHazard])) /\
  Forall2 (RenderedHazard (init (fun _ => "id") legacyStorage initialState))
          [legacyHazard]
          (hazards (init (fun _ => "id") legacyStorage initialState)).
Proof.
  split; [reflexivity|].
  exact (proj1 (proj2 (proj2 (init_gives_a_table (fun _ => "id") legacyStorage
                                initialState)))
               legacyHazard [] eq_refl).
Defined.

(** ** Severity descriptions and the matrix table *)

Lemma categoryKey_inj (c c' : Category) : categoryKey c = categoryKey c' -> c = c'.
Proof. by destruct c, c'. Qed.

Lemma categoryKey_not_inherited (c : Category) :
  categoryKey c <> prototypeKey /\ categoryKey c ∉ builtinMembers.
Proof.
  split; [by destruct c|].
  unfold builtinMembers. rewrite !elem_of_cons, elem_of_nil. by destruct c; intuition.
Qed.

Lemma setSeverityDescription_own_row severityId category value rm env row :
  severityDescriptions rm !! severityId = Some row ->
  setSeverityDescription severityId category value rm env
  = (setSeverityDescriptions
       (<[severityId := <[categoryKey category := value]> row]> (severityDescriptions rm))
       rm,
     env).
Proof.
  intros Hrow. unfold setSeverityDescription.
  assert (lookupRow (severityDescriptions rm) env severityId = OwnRow row) as ->.
  { unfold lookupRow. by rewrite Hrow. }
  simpl.
  assert (lookupRow (severityDescriptions rm) env severityId = OwnRow row) as ->.
  { unfold lookupRow. by rewrite Hrow. }
  done.
Qed.

Lemma setSeverityDescription_new_row severityId category value rm env :
  lookupRow (severityDescriptions rm) env severityId = NoRow ->
  setSeverityDescription severityId category value rm env
  = (setSeverityDescriptions
       (<[severityId := <[categoryKey category := value]> ∅]>
          (<[severityId := ∅]> (severityDescriptions rm)))
       rm,
     env).
Proof.
  intros Hlook. unfold setSeverityDescription. rewrite Hlook. simpl.
  unfold lookupRow. by rewrite lookup_insert_eq.
Qed.

Lemma setSeverityDescription_prototype category value rm env :
  severityDescriptions rm !! prototypeKey = None ->
  setSeverityDescription prototypeKey category value rm env
  = (setSeverityDescriptions (severityDescriptions rm) rm,
     mkInherited (<[categoryKey category := value]> (prototypeProps env))
                 (memberProps env)).
Proof.
  intros Hrow. unfold setSeverityDescription.
  assert (lookupRow (severityDescriptions rm) env prototypeKey = ThePrototype) as ->.
  { unfold lookupRow. by rewrite Hrow. }
  simpl.
  assert (lookupRow (severityDescriptions rm) env prototypeKey = ThePrototype) as ->.
  { unfold lookupRow. by rewrite Hrow. }
  done.
Qed.

(** X10. Editing the description of one (severity level, category) pair
    never touches the levels, the risk levels or the mapping. When the
    severity id has a row of its own, or is no name that a plain object
    inherits, and nothing was written on [Object.prototype] before, the
    edit stays in the risk matrix: the table then shows the typed text for
    that pair and what it showed before for every other pair. When the
    severity id is ["__proto__"] and has no row of its own, the text lands
    on [Object.prototype]: the descriptions are unchanged, and the table
    shows the typed text for that category in the ["__proto__"] row and in
    every row that has no text of its own for the category. *)
Theorem setSeverityDescription_changes_one (rm : RiskMatrix) (env : Inherited)
    (severityId : string) (category : Category) (value : string) :
  let rm' := fst (setSeverityDescription severityId category value rm env) in
  let env' := snd (setSeverityDescription severityId category value rm env) in
  (likelihood rm' = likelihood rm /\ severity rm' = severity rm /\
   riskLevels rm' = riskLevels rm /\ matrix rm' = matrix rm) /\
  (is_Some (severityDescriptions rm !! severityId) \/
   (severityId <> "__proto__" /\ severityId ∉ builtinMembers) ->
   prototypeProps env = ∅ ->
   env' = env /\
   shownSeverityDescription rm' env' severityId category = value /\
   forall severityId' category',
     severityId' <> severityId \/ category' <> category ->
     shownSeverityDescription rm' env' severityId' category'
     = shownSeverityDescription rm env severityId' category') /\
  (severityId = "__proto__" ->
   severityDescriptions rm !! severityId = None ->
   severityDescriptions rm' = severityDescriptions rm /\
   prototypeProps env' !! categoryKey category = Some value /\
   shownSeverityDescription rm' env' "__proto__" category = value /\
   forall severityId' row,
     severityDescriptions rm !! severityId' = Some row ->
     row !! categoryKey category = None ->
     shownSeverityDescription rm' env' severityId' category = value).
Proof.
  intros rm' env'. subst rm' env'.
  split; [|split].
  - unfold setSeverityDescription. by repeat case_match.
  - intros Hid Hpristine.
    destruct (severityDescriptions rm !! severityId) as [row|] eqn:Hrow.
    + (* the severity id has a row *)
      rewrite (setSeverityDescription_own_row _ _ _ _ _ row) by done.
      unfold shownSeverityDescription, lookupRow. simpl.
      split; [done|]. split.
      * rewrite lookup_insert_eq. simpl. by rewrite lookup_insert_eq.
      * intros severityId' category' Hne.
        destruct (decide (severityId' = severityId)) as [->|Hs].
        -- destruct Hne as [Hne|Hne]; [done|].
           rewrite lookup_insert_eq, Hrow. simpl.
           rewrite lookup_insert_ne; [done|].
           intros Heq. by apply categoryKey_inj in Heq.
        -- by rewrite lookup_insert_ne.
    + (* no row yet: an ordinary id gets one *)
      destruct Hid as [[? [=]]|[Hproto Hbuiltin]].
      assert (lookupRow (severityDescriptions rm) env severityId = NoRow) as Hlook.
      { unfold lookupRow. rewrite Hrow.
        destruct (String.eqb_spec severityId prototypeKey) as [->|_]; [done|].
        rewrite bool_decide_eq_false_2 by done.
        by rewrite Hpristine, lookup_empty. }
      rewrite setSeverityDescription_new_row by done.
      unfold shownSeverityDescription, lookupRow. simpl.
      split; [done|]. split.
      * rewrite lookup_insert_eq. simpl. by rewrite lookup_insert_eq.
      * intros severityId' category' Hne.
        destruct (decide (severityId' = severityId)) as [->|Hs].
        -- destruct Hne as [Hne|Hne]; [done|].
           rewrite lookup_insert_eq, Hrow. simpl.
           rewrite lookup_insert_ne.
           2:{ intros Heq. by apply categoryKey_inj in Heq. }
           rewrite lookup_empty, Hpristine, lookup_empty.
           destruct (String.eqb_spec severityId prototypeKey) as [->|_]; [done|].
           by rewrite bool_decide_eq_false_2.
        -- rewrite !lookup_insert_ne by done. done.
  - intros -> Hrow.
    rewrite setSeverityDescription_prototype by done.
    unfold shownSeverityDescription, lookupRow. simpl.
    split; [done|]. split; [by rewrite lookup_insert_eq|]. split.
    + rewrite Hrow. simpl. by rewrite lookup_insert_eq.
    + intros severityId' row Hrow' Hnone. rewrite Hrow'. simpl.
      by rewrite Hnone, lookup_insert_eq.
Qed.

Lemma setSeverityDescription_changes_one_witness :
  shownSeverityDescription
    (fst (setSeverityDescription "1" asset "x" importedSeverityMatrix pristine))
    (snd (setSeverityDescription "1" asset "x" importedSeverityMatrix pristine))
    "1" asset = "x" /\
  shownSeverityDescription
    (fst (setSeverityDescription "__proto__" asset "x" importedSeverityMatrix pristine))
    (snd (setSeverityDescription "__proto__" asset "x" importedSeverityMatrix pristine))
    "1" asset = "x".
Proof.
  split.
  - refine (proj1 (proj2 (proj1 (proj2 (setSeverityDescription_changes_one
                                           importedSeverityMatrix pristine "1" asset "x"))
                                 _ _))).
    + left. exists (<["personnel" := "Minor injury"]> ∅). reflexivity.
    + reflexivity.
  - refine (proj2 (proj2 (proj2 (proj2 (proj2 (setSeverityDescription_changes_one
                                                 importedSeverityMatrix pristine
                                                 "__proto__" asset "x"))
                                       eq_refl _)))
                  "1" (<["personnel" := "Minor injury"]> ∅) _ _).
    + reflexivity.
    + reflexivity.
    + reflexivity.
Defined.

(** The handler on a risk matrix with an imported severity list,
    evaluated: typing "x" in the asset cell of the level ["__proto__"]
    leaves the descriptions as they were, and "x" then shows up as the
    asset description of the level "1" as well, which had none. *)
Example setSeverityDescription_writes_on_prototype :
  let rm' := fst (setSeverityDescription "__proto__" asset "x"
                    importedSeverityMatrix pristine) in
  let env' := snd (setSeverityDescription "__proto__" asset "x"
                     importedSeverityMatrix pristine) in
  rm' = importedSeverityMatrix /\
  shownSeverityDescription importedSeverityMatrix pristine "1" asset = "" /\
  shownSeverityDescription rm' env' "1" asset = "x" /\
  shownSeverityDescription rm' env' "1" personnel = "Minor injury".
Proof. vm_compute. done. Qed.



(** ** The HAZID worksheet as a whole *)

Lemma blockRows_pos hazard : 1 <= blockRows hazard.
Proof. unfold blockRows. lia. Qed.

Lemma exportHazard_trace st hazard row :
  exportHazard st hazard row = Ok (blockTrace st hazard row, row + blockRows hazard).
Proof.
  unfold exportHazard. rewrite riskColorPass_trace.
  rewrite causesPass_policy, consequencesPass_policy. reflexivity.
Qed.

Lemma totalBlockRows_cons h t : totalBlockRows (h :: t) = blockRows h + totalBlockRows t.
Proof. reflexivity. Qed.

Lemma totalBlockRows_nonneg hs : 0 <= totalBlockRows hs.
Proof.
  induction hs as [|h t IH]; [done|].
  rewrite totalBlockRows_cons. pose proof (blockRows_pos h). lia.
Qed.

Lemma export_forEach st : forall hs i sheet row,
  forEachFrom (fun hazard (_ : Z) (acc : JsResult (list SheetCall * Z)) =>
                 '(sheet, currentRow) ← acc;
                 '(calls, nextRow) ← exportHazard st hazard currentRow;
                 Ok (sheet ++ calls, nextRow))
              i hs (Ok (sheet, row))
  = Ok (sheet ++ blocksTrace st row hs, row + totalBlockRows hs).
Proof.
  induction hs as [|h t IH]; intros i sheet row.
  - simpl. rewrite app_nil_r. f_equal. f_equal. unfold totalBlockRows. simpl. lia.
  - simpl forEachFrom. rewrite exportHazard_trace. simpl mbind.
    cbv beta iota. rewrite IH. rewrite <- app_assoc, totalBlockRows_cons.
    simpl blocksTrace. f_equal. f_equal. lia.
Qed.

Lemma exportToExcel_trace st :
  exportToExcel st = Ok (AddRow headers :: blocksTrace st 2 (hazards st)).
Proof. unfold exportToExcel, forEach. rewrite export_forEach. reflexivity. Qed.

Lemma sideTrace_other_column colItem colMeasure col B s items : forall off,
  colItem <> col -> colMeasure <> col ->
  Forall (fun it => Forall (fun cv => fst cv <> col) (iv_extra it)) items ->
  cellsOfColumn col (sideTrace colItem colMeasure B s off items) = [].
Proof.
  intros off HI HM Hextra. revert off.
  induction Hextra as [|it t Hit _ IH]; intros off.
  - done.
  - simpl sideTrace. rewrite cellsOfColumn_cons_ne by done.
    rewrite !cellsOfColumn_app, measureTrace_other, extra_other, IH by done. done.
Qed.

Lemma consView_risk_columns col (l : list (option Consequence)) :
  col < 6 \/ 9 < col ->
  Forall (fun it => Forall (fun cv => fst cv <> col) (iv_extra it)) (map consView l).
Proof.
  intros Hcol. apply Forall_fmap, Forall_true. intros cons.
  simpl. repeat constructor; simpl; lia.
Qed.

Lemma cellsOfColumn_none col (sheet : list SheetCall) :
  Forall (fun call => match call with MergeAndSet _ _ _ _ => False | _ => True end) sheet ->
  cellsOfColumn col sheet = [].
Proof.
  induction 1 as [|call t Hcall _ IH]; [done|].
  unfold cellsOfColumn in *. simpl. destruct call; try done.
Qed.

Lemma colorTrace_no_merge st B s (l : list (option Consequence)) : forall off,
  Forall (fun call => match call with MergeAndSet _ _ _ _ => False | _ => True end)
         (colorTrace st B s off l).
Proof.
  induction l as [|c t IH]; intros off; [constructor|].
  simpl colorTrace. apply Forall_app. split; [|apply IH].
  destruct (_ && _); [|constructor].
  apply Forall_fmap, Forall_true. done.
Qed.

Lemma block_column col st hazard row :
  col = 1 \/ col = 10 ->
  cellsOfColumn col (blockTrace st hazard row) = [(row, blockRows hazard)].
Proof.
  intros Hcol. unfold blockTrace.
  rewrite !cellsOfColumn_app.
  rewrite (cellsOfColumn_none col (map _ _)) by (apply Forall_fmap, Forall_true; done).
  rewrite (sideTrace_other_column 2 3) by (try lia; apply causeView_extra_columns).
  rewrite (sideTrace_other_column 4 5) by (try lia; apply consView_risk_columns; lia).
  rewrite (cellsOfColumn_none col (flat_map _ _)).
  2:{ apply Forall_flat_map, Forall_true. intros r.
      apply Forall_fmap, Forall_true. done. }
  rewrite (cellsOfColumn_none col (colorTrace _ _ _ _ _)) by apply colorTrace_no_merge.
  destruct Hcol as [-> | ->]; reflexivity.
Qed.

Lemma blocks_column col st : forall hs row,
  col = 1 \/ col = 10 ->
  cellsOfColumn col (blocksTrace st row hs) = blockCells row hs.
Proof.
  induction hs as [|h t IH]; intros row Hcol; [done|].
  simpl blocksTrace. rewrite cellsOfColumn_app, block_column, IH by done. done.
Qed.

Lemma blockCells_spans hs : forall row, map snd (blockCells row hs) = map blockRows hs.
Proof. induction hs as [|h t IH]; intros row; simpl; [done|by rewrite IH]. Qed.

Lemma blockCells_lookup hs : forall row i h,
  hs !! i = Some h ->
  blockCells row hs !! i = Some (row + totalBlockRows (take i hs), blockRows h).
Proof.
  induction hs as [|h0 t IH]; intros row i h Hi; [done|].
  destruct i as [|i].
  - simpl in *. injection Hi as ->. f_equal. f_equal. unfold totalBlockRows. simpl. lia.
  - simpl in Hi. simpl. rewrite (IH _ _ _ Hi). rewrite totalBlockRows_cons.
    f_equal. f_equal. lia.
Qed.

Lemma length_blockCells hs : forall row, length (blockCells row hs) = length hs.
Proof. induction hs as [|h t IH]; intros row; simpl; [done|by rewrite IH]. Qed.

Lemma blockCells_lookup_inv hs row i cell :
  blockCells row hs !! i = Some cell ->
  exists h, hs !! i = Some h /\ cell = (row + totalBlockRows (take i hs), blockRows h).
Proof.
  intros Hcell.
  destruct (hs !! i) as [h|] eqn:Hh.
  - exists h. split; [done|]. rewrite (blockCells_lookup _ _ _ _ Hh) in Hcell. congruence.
  - apply lookup_ge_None in Hh. apply lookup_lt_Some in Hcell.
    rewrite length_blockCells in Hcell. lia.
Qed.

Lemma totalBlockRows_take_S hs i h :
  hs !! i = Some h ->
  totalBlockRows (take (S i) hs) = totalBlockRows (take i hs) + blockRows h.
Proof.
  intros Hh. rewrite (take_S_r _ _ _ Hh). unfold totalBlockRows.
  rewrite map_app. simpl. induction (map blockRows (take i hs)); simpl; lia.
Qed.

Lemma totalBlockRows_take_mono hs i j h :
  (i < j)%nat -> hs !! i = Some h ->
  totalBlockRows (take i hs) + blockRows h <= totalBlockRows (take j hs).
Proof.
  intros Hij Hh. rewrite <- (totalBlockRows_take_S _ _ _ Hh).
  replace j with (S i + (j - S i))%nat by lia.
  generalize (j - S i)%nat as d. intros d.
  rewrite <- (take_take_drop hs (S i) d).
  unfold totalBlockRows. rewrite map_app.
  assert (Happ : forall a b, sumZ (a ++ b) = sumZ a + sumZ b).
  { intros a b. induction a; simpl; lia. }
  rewrite Happ. pose proof (totalBlockRows_nonneg (take d (drop (S i) hs))).
  unfold totalBlockRows in *. lia.
Qed.

Lemma blockCells_tiles row hs :
  hs <> [] -> Tiles row (totalBlockRows hs) (length hs) (blockCells row hs).
Proof.
  intros Hne. unfold Tiles. split_and!.
  - apply length_blockCells.
  - by rewrite blockCells_spans.
  - destruct hs as [|h t]; [done|]. exists (blockRows h). simpl. done.
  - intros i a b Ha Hb.
    apply blockCells_lookup_inv in Ha as (ha & Hha & ->).
    apply blockCells_lookup_inv in Hb as (hb & Hhb & ->).
    simpl. rewrite (totalBlockRows_take_S _ _ _ Hha). lia.
  - intros i j a b Hij Ha Hb.
    apply blockCells_lookup_inv in Ha as (ha & Hha & ->).
    apply blockCells_lookup_inv in Hb as (hb & Hhb & ->).
    simpl. pose proof (blockRows_pos ha). pose proof (blockRows_pos hb).
    pose proof (totalBlockRows_take_mono hs i j ha Hij Hha). lia.
Qed.

Lemma measureTrace_in_rows first last col r rows ms : forall j,
  1 <= col <= 10 -> first <= r -> r + rows <= last -> 0 <= j -> j + len ms <= rows ->
  Forall (CallInRows first last) (measureTrace col r rows j ms).
Proof.
  induction ms as [|m t IH]; intros j Hcol Hr Hlast Hj Hfit; [constructor|].
  rewrite len_cons in Hfit. pose proof (len_nonneg t).
  simpl measureTrace. constructor.
  - simpl. destruct t; lia.
  - apply IH; lia.
Qed.

Lemma sideTrace_in_rows colItem colMeasure B s items :
  1 <= colItem <= 10 -> 1 <= colMeasure <= 10 ->
  Forall (fun it => Forall (fun cv => 1 <= fst cv <= 10) (iv_extra it)) items ->
  forall off,
  0 <= off -> off + sumNatural (map (fun it => len (iv_measures it)) items) <= B ->
  Forall (CallInRows s (s + B)) (sideTrace colItem colMeasure B s off items).
Proof.
  intros HI HM Hextra.
  induction Hextra as [|it t Hit _ IH]; intros off Hoff Hfit; [constructor|].
  simpl map in Hfit. rewrite sumNatural_cons in Hfit.
  pose proof (sumNatural_nonneg (map (fun it => len (iv_measures it)) t)) as Hrest.
  pose proof (len_nonneg (iv_measures it)) as Hlen.
  simpl sideTrace.
  set (rows := match t with [] => B - off | _ => Z.max (len (iv_measures it)) 1 end).
  assert (Hrows : Z.max (len (iv_measures it)) 1 <= rows /\ off + rows <= B).
  { subst rows. destruct t; lia. }
  assert (Htail : off + rows + sumNatural (map (fun it => len (iv_measures it)) t) <= B).
  { subst rows. destruct t; [|lia]. simpl. unfold sumNatural. simpl. lia. }
  clearbody rows.
  constructor; [simpl; lia|].
  apply Forall_app. split; [apply measureTrace_in_rows; lia|].
  apply Forall_app. split.
  - apply Forall_fmap. eapply Forall_impl; [exact Hit|].
    intros cv Hcv. simpl in *. lia.
  - apply IH; lia.
Qed.

Lemma colorTrace_in_rows st B s (l : list (option Consequence)) : forall off,
  0 <= off -> off + sumNatural (map consMeasureCount l) <= B ->
  Forall (CallInRows s (s + B)) (colorTrace st B s off l).
Proof.
  induction l as [|c t IH]; intros off Hoff Hfit; [constructor|].
  simpl map in Hfit. rewrite sumNatural_cons in Hfit.
  pose proof (sumNatural_nonneg (map consMeasureCount t)) as Hrest.
  simpl colorTrace.
  set (rows := match t with [] => B - off | _ => Z.max (consMeasureCount c) 1 end).
  assert (Hrows : 1 <= rows /\ off + rows <= B).
  { subst rows. destruct t; lia. }
  assert (Htail : off + rows + sumNatural (map consMeasureCount t) <= B).
  { subst rows. destruct t; [|lia]. simpl. unfold sumNatural. simpl. lia. }
  clearbody rows.
  apply Forall_app. split; [|apply IH; lia].
  destruct (_ && _); [|constructor].
  apply Forall_fmap, Forall_forall. intros r Hr.
  apply elem_of_seqZ in Hr. simpl. lia.
Qed.

Lemma consView_extra_in_sheet (l : list (option Consequence)) :
  Forall (fun it => Forall (fun cv => 1 <= fst cv <= 10) (iv_extra it)) (map consView l).
Proof.
  apply Forall_fmap, Forall_true. intros cons.
  simpl. repeat constructor; simpl; lia.
Qed.

Lemma causeView_extra_in_sheet (l : list (option Cause)) :
  Forall (fun it => Forall (fun cv => 1 <= fst cv <= 10) (iv_extra it)) (map causeView l).
Proof. apply Forall_fmap, Forall_true. intros cause. constructor. Qed.

Lemma block_in_rows st hazard row :
  Forall (CallInRows row (row + blockRows hazard)) (blockTrace st hazard row).
Proof.
  pose proof (blockRows_pos hazard) as Hpos.
  destruct (blockRows_fits hazard) as [Hcauses Hcons].
  unfold blockTrace. repeat (apply Forall_app; split).
  - apply Forall_fmap, Forall_true. done.
  - repeat constructor; simpl; lia.
  - apply sideTrace_in_rows; try lia; [apply causeView_extra_in_sheet|].
    rewrite causeView_counts. lia.
  - apply sideTrace_in_rows; try lia; [apply consView_extra_in_sheet|].
    rewrite consView_counts. lia.
  - repeat constructor; simpl; lia.
  - apply Forall_flat_map, Forall_forall. intros r Hr.
    apply Forall_fmap, Forall_forall. intros c Hc.
    apply elem_of_seqZ in Hr, Hc. simpl. lia.
  - apply colorTrace_in_rows; lia.
Qed.

Lemma CallInRows_widen first last first' last' call :
  first' <= first -> last <= last' -> CallInRows first last call -> CallInRows first' last' call.
Proof. intros Hf Hl. destruct call; simpl; lia. Qed.

Lemma blocks_in_rows st : forall hs row,
  Forall (CallInRows row (row + totalBlockRows hs)) (blocksTrace st row hs).
Proof.
  induction hs as [|h t IH]; intros row; [constructor|].
  simpl blocksTrace. rewrite totalBlockRows_cons.
  pose proof (blockRows_pos h). pose proof (totalBlockRows_nonneg t).
  apply Forall_app. split.
  - eapply Forall_impl; [apply block_in_rows|].
    intros call. apply CallInRows_widen; lia.
  - eapply Forall_impl; [apply IH|].
    intros call. apply CallInRows_widen; lia.
Qed.

Lemma addedRows_app t1 t2 : addedRows (t1 ++ t2) = addedRows t1 + addedRows t2.
Proof. unfold addedRows, len. rewrite List.filter_app, length_app. lia. Qed.

Lemma addedRows_none (sheet : list SheetCall) :
  Forall (fun call => isAddRow call = false) sheet -> addedRows sheet = 0.
Proof.
  induction 1 as [|call t Hcall _ IH]; [done|].
  unfold addedRows in *. simpl. by rewrite Hcall.
Qed.

Lemma measureTrace_adds_no_row col r rows ms : forall j,
  Forall (fun call => isAddRow call = false) (measureTrace col r rows j ms).
Proof. induction ms as [|m t IH]; intros j; simpl; constructor; [done|apply IH]. Qed.

Lemma sideTrace_adds_no_row colItem colMeasure B s items : forall off,
  Forall (fun call => isAddRow call = false) (sideTrace colItem colMeasure B s off items).
Proof.
  induction items as [|it t IH]; intros off; [constructor|].
  simpl sideTrace. constructor; [done|].
  apply Forall_app. split; [apply measureTrace_adds_no_row|].
  apply Forall_app. split; [|apply IH].
  apply Forall_fmap, Forall_true. done.
Qed.

Lemma colorTrace_adds_no_row st B s (l : list (option Consequence)) : forall off,
  Forall (fun call => isAddRow call = false) (colorTrace st B s off l).
Proof.
  induction l as [|c t IH]; intros off; [constructor|].
  simpl colorTrace. apply Forall_app. split; [|apply IH].
  destruct (_ && _); [|constructor].
  apply Forall_fmap, Forall_true. done.
Qed.

Lemma block_added_rows st hazard row : addedRows (blockTrace st hazard row) = blockRows hazard.
Proof.
  pose proof (blockRows_pos hazard) as Hpos.
  unfold blockTrace. rewrite !addedRows_app.
  rewrite (addedRows_none (sideTrace 2 3 _ _ _ _)) by apply sideTrace_adds_no_row.
  rewrite (addedRows_none (sideTrace 4 5 _ _ _ _)) by apply sideTrace_adds_no_row.
  rewrite (addedRows_none (colorTrace _ _ _ _ _)) by apply colorTrace_adds_no_row.
  rewrite (addedRows_none (flat_map _ _)).
  2:{ apply Forall_flat_map, Forall_true. intros r. apply Forall_fmap, Forall_true. done. }
  rewrite !(addedRows_none [_]) by (repeat constructor).
  assert (Hrows : addedRows (map (fun _ => AddRow blankRow) (seqZ 0 (blockRows hazard)))
                  = blockRows hazard).
  { unfold addedRows, len.
    replace (List.filter isAddRow (map (fun _ : Z => AddRow blankRow) (seqZ 0 (blockRows hazard))))
      with (map (fun _ : Z => AddRow blankRow) (seqZ 0 (blockRows hazard))).
    - rewrite length_map, length_seqZ. lia.
    - induction (seqZ 0 (blockRows hazard)) as [|z t IH]; simpl; [done|by rewrite <- IH]. }
  rewrite Hrows. lia.
Qed.

Lemma blocks_added_rows st : forall hs row,
  addedRows (blocksTrace st row hs) = totalBlockRows hs.
Proof.
  induction hs as [|h t IH]; intros row; [done|].
  simpl blocksTrace. rewrite addedRows_app, block_added_rows, IH, totalBlockRows_cons. done.
Qed.

(** X12. The export of the HAZID worksheet completes for every state. It
    adds the header row and then exactly as many rows as the block row
    counts of the hazards add up to. The hazard cells of column 1, and
    likewise the recommendation cells of column 10, are one per hazard in
    list order, each spans the hazard's block row count, and they lie one
    under the other from row 2 without gap or overlap. Every merge, style
    and fill of the sheet stays within the added data rows and the ten
    columns, and no merged range is empty. *)
Theorem hazid_sheet_is_stacked_blocks (st : State) :
  exists calls,
    exportToExcel st = Ok calls /\
    addedRows calls = 1 + totalBlockRows (hazards st) /\
    map snd (cellsOfColumn 1 calls) = map blockRows (hazards st) /\
    cellsOfColumn 10 calls = cellsOfColumn 1 calls /\
    (hazards st <> [] ->
     Tiles 2 (totalBlockRows (hazards st)) (length (hazards st)) (cellsOfColumn 1 calls)) /\
    Forall (CallInRows 2 (2 + totalBlockRows (hazards st))) calls.
Proof.
  exists (AddRow headers :: blocksTrace st 2 (hazards st)).
  assert (Hcol : forall col, col = 1 \/ col = 10 ->
            cellsOfColumn col (AddRow headers :: blocksTrace st 2 (hazards st))
            = blockCells 2 (hazards st)).
  { intros col Hcol. change (AddRow headers :: ?t) with ([AddRow headers] ++ t).
    rewrite cellsOfColumn_app, blocks_column by done. done. }
  split_and!.
  - apply exportToExcel_trace.
  - change (AddRow headers :: ?t) with ([AddRow headers] ++ t).
    rewrite addedRows_app, blocks_added_rows. reflexivity.
  - rewrite Hcol by (by left). apply blockCells_spans.
  - rewrite !Hcol by tauto. reflexivity.
  - intros Hne. rewrite Hcol by (by left). by apply blockCells_tiles.
  - constructor; [done|]. apply blocks_in_rows.
Qed.

(** X13. The calls made for one hazard stay in its own block: whatever the
    hazard and the row its block starts at, the hazard's part of the export
    completes, adds the block's rows, moves the current row to the end of
    the block, and every cell it merges, styles or fills lies within the
    rows of the block, with every merged range at least one row high. *)
Theorem hazard_export_stays_in_block (st : State) (hazard : Hazard) (currentRow : Z) :
  exists calls,
    exportHazard st hazard currentRow = Ok (calls, currentRow + blockRows hazard) /\
    addedRows calls = blockRows hazard /\
    Forall (CallInRows currentRow (currentRow + blockRows hazard)) calls /\
    cellsOfColumn 1 calls = [(currentRow, blockRows hazard)] /\
    cellsOfColumn 10 calls = [(currentRow, blockRows hazard)].
Proof.
  exists (blockTrace st hazard currentRow). split_and!.
  - apply exportHazard_trace.
  - apply block_added_rows.
  - apply block_in_rows.
  - apply block_column. by left.
  - apply block_column. by right.
Qed.

(** ** The Risk Summary and Recommendations worksheets *)

Lemma bind_ok {A B} (w : list CellCall) (a : A) (k : A -> Sheet B) :
  mkSheet w (Ok a) ≫= k = mkSheet (w ++ written (k a)) (completion (k a)).
Proof. reflexivity. Qed.

Lemma bind_throw {A B} (w : list CellCall) (e : JsError) (k : A -> Sheet B) :
  mkSheet w (Throw e) ≫= k = mkSheet w (Throw e).
Proof. reflexivity. Qed.

Lemma indexedFrom_app {A} (a b : list A) : forall i,
  indexedFrom i (a ++ b) = indexedFrom i a ++ indexedFrom (i + len a) b.
Proof.
  induction a as [|x t IH]; intros i; simpl.
  - f_equal. unfold len. simpl. lia.
  - rewrite IH, len_cons. do 3 f_equal. lia.
Qed.

Lemma header_forEach (headers : list string) : forall w i,
  forEachFrom (fun header index (acc : Sheet unit) =>
                 _ ← acc;
                 _ ← call (SetValue 1 (index + 1) header);
                 call (HeaderStyle (index + 1)))
              i headers (mkSheet w (Ok tt))
  = mkSheet (w ++ flat_map (fun ih => [SetValue 1 (fst ih + 1) (snd ih);
                                        HeaderStyle (fst ih + 1)])
                           (indexedFrom i headers))
            (Ok tt).
Proof.
  induction headers as [|h t IH]; intros w i.
  - simpl. by rewrite app_nil_r.
  - simpl forEachFrom. rewrite bind_ok. simpl written. simpl completion.
    rewrite IH. simpl. by rewrite <- !app_assoc.
Qed.

Lemma headerCells_trace (headers : list string) :
  headerCells headers = mkSheet (headerTrace headers) (Ok tt).
Proof. unfold headerCells, forEach. apply (header_forEach headers [] 0). Qed.

Lemma filterJs_rated (l : list (option Consequence)) :
  Forall is_Some l ->
  filterJs isRiskRanked l = Ok (map Some (List.filter isRated (omap id l))).
Proof.
  induction 1 as [|c t [c' ->] _ IH]; [done|].
  simpl filterJs. rewrite IH. simpl.
  unfold isRated. destruct (risk c') as [rk|]; simpl; [|done].
  by destruct (truthy (severityLevel rk) && truthy (likelihoodLevel rk)).
Qed.

Lemma filterJs_null (l : list (option Consequence)) :
  None ∈ l -> filterJs isRiskRanked l = Throw TypeError.
Proof.
  induction l as [|c t IH]; intros Hin.
  - by apply elem_of_nil in Hin.
  - apply elem_of_cons in Hin as [<- | Hin]; [done|].
    simpl filterJs. rewrite (IH Hin). by destruct c.
Qed.

Lemma isRated_risk c : isRated c = true -> exists rk, risk c = Some rk.
Proof. unfold isRated. destruct (risk c); [eauto|done]. Qed.

Lemma summaryConsequence_step st c i w row n :
  isRated c = true ->
  summaryConsequence st (Some c) i (mkSheet w (Ok (row, n)))
  = mkSheet (w ++ summaryRowCalls st row c) (Ok (row + 1, n + 1)).
Proof.
  intros Hrated. destruct (isRated_risk c Hrated) as [rk Hrk].
  unfold summaryConsequence, summaryRowCalls, evaluatorLabel, evaluatorColor, riskField.
  simpl consRisk. rewrite Hrk.
  rewrite bind_ok. cbv beta iota. simpl. rewrite Hrk. simpl.
  change (getRiskLevel st ?a ?b) with (computeRiskScore st a b).
  rewrite (computeRiskScore_completes st (severityLevel rk) (likelihoodLevel rk)).
  rewrite (getRiskLevelColor_completes st (severityLevel rk) (likelihoodLevel rk)).
  simpl. destruct (negb _); simpl; rewrite <- ?app_assoc; reflexivity.
Qed.

Lemma len_map {A B} (f : A -> B) (l : list A) : len (map f l) = len l.
Proof. unfold len. by rewrite length_map. Qed.

Lemma summary_rows st (cs : list Consequence) : forall i w row n,
  Forall (fun c => isRated c = true) cs ->
  forEachFrom (summaryConsequence st) i (map Some cs) (mkSheet w (Ok (row, n)))
  = mkSheet (w ++ groupRows (summaryRowCalls st) row cs) (Ok (row + len cs, n + len cs)).
Proof.
  induction cs as [|c t IH]; intros i w row n Hrated.
  - simpl. rewrite app_nil_r. unfold len. simpl. do 3 f_equal; lia.
  - apply Forall_cons in Hrated as [Hc Ht].
    simpl map. simpl forEachFrom. rewrite summaryConsequence_step by done.
    rewrite IH by done. rewrite len_cons. simpl groupRows. rewrite <- app_assoc.
    do 3 f_equal; lia.
Qed.

Lemma rated_are_rated hazard : Forall (fun c => isRated c = true) (ratedConsequences hazard).
Proof.
  unfold ratedConsequences. apply List.Forall_forall. intros c Hc.
  by apply List.filter_In in Hc as [_ Hc].
Qed.

Lemma summaryHazard_step st hazard i w row :
  Forall is_Some (consequences hazard) ->
  summaryHazard st hazard i (mkSheet w (Ok row))
  = mkSheet (w ++ groupBlock (summaryRowCalls st) row (shownTitle hazard)
                             (ratedConsequences hazard))
            (Ok (row + len (ratedConsequences hazard))).
Proof.
  intros Hsome. unfold summaryHazard. rewrite bind_ok.
  rewrite (filterJs_rated _ Hsome). fold (ratedConsequences hazard).
  unfold liftJs. rewrite bind_ok. simpl written at 1. simpl app at 1.
  unfold groupBlock. rewrite !(len_map Some).
  pose proof (len_nonneg (ratedConsequences hazard)) as Hlen.
  destruct (len (ratedConsequences hazard) >? 0) eqn:Hpos.
  - unfold forEach. change (mret (row, 0)) with (mkSheet (A := Z * Z) [] (Ok (row, 0))).
    rewrite summary_rows by apply rated_are_rated.
    rewrite bind_ok. simpl. rewrite !Z.add_0_l.
    destruct (len (ratedConsequences hazard) >? 1); simpl; rewrite ?app_nil_r; reflexivity.
  - simpl. rewrite app_nil_r. assert (len (ratedConsequences hazard) = 0) as -> by lia.
    by rewrite Z.add_0_r.
Qed.

Lemma summaryHazard_null st hazard i w row :
  None ∈ consequences hazard ->
  summaryHazard st hazard i (mkSheet w (Ok row)) = mkSheet w (Throw TypeError).
Proof.
  intros Hnull. unfold summaryHazard. rewrite bind_ok.
  rewrite (filterJs_null _ Hnull). simpl. by rewrite app_nil_r.
Qed.

Lemma summaryHazard_thrown st e : forall hs i w,
  forEachFrom (summaryHazard st) i hs (mkSheet w (Throw e)) = mkSheet w (Throw e).
Proof. induction hs as [|h t IH]; intros i w; simpl; [done|]. apply IH. Qed.

Lemma summary_loop st : forall hs i w row,
  Forall (fun hazard => Forall is_Some (consequences hazard)) hs ->
  forEachFrom (summaryHazard st) i hs (mkSheet w (Ok row))
  = mkSheet (w ++ groupBlocks (summaryRowCalls st) row
                    (map (fun h => (shownTitle h, ratedConsequences h)) hs))
            (Ok (row + len (flat_map ratedConsequences hs))).
Proof.
  induction hs as [|h t IH]; intros i w row Hsome.
  - simpl. rewrite app_nil_r. unfold len. simpl. do 2 f_equal. lia.
  - apply Forall_cons in Hsome as [Hh Ht].
    simpl forEachFrom. rewrite summaryHazard_step by done. rewrite IH by done.
    simpl. rewrite <- app_assoc. unfold len. rewrite length_app. do 2 f_equal. lia.
Qed.

Section GroupedRows.

Context {X O : Type}.
Variable rowCalls : Z -> X -> list CellCall.
Variable p : CellCall -> option O.
Variable g : Z -> X -> list O.
Hypothesis rows_obs : forall r x, omap p (rowCalls r x) = g r x.
Hypothesis title_obs : forall r v, p (SetValue r 1 v) = None.
Hypothesis merge_obs : forall a b c d, p (MergeCells a b c d) = None.

Lemma groupRows_obs (xs : list X) : forall row,
  omap p (groupRows rowCalls row xs)
  = flat_map (fun rx => g (fst rx) (snd rx)) (indexedFrom row xs).
Proof using rows_obs.
  induction xs as [|x t IH]; intros row; [done|].
  simpl groupRows. rewrite omap_app, rows_obs, IH. done.
Qed.

Lemma groupBlock_obs row title (xs : list X) :
  omap p (groupBlock rowCalls row title xs)
  = flat_map (fun rx => g (fst rx) (snd rx)) (indexedFrom row xs).
Proof using rows_obs title_obs merge_obs.
  unfold groupBlock. destruct xs as [|x t]; [done|].
  rewrite len_cons. pose proof (len_nonneg t).
  replace (len t + 1 >? 0) with true by (symmetry; apply Z.gtb_lt; lia).
  rewrite !omap_app, groupRows_obs.
  replace (omap p [SetValue row 1 title]) with (@nil O) by (simpl; by rewrite title_obs).
  destruct (len t + 1 >? 1); simpl omap; rewrite ?merge_obs, ?app_nil_r; done.
Qed.

Lemma groupBlocks_obs (gs : list (string * list X)) : forall row,
  omap p (groupBlocks rowCalls row gs)
  = flat_map (fun rx => g (fst rx) (snd rx)) (indexedFrom row (flat_map snd gs)).
Proof using rows_obs title_obs merge_obs.
  induction gs as [|[title xs] t IH]; intros row; [done|].
  simpl groupBlocks. rewrite omap_app, groupBlock_obs, IH.
  simpl flat_map. rewrite indexedFrom_app, flat_map_app. done.
Qed.

End GroupedRows.

Section GroupedTitles.

Context {X O : Type}.
Variable rowCalls : Z -> X -> list CellCall.
Variable p : CellCall -> option O.
Hypothesis rows_silent : forall r x, omap p (rowCalls r x) = [].

Lemma groupRows_silent (xs : list X) : forall row, omap p (groupRows rowCalls row xs) = [].
Proof using rows_silent.
  induction xs as [|x t IH]; intros row; [done|].
  simpl groupRows. by rewrite omap_app, rows_silent, IH.
Qed.

Lemma groupBlocks_titles (gs : list (string * list X)) : forall row,
  omap p (groupBlocks rowCalls row gs)
  = omap p (flat_map groupCalls
              (groupCells row (map (fun g => (fst g, len (snd g))) gs))).
Proof using rows_silent.
  induction gs as [|[title xs] t IH]; intros row; [done|].
  simpl groupBlocks. simpl map. simpl groupCells.
  rewrite flat_map_app, !omap_app, IH. f_equal.
  unfold groupBlock. destruct (len xs >? 0); [|done].
  rewrite omap_app, groupRows_silent. simpl flat_map. rewrite app_nil_r. done.
Qed.

End GroupedTitles.

Lemma groupCalls_titles cells : valuesAt 1 (flat_map groupCalls cells) = map groupTitle cells.
Proof.
  induction cells as [|[[row title] n] t IH]; [done|].
  change (flat_map groupCalls ((row, title, n) :: t))
    with (groupCalls (row, title, n) ++ flat_map groupCalls t).
  unfold valuesAt in *. rewrite omap_app, IH.
  unfold groupCalls. simpl. by destruct (n >? 1).
Qed.

Lemma groupCalls_merges cells :
  mergedRanges (flat_map groupCalls cells) = omap groupMerge cells.
Proof.
  induction cells as [|[[row title] n] t IH]; [done|].
  change (flat_map groupCalls ((row, title, n) :: t))
    with (groupCalls (row, title, n) ++ flat_map groupCalls t).
  unfold mergedRanges in *. rewrite omap_app, IH.
  unfold groupCalls, groupMerge. simpl. by destruct (n >? 1).
Qed.

Lemma bordersOf_borderCells lastRow cols :
  bordersOf (borderCells lastRow cols) = gridCells (lastRow - 1) cols.
Proof.
  unfold bordersOf, borderCells, gridCells.
  assert (Hrow : forall r argb (l : list Z),
            omap (fun c => match c with SetBorder r c _ => Some (r, c) | _ => None end)
                 (map (fun col => SetBorder r col argb) l)
            = map (pair r) l).
  { intros r argb l. induction l as [|c t IH]; [done|]. simpl. f_equal. exact IH. }
  induction (seqZ 1 (lastRow - 1)) as [|r t IH]; [done|].
  simpl flat_map. rewrite omap_app, IH, Hrow. done.
Qed.

Lemma flat_map_singleton {A B} (f : A -> B) (l : list A) :
  flat_map (fun x => [f x]) l = map f l.
Proof. induction l as [|x t IH]; simpl; [done|by rewrite IH]. Qed.

Lemma borderCells_silent {O} (p : CellCall -> option O) lastRow cols :
  (forall r c argb, p (SetBorder r c argb) = None) ->
  omap p (borderCells lastRow cols) = [].
Proof.
  intros Hp. unfold borderCells.
  induction (seqZ 1 (lastRow - 1)) as [|r t IH]; [done|].
  simpl flat_map. rewrite omap_app, IH, app_nil_r.
  generalize (if r =? 1 then "FFFFFFFF" else "FF024F75"). intros argb. clear IH.
  induction (seqZ 1 cols) as [|c t' IH']; [done|]. simpl. rewrite Hp. exact IH'.
Qed.

Lemma summaryWorksheet_trace st :
  Forall (fun hazard => Forall is_Some (consequences hazard)) (hazards st) ->
  summaryWorksheet st
  = mkSheet (headerTrace summaryHeaders
             ++ groupBlocks (summaryRowCalls st) 2
                  (map (fun h => (shownTitle h, ratedConsequences h)) (hazards st))
             ++ [SetWidth 1 30; SetWidth 2 40; SetWidth 3 20; SetWidth 4 15; SetWidth 5 15;
                 SetWidth 6 15]
             ++ (if len (flat_map ratedConsequences (hazards st)) >? 0
                 then borderCells (2 + len (flat_map ratedConsequences (hazards st))) 6
                 else []))
            (Ok tt).
Proof.
  intros Hsome. unfold summaryWorksheet, forEach.
  rewrite headerCells_trace, bind_ok.
  change (mret 2) with (mkSheet (A := Z) [] (Ok 2)).
  rewrite summary_loop by done.
  cbv beta iota. rewrite bind_ok. unfold calls. rewrite bind_ok. simpl written. simpl completion.
  replace (2 + len (flat_map ratedConsequences (hazards st)) >? 2)
    with (len (flat_map ratedConsequences (hazards st)) >? 0).
  2:{ destruct (Z.gtb_spec (len (flat_map ratedConsequences (hazards st))) 0);
      destruct (Z.gtb_spec (2 + len (flat_map ratedConsequences (hazards st))) 2);
      try done; lia. }
  destruct (len (flat_map ratedConsequences (hazards st)) >? 0); simpl; reflexivity.
Qed.

Lemma summaryWorksheet_truncated st before hazard after :
  hazards st = before ++ hazard :: after ->
  Forall (fun h => Forall is_Some (consequences h)) before ->
  None ∈ consequences hazard ->
  summaryWorksheet st
  = mkSheet (headerTrace summaryHeaders
             ++ groupBlocks (summaryRowCalls st) 2
                  (map (fun h => (shownTitle h, ratedConsequences h)) before))
            (Throw TypeError).
Proof.
  intros Hhs Hsome Hnull. unfold summaryWorksheet, forEach.
  rewrite headerCells_trace, bind_ok, Hhs.
  change (mret 2) with (mkSheet (A := Z) [] (Ok 2)).
  assert (Hloop : forall i w row,
            forEachFrom (summaryHazard st) i (before ++ hazard :: after) (mkSheet w (Ok row))
            = mkSheet (w ++ groupBlocks (summaryRowCalls st) row
                              (map (fun h => (shownTitle h, ratedConsequences h)) before))
                      (Throw TypeError)).
  { clear Hhs. induction Hsome as [|h t Hh _ IH]; intros i w row.
    - simpl. rewrite summaryHazard_null by done. rewrite summaryHazard_thrown.
      by rewrite app_nil_r.
    - simpl app. simpl forEachFrom. rewrite summaryHazard_step by done.
      rewrite IH. simpl. by rewrite <- app_assoc. }
  rewrite Hloop. reflexivity.
Qed.

Lemma valuesAt_app col a b : valuesAt col (a ++ b) = valuesAt col a ++ valuesAt col b.
Proof. apply omap_app. Qed.

Lemma mergedRanges_app a b : mergedRanges (a ++ b) = mergedRanges a ++ mergedRanges b.
Proof. apply omap_app. Qed.

Lemma fillsOf_app a b : fillsOf (a ++ b) = fillsOf a ++ fillsOf b.
Proof. apply omap_app. Qed.

Lemma bordersOf_app a b : bordersOf (a ++ b) = bordersOf a ++ bordersOf b.
Proof. apply omap_app. Qed.

Lemma widthsOf_app a b : widthsOf (a ++ b) = widthsOf a ++ widthsOf b.
Proof. apply omap_app. Qed.

Lemma groupCalls_silent {O} (p : CellCall -> option O) cells :
  (forall r c v, p (SetValue r c v) = None) ->
  (forall a b c d, p (MergeCells a b c d) = None) ->
  omap p (flat_map groupCalls cells) = [].
Proof.
  intros Hv Hm. induction cells as [|[[r t] k] l IH]; [done|].
  change (flat_map groupCalls ((r, t, k) :: l))
    with (groupCalls (r, t, k) ++ flat_map groupCalls l).
  rewrite omap_app, IH. unfold groupCalls. simpl. rewrite Hv.
  destruct (k >? 1); simpl; by rewrite ?Hm.
Qed.

Lemma summaryRowCalls_silent {O} (p : CellCall -> option O) st r c :
  (forall r c v, p (SetValue r c v) = None) ->
  (forall r c a f, p (SetFill r c a f) = None) ->
  omap p (summaryRowCalls st r c) = [].
Proof.
  intros Hv Hf. unfold summaryRowCalls. rewrite omap_app.
  destruct (truthy (Some (evaluatorColor st (Some c)))); simpl; by rewrite !Hv, ?Hf.
Qed.

Lemma summary_blocks_no_border st row gs :
  bordersOf (groupBlocks (summaryRowCalls st) row gs) = [] /\
  widthsOf (groupBlocks (summaryRowCalls st) row gs) = [].
Proof.
  split.
  - unfold bordersOf.
    etrans; [apply groupBlocks_titles; intros; apply summaryRowCalls_silent; done|].
    apply groupCalls_silent; done.
  - unfold widthsOf.
    etrans; [apply groupBlocks_titles; intros; apply summaryRowCalls_silent; done|].
    apply groupCalls_silent; done.
Qed.

Lemma summary_column st (col : Z) (f : Consequence -> string)
    (gs : list (string * list Consequence)) row :
  col <> 1 ->
  (forall r c, valuesAt col (summaryRowCalls st r c) = [(r, f c)]) ->
  valuesAt col (groupBlocks (summaryRowCalls st) row gs)
  = map (fun rc => (fst rc, f (snd rc))) (indexedFrom row (flat_map snd gs)).
Proof.
  intros Hcol Hrow. unfold valuesAt.
  rewrite (groupBlocks_obs (summaryRowCalls st) _ (fun r c => [(r, f c)])).
  - apply (flat_map_singleton (fun rc => (fst rc, f (snd rc)))).
  - exact Hrow.
  - intros r v. cbv beta iota. destruct (Z.eqb_spec 1 col); [lia|done].
  - done.
Qed.

Lemma summary_fills st (gs : list (string * list Consequence)) row :
  fillsOf (groupBlocks (summaryRowCalls st) row gs)
  = flat_map (fun rc => if truthy (Some (evaluatorColor st (Some (snd rc))))
                        then [(fst rc, 6, cssHexToARGB (evaluatorColor st (Some (snd rc))))]
                        else [])
             (indexedFrom row (flat_map snd gs)).
Proof.
  unfold fillsOf.
  rewrite (groupBlocks_obs (summaryRowCalls st) _
             (fun r c => if truthy (Some (evaluatorColor st (Some c)))
                         then [(r, 6, cssHexToARGB (evaluatorColor st (Some c)))]
                         else [])); try done.
  intros r c. unfold summaryRowCalls. rewrite omap_app.
  destruct (truthy (Some (evaluatorColor st (Some c)))); reflexivity.
Qed.

Lemma summary_titles st (gs : list (string * list Consequence)) row :
  valuesAt 1 (groupBlocks (summaryRowCalls st) row gs)
  = map groupTitle (groupCells row (map (fun g => (fst g, len (snd g))) gs)) /\
  mergedRanges (groupBlocks (summaryRowCalls st) row gs)
  = omap groupMerge (groupCells row (map (fun g => (fst g, len (snd g))) gs)).
Proof.
  split.
  - rewrite <- groupCalls_titles. unfold valuesAt. apply groupBlocks_titles.
    intros r c. unfold summaryRowCalls. rewrite omap_app.
    destruct (truthy (Some (evaluatorColor st (Some c)))); reflexivity.
  - rewrite <- groupCalls_merges. unfold mergedRanges. apply groupBlocks_titles.
    intros r c. unfold summaryRowCalls. rewrite omap_app.
    destruct (truthy (Some (evaluatorColor st (Some c)))); reflexivity.
Qed.

Lemma summary_groups (hs : list Hazard) :
  map (fun g : string * list Consequence => (fst g, len (snd g)))
      (map (fun h => (shownTitle h, ratedConsequences h)) hs)
  = map (fun h => (shownTitle h, len (ratedConsequences h))) hs.
Proof. by rewrite map_map. Qed.

Lemma summary_flat (hs : list Hazard) :
  flat_map snd (map (fun h => (shownTitle h, ratedConsequences h)) hs)
  = flat_map ratedConsequences hs.
Proof. induction hs as [|h t IH]; simpl; [done|by rewrite IH]. Qed.

Lemma summary_value_2 st r c :
  valuesAt 2 (summaryRowCalls st r c) = [(r, orDefault (q_text c) "Untitled Consequence")].
Proof.
  unfold summaryRowCalls, valuesAt. rewrite omap_app.
  destruct (truthy (Some (evaluatorColor st (Some c)))); reflexivity.
Qed.

Lemma summary_value_6 st r c :
  valuesAt 6 (summaryRowCalls st r c) = [(r, evaluatorLabel st (Some c))].
Proof.
  unfold summaryRowCalls, valuesAt. rewrite omap_app.
  destruct (truthy (Some (evaluatorColor st (Some c)))); reflexivity.
Qed.

Lemma len_indexedFrom {A} (l : list A) : forall i, len (indexedFrom i l) = len l.
Proof.
  induction l as [|x t IH]; intros i; [done|].
  simpl indexedFrom. by rewrite !len_cons, IH.
Qed.

(** X14. When every entry of every hazard's consequence list is an object,
    the Risk Summary worksheet is built without error and has one row per
    consequence that has both levels set, from row 2 on, in the order of
    the hazards and of their consequences. The Risk Ranking column shows
    the evaluator's current label for the consequence's levels (not the
    stored score), and the cell is filled exactly when the evaluator
    resolves a colour. A hazard with at least one such consequence gets
    its title in column 1 at the row of its first consequence, merged over
    its rows when there is more than one; a hazard with none takes no row.
    Borders are set on the header and data rows when there is a data row. *)
Theorem risk_summary_lists_rated_consequences (st : State) :
  Forall (fun hazard => Forall is_Some (consequences hazard)) (hazards st) ->
  let rated := indexedFrom 2 (flat_map ratedConsequences (hazards st)) in
  let groups :=
    groupCells 2 (map (fun h => (shownTitle h, len (ratedConsequences h))) (hazards st)) in
  let sheet := written (summaryWorksheet st) in
  completion (summaryWorksheet st) = Ok tt /\
  valuesAt 2 sheet
  = (1, "Consequence")
    :: map (fun rc => (fst rc, orDefault (q_text (snd rc)) "Untitled Consequence")) rated /\
  valuesAt 6 sheet
  = (1, "Risk Ranking") :: map (fun rc => (fst rc, evaluatorLabel st (Some (snd rc)))) rated /\
  fillsOf sheet
  = flat_map (fun rc => if truthy (Some (evaluatorColor st (Some (snd rc))))
                        then [(fst rc, 6, cssHexToARGB (evaluatorColor st (Some (snd rc))))]
                        else [])
             rated /\
  valuesAt 1 sheet = (1, "Hazard") :: map groupTitle groups /\
  mergedRanges sheet = omap groupMerge groups /\
  bordersOf sheet = (if len rated >? 0 then gridCells (len rated + 1) 6 else []).
Proof.
  intros Hsome rated groups sheet. subst rated groups sheet.
  rewrite (summaryWorksheet_trace st Hsome). cbn [written completion].
  rewrite len_indexedFrom.
  set (n := len (flat_map ratedConsequences (hazards st))).
  destruct (summary_titles st (map (fun h => (shownTitle h, ratedConsequences h)) (hazards st)) 2)
    as [Htitles Hmerges].
  rewrite summary_groups in Htitles, Hmerges.
  assert (Hborders : forall O (p : CellCall -> option O),
            (forall r c argb, p (SetBorder r c argb) = None) ->
            omap p (if n >? 0 then borderCells (2 + n) 6 else []) = []).
  { intros O p Hp. destruct (n >? 0); [|done]. by apply borderCells_silent. }
  split_and!.
  - reflexivity.
  - rewrite !valuesAt_app.
    rewrite (summary_column st 2 _ _ 2 ltac:(lia) (summary_value_2 st)), summary_flat.
    unfold valuesAt at 3. rewrite Hborders by done.
    rewrite app_nil_r. reflexivity.
  - rewrite !valuesAt_app.
    rewrite (summary_column st 6 _ _ 2 ltac:(lia) (summary_value_6 st)), summary_flat.
    unfold valuesAt at 3. rewrite Hborders by done.
    rewrite app_nil_r. reflexivity.
  - rewrite !fillsOf_app, summary_fills, summary_flat.
    unfold fillsOf at 3. rewrite Hborders by done. simpl. by rewrite app_nil_r.
  - rewrite !valuesAt_app, Htitles.
    unfold valuesAt at 3. rewrite Hborders by done.
    rewrite app_nil_r. reflexivity.
  - rewrite !mergedRanges_app, Hmerges.
    unfold mergedRanges at 3. rewrite Hborders by done. simpl. by rewrite app_nil_r.
  - rewrite !bordersOf_app.
    rewrite (proj1 (summary_blocks_no_border st 2 _)).
    destruct (n >? 0); [|done].
    simpl app. rewrite bordersOf_borderCells. f_equal. lia.
Qed.

Lemma risk_summary_lists_rated_consequences_witness :
  valuesAt 6 (written (summaryWorksheet ratedState))
  = (1, "Risk Ranking")
    :: map (fun rc => (fst rc, evaluatorLabel ratedState (Some (snd rc))))
           (indexedFrom 2 (flat_map ratedConsequences (hazards ratedState))).
Proof.
  refine (proj1 (proj2 (proj2 (risk_summary_lists_rated_consequences ratedState _)))).
  repeat constructor. simpl. eauto.
Defined.

Lemma recommendation_rows : forall (rs : list Recommendation) i w row n,
  forEachFrom recommendationRow i rs (mkSheet w (Ok (row, n)))
  = mkSheet (w ++ groupRows recommendationRowCalls row rs) (Ok (row + len rs, n + len rs)).
Proof.
  induction rs as [|r t IH]; intros i w row n.
  - simpl. rewrite app_nil_r. unfold len. simpl. do 3 f_equal; lia.
  - simpl forEachFrom. unfold recommendationRow at 2. rewrite bind_ok.
    simpl written. simpl completion. rewrite IH. rewrite len_cons. simpl groupRows.
    rewrite <- app_assoc. simpl app. do 3 f_equal; lia.
Qed.

Lemma recommendationsHazard_step hazard i w row :
  recommendationsHazard hazard i (mkSheet w (Ok row))
  = mkSheet (w ++ groupBlock recommendationRowCalls row (shownTitle hazard)
                             (recommendations hazard))
            (Ok (row + len (recommendations hazard))).
Proof.
  unfold recommendationsHazard. rewrite bind_ok. unfold groupBlock.
  pose proof (len_nonneg (recommendations hazard)) as Hlen.
  destruct (len (recommendations hazard) >? 0) eqn:Hpos.
  - unfold forEach. change (mret (row, 0)) with (mkSheet (A := Z * Z) [] (Ok (row, 0))).
    rewrite recommendation_rows.
    rewrite bind_ok. simpl. rewrite !Z.add_0_l.
    destruct (len (recommendations hazard) >? 1); simpl; rewrite ?app_nil_r; reflexivity.
  - simpl. rewrite app_nil_r. assert (len (recommendations hazard) = 0) as -> by lia.
    by rewrite Z.add_0_r.
Qed.

Lemma recommendations_loop : forall hs i w row,
  forEachFrom recommendationsHazard i hs (mkSheet w (Ok row))
  = mkSheet (w ++ groupBlocks recommendationRowCalls row
                    (map (fun h => (shownTitle h, recommendations h)) hs))
            (Ok (row + len (flat_map recommendations hs))).
Proof.
  induction hs as [|h t IH]; intros i w row.
  - simpl. rewrite app_nil_r. unfold len. simpl. do 2 f_equal. lia.
  - simpl forEachFrom. rewrite recommendationsHazard_step. rewrite IH.
    simpl. rewrite <- app_assoc. unfold len. rewrite length_app. do 2 f_equal. lia.
Qed.

Lemma recommendationsWorksheet_trace st :
  recommendationsWorksheet st
  = mkSheet (headerTrace recommendationsHeaders
             ++ groupBlocks recommendationRowCalls 2
                  (map (fun h => (shownTitle h, recommendations h)) (hazards st))
             ++ [SetWidth 1 30; SetWidth 2 50; SetWidth 3 25]
             ++ (if len (flat_map recommendations (hazards st)) >? 0
                 then borderCells (2 + len (flat_map recommendations (hazards st))) 3
                 else []))
            (Ok tt).
Proof.
  unfold recommendationsWorksheet, forEach.
  rewrite headerCells_trace, bind_ok.
  change (mret 2) with (mkSheet (A := Z) [] (Ok 2)).
  rewrite recommendations_loop.
  cbv beta iota. rewrite bind_ok. unfold calls. rewrite bind_ok. simpl written. simpl completion.
  replace (2 + len (flat_map recommendations (hazards st)) >? 2)
    with (len (flat_map recommendations (hazards st)) >? 0).
  2:{ destruct (Z.gtb_spec (len (flat_map recommendations (hazards st))) 0);
      destruct (Z.gtb_spec (2 + len (flat_map recommendations (hazards st))) 2);
      try done; lia. }
  destruct (len (flat_map recommendations (hazards st)) >? 0); simpl; reflexivity.
Qed.

(** X15. A [null] entry in a hazard's consequence list stops the Risk
    Summary worksheet silently: the worksheet keeps the header row and the
    rows of the hazards before that hazard, gets no row for that hazard or
    any later one, no column widths and no borders, and the error is a
    TypeError that is only logged. The HAZID worksheet and the
    Recommendations worksheet of the same export are still built in full. *)
Theorem risk_summary_stops_at_null_entry (st : State) (before after : list Hazard)
    (hazard : Hazard) :
  hazards st = before ++ hazard :: after ->
  Forall (fun h => Forall is_Some (consequences h)) before ->
  None ∈ consequences hazard ->
  let rated := indexedFrom 2 (flat_map ratedConsequences before) in
  let sheet := written (summaryWorksheet st) in
  completion (summaryWorksheet st) = Throw TypeError /\
  valuesAt 6 sheet
  = (1, "Risk Ranking") :: map (fun rc => (fst rc, evaluatorLabel st (Some (snd rc)))) rated /\
  valuesAt 1 sheet
  = (1, "Hazard")
    :: map groupTitle
         (groupCells 2 (map (fun h => (shownTitle h, len (ratedConsequences h))) before)) /\
  widthsOf sheet = [] /\
  bordersOf sheet = [] /\
  (exists calls, exportToExcel st = Ok calls) /\
  completion (recommendationsWorksheet st) = Ok tt.
Proof.
  intros Hhs Hsome Hnull rated sheet. subst rated sheet.
  rewrite (summaryWorksheet_truncated st before hazard after Hhs Hsome Hnull).
  cbn [written completion].
  destruct (summary_titles st (map (fun h => (shownTitle h, ratedConsequences h)) before) 2)
    as [Htitles _].
  rewrite summary_groups in Htitles.
  destruct (summary_blocks_no_border st 2
              (map (fun h => (shownTitle h, ratedConsequences h)) before)) as [Hb Hw].
  split_and!.
  - reflexivity.
  - rewrite valuesAt_app.
    rewrite (summary_column st 6 _ _ 2 ltac:(lia) (summary_value_6 st)), summary_flat.
    reflexivity.
  - rewrite valuesAt_app, Htitles. reflexivity.
  - rewrite widthsOf_app, Hw. reflexivity.
  - rewrite bordersOf_app, Hb. reflexivity.
  - rewrite exportToExcel_trace. eauto.
  - by rewrite recommendationsWorksheet_trace.
Qed.

Lemma risk_summary_stops_at_null_entry_witness :
  completion (summaryWorksheet nullEntryState) = Throw TypeError.
Proof.
  refine (proj1 (risk_summary_stops_at_null_entry nullEntryState [ratedHazard] []
                   nullEntryHazard _ _ _)).
  - reflexivity.
  - repeat constructor. simpl. eauto.
  - simpl. apply elem_of_cons. by left.
Defined.

Lemma group_column {X} (rowCalls : Z -> X -> list CellCall) (col : Z) (f : X -> string)
    (gs : list (string * list X)) row :
  col <> 1 ->
  (forall r x, valuesAt col (rowCalls r x) = [(r, f x)]) ->
  valuesAt col (groupBlocks rowCalls row gs)
  = map (fun rx => (fst rx, f (snd rx))) (indexedFrom row (flat_map snd gs)).
Proof.
  intros Hcol Hrow. unfold valuesAt.
  rewrite (groupBlocks_obs rowCalls _ (fun r x => [(r, f x)])).
  - apply (flat_map_singleton (fun rx => (fst rx, f (snd rx)))).
  - exact Hrow.
  - intros r v. cbv beta iota. destruct (Z.eqb_spec 1 col); [lia|done].
  - done.
Qed.

Lemma group_titles {X} (rowCalls : Z -> X -> list CellCall) (gs : list (string * list X)) row :
  (forall r x, valuesAt 1 (rowCalls r x) = []) ->
  (forall r x, mergedRanges (rowCalls r x) = []) ->
  (forall r x, bordersOf (rowCalls r x) = []) ->
  valuesAt 1 (groupBlocks rowCalls row gs)
  = map groupTitle (groupCells row (map (fun g => (fst g, len (snd g))) gs)) /\
  mergedRanges (groupBlocks rowCalls row gs)
  = omap groupMerge (groupCells row (map (fun g => (fst g, len (snd g))) gs)) /\
  bordersOf (groupBlocks rowCalls row gs) = [].
Proof.
  intros Hv Hm Hb. split_and!.
  - rewrite <- groupCalls_titles. unfold valuesAt. by apply groupBlocks_titles.
  - rewrite <- groupCalls_merges. unfold mergedRanges. by apply groupBlocks_titles.
  - unfold bordersOf. etrans; [by apply groupBlocks_titles|].
    by apply groupCalls_silent.
Qed.

Lemma recommendation_groups (hs : list Hazard) :
  map (fun g : string * list Recommendation => (fst g, len (snd g)))
      (map (fun h => (shownTitle h, recommendations h)) hs)
  = map (fun h => (shownTitle h, len (recommendations h))) hs.
Proof. by rewrite map_map. Qed.

Lemma recommendation_flat (hs : list Hazard) :
  flat_map snd (map (fun h => (shownTitle h, recommendations h)) hs)
  = flat_map recommendations hs.
Proof. induction hs as [|h t IH]; simpl; [done|by rewrite IH]. Qed.

(** X16. The Recommendations worksheet is built without error for every
    state. It has one row per recommendation, from row 2 on, in the order
    of the hazards and of their recommendations, with the action in column
    2 and the responsible party in column 3. A hazard with recommendations
    gets its title in column 1 at the row of its first recommendation,
    merged over its rows when there is more than one; a hazard without
    recommendations takes no row. Borders are set on the header and data
    rows of the three columns when there is a data row. *)
Theorem recommendations_sheet_lists_recommendations (st : State) :
  let recs := indexedFrom 2 (flat_map recommendations (hazards st)) in
  let groups :=
    groupCells 2 (map (fun h => (shownTitle h, len (recommendations h))) (hazards st)) in
  let sheet := written (recommendationsWorksheet st) in
  completion (recommendationsWorksheet st) = Ok tt /\
  valuesAt 2 sheet = (1, "Action") :: map (fun rr => (fst rr, action (snd rr))) recs /\
  valuesAt 3 sheet
  = (1, "Responsible Party") :: map (fun rr => (fst rr, responsible (snd rr))) recs /\
  valuesAt 1 sheet = (1, "Hazard") :: map groupTitle groups /\
  mergedRanges sheet = omap groupMerge groups /\
  bordersOf sheet = (if len recs >? 0 then gridCells (len recs + 1) 3 else []).
Proof.
  intros recs groups sheet. subst recs groups sheet.
  rewrite recommendationsWorksheet_trace. cbn [written completion].
  rewrite len_indexedFrom.
  set (n := len (flat_map recommendations (hazards st))).
  set (gs := map (fun h => (shownTitle h, recommendations h)) (hazards st)).
  assert (Hborders : forall O (p : CellCall -> option O),
            (forall r c argb, p (SetBorder r c argb) = None) ->
            omap p (if n >? 0 then borderCells (2 + n) 3 else []) = []).
  { intros O p Hp. destruct (n >? 0); [|done]. by apply borderCells_silent. }
  destruct (group_titles recommendationRowCalls gs 2) as (Htitles & Hmerges & Hnone);
    try done.
  subst gs. rewrite recommendation_groups in Htitles, Hmerges.
  split_and!.
  - reflexivity.
  - rewrite !valuesAt_app.
    rewrite (group_column recommendationRowCalls 2 action) by (done || lia).
    rewrite recommendation_flat.
    unfold valuesAt at 3. rewrite Hborders by done. rewrite app_nil_r. reflexivity.
  - rewrite !valuesAt_app.
    rewrite (group_column recommendationRowCalls 3 responsible) by (done || lia).
    rewrite recommendation_flat.
    unfold valuesAt at 3. rewrite Hborders by done. rewrite app_nil_r. reflexivity.
  - rewrite !valuesAt_app, Htitles.
    unfold valuesAt at 3. rewrite Hborders by done. rewrite app_nil_r. reflexivity.
  - rewrite !mergedRanges_app, Hmerges.
    unfold mergedRanges at 3. rewrite Hborders by done. simpl. by rewrite app_nil_r.
  - rewrite !bordersOf_app, Hnone.
    destruct (n >? 0); [|done].
    simpl app. rewrite bordersOf_borderCells. f_equal. lia.
Qed.

(** ** Copy, paste and the hazard actions *)

Lemma spliceIn_length {A} (n : nat) (x : A) (l : list A) :
  length (spliceIn n x l) = S (length l).
Proof.
  unfold spliceIn. rewrite length_app. simpl. rewrite length_take, length_drop. lia.
Qed.

Lemma spliceIn_lookup_lt {A} (n i : nat) (x : A) (l : list A) :
  (i < n)%nat -> (n <= length l)%nat -> spliceIn n x l !! i = l !! i.
Proof.
  intros Hi Hn. unfold spliceIn. rewrite lookup_app_l by (rewrite length_take; lia).
  by apply lookup_take_lt.
Qed.

Lemma spliceIn_lookup_eq {A} (n : nat) (x : A) (l : list A) :
  (n <= length l)%nat -> spliceIn n x l !! n = Some x.
Proof.
  intros Hn. unfold spliceIn. rewrite lookup_app_r by (rewrite length_take; lia).
  rewrite length_take. by replace (n - n `min` length l)%nat with 0%nat by lia.
Qed.

Lemma spliceIn_lookup_gt {A} (n i : nat) (x : A) (l : list A) :
  (n <= i)%nat -> (n <= length l)%nat -> spliceIn n x l !! S i = l !! i.
Proof.
  intros Hi Hn. unfold spliceIn. rewrite lookup_app_r by (rewrite length_take; lia).
  rewrite length_take. replace (S i - n `min` length l)%nat with (S (i - n)) by lia.
  simpl. rewrite lookup_drop. f_equal. lia.
Qed.

Lemma spliceOut_spliceIn {A} (n : nat) (x : A) (l : list A) :
  (n <= length l)%nat -> spliceOut n (spliceIn n x l) = l.
Proof.
  revert l. induction n as [|n IH]; intros l Hn.
  - by destruct l.
  - destruct l as [|y t]; [simpl in Hn; lia|].
    simpl in Hn. unfold spliceOut, spliceIn in *. simpl. f_equal. apply IH. lia.
Qed.

Lemma alter_is_insert {A} (f : A -> A) (i : nat) (l : list A) (x : A) :
  l !! i = Some x -> alter f i l = <[i := f x]> l.
Proof.
  intros Hx. apply list_eq. intros j.
  destruct (decide (j = i)) as [->|Hne].
  - rewrite list_lookup_alter, Hx. rewrite decide_True by done. simpl. symmetry.
    apply list_lookup_insert_eq. by eapply lookup_lt_Some.
  - by rewrite list_lookup_alter_ne, list_lookup_insert_ne.
Qed.

Lemma sumNatural_spliceIn (f : option Cause -> Z) (n : nat) (x : option Cause)
    (l : list (option Cause)) :
  sumNatural (map f (spliceIn n x l)) = sumNatural (map f l) + Z.max (f x) 1.
Proof.
  unfold spliceIn. rewrite map_app, sumNatural_app. simpl map. rewrite sumNatural_cons.
  rewrite <- (take_drop n l) at 3. rewrite map_app, sumNatural_app. lia.
Qed.

(** X17. Copying a cause and pasting it on a cause row inserts a copy of
    it right below that row, in the hazard of that row: the copy has the
    text and the prevention measures of the copied cause and the new id,
    the causes above keep their places and those below move down by one,
    and nothing else of the hazard, no other hazard and nothing of the risk
    matrix changes. The hazard's prevention total grows by exactly
    max(number of measures of the cause, 1), so its block never gets
    shorter. The handler saves the new state under the autosave rule. *)
Theorem paste_inserts_copied_cause (newId : string) (st : State) (ls : LocalStorage)
    (clipboard : option Clip) (hazardIndex rowIndex targetIndex targetRow : nat)
    (source target : Hazard) (cause : Cause) :
  hazards st !! hazardIndex = Some source ->
  causes source !! rowIndex = Some (Some cause) ->
  hazards st !! targetIndex = Some target ->
  (targetRow < length (causes target))%nat ->
  exists st' ls' target',
    (clip ← copyItem (RefCause hazardIndex rowIndex) st clipboard;
     pasteItem newId (RefCause targetIndex targetRow) clip st ls) = Ok (st', ls') /\
    hazards st' = <[targetIndex := target']> (hazards st) /\
    riskMatrix st' = riskMatrix st /\
    ls' = scheduleSave st' ls /\
    causes target' !! S targetRow = Some (Some (setCauseId newId cause)) /\
    (forall i, (i <= targetRow)%nat -> causes target' !! i = causes target !! i) /\
    (forall i, (targetRow < i)%nat -> causes target' !! S i = causes target !! i) /\
    c_text (setCauseId newId cause) = c_text cause /\
    preventionMeasures (setCauseId newId cause) = preventionMeasures cause /\
    consequences target' = consequences target /\
    recommendations target' = recommendations target /\
    title target' = title target /\
    description target' = description target /\
    totalPreventionMeasures target'
    = totalPreventionMeasures target + Z.max (causeMeasureCount (Some cause)) 1 /\
    totalMitigationMeasures target' = totalMitigationMeasures target /\
    blockRows target <= blockRows target'.
Proof.
  intros Hsource Hcause Htarget Hrow.
  exists (updateHazard targetIndex
            (setCauses (spliceIn (targetRow + 1) (Some (setCauseId newId cause))
                                 (causes target))) st).
  eexists.
  exists (setCauses (spliceIn (targetRow + 1) (Some (setCauseId newId cause)) (causes target))
                    target).
  assert (Htotal :
    totalPreventionMeasures
      (setCauses (spliceIn (targetRow + 1) (Some (setCauseId newId cause)) (causes target))
                 target)
    = totalPreventionMeasures target + Z.max (causeMeasureCount (Some cause)) 1).
  { rewrite !totalPreventionMeasures_sum. simpl causes.
    rewrite sumNatural_spliceIn. reflexivity. }
  split_and!.
  - unfold copyItem. rewrite Hsource. simpl. rewrite Hcause. simpl.
    rewrite Htarget. simpl. reflexivity.
  - unfold updateHazard. simpl. by apply alter_is_insert.
  - reflexivity.
  - reflexivity.
  - simpl causes. replace (S targetRow) with (targetRow + 1)%nat by lia.
    apply spliceIn_lookup_eq. lia.
  - intros i Hi. simpl causes. apply spliceIn_lookup_lt; lia.
  - intros i Hi. simpl causes. apply spliceIn_lookup_gt; lia.
  - reflexivity.
  - reflexivity.
  - reflexivity.
  - reflexivity.
  - reflexivity.
  - reflexivity.
  - exact Htotal.
  - reflexivity.
  - unfold blockRows. rewrite Htotal.
    change (totalMitigationMeasures (setCauses _ target)) with (totalMitigationMeasures target).
    lia.
Qed.

Lemma paste_inserts_copied_cause_witness :
  exists st' ls',
    (clip ← copyItem (RefCause 0 0) scenarioState None;
     pasteItem "n" (RefCause 0 1) clip scenarioState (mkLocalStorage None false)) = Ok (st', ls').
Proof.
  destruct (paste_inserts_copied_cause "n" scenarioState (mkLocalStorage None false) None 0 0 0 1
              scenarioHazard scenarioHazard (mkCause "a" "A" (Some [mkMeasure "m" "measure";
                                                                    mkMeasure "m" "measure"]))
              eq_refl eq_refl eq_refl ltac:(simpl; lia))
    as (st' & ls' & target' & Hpaste & _).
  exists st', ls'. exact Hpaste.
Defined.

(** ** Rendering the computed risk field *)

Lemma renderRiskField_fixed st c :
  exists c' view,
    renderRiskField st c = Ok (c', view) /\
    renderRiskField st c' = Ok (c', view) /\
    q_id c' = q_id c /\ q_text c' = q_text c /\
    mitigationMeasures c' = mitigationMeasures c /\
    view = mkRiskView (evaluatorLabel st (Some c'))
                      (if truthy (Some (evaluatorColor st (Some c')))
                       then Some (evaluatorColor st (Some c')) else None).
Proof.
  unfold renderRiskField, evaluatorLabel, evaluatorColor.
  rewrite computeRiskScore_completes. simpl.
  rewrite getRiskLevelColor_completes. simpl.
  eexists _, _. split; [reflexivity|]. simpl.
  rewrite computeRiskScore_completes. simpl.
  rewrite getRiskLevelColor_completes. simpl.
  by split_and!.
Qed.

(** The views of the computed risk field agree with the evaluator: an
    empty cell for a missing consequence, otherwise the evaluator's label
    for the consequence's levels, on the evaluator's colour when it
    resolves one. *)
Lemma rendered_views st : forall (l : list (option Consequence)),
  exists rendered,
    mapJs (fun cons : option Consequence =>
             match cons with
             | Some c => '(c', view) ← renderRiskField st c; Ok (Some c', Some view)
             | None => Ok (None, None)
             end) l = Ok rendered /\
    mapJs (fun cons : option Consequence =>
             match cons with
             | Some c => '(c', view) ← renderRiskField st c; Ok (Some c', Some view)
             | None => Ok (None, None)
             end) (map fst rendered) = Ok rendered /\
    length rendered = length l /\
    map consText (map fst rendered) = map consText l /\
    Forall (fun cv =>
              match fst cv with
              | Some c =>
                  snd cv = Some (mkRiskView
                                   (evaluatorLabel st (Some c))
                                   (if truthy (Some (evaluatorColor st (Some c)))
                                    then Some (evaluatorColor st (Some c)) else None))
              | None => snd cv = None
              end) rendered.
Proof.
  induction l as [|cons t (rendered & Hfirst & Hagain & Hlen & Htext & Hviews)].
  - exists []. by split_and!.
  - destruct cons as [c|].
    + destruct (renderRiskField_fixed st c) as (c' & view & H1 & H2 & _ & Ht & _ & Hv).
      exists ((Some c', Some view) :: rendered). split_and!.
      * simpl mapJs. rewrite H1, Hfirst. reflexivity.
      * simpl map. simpl mapJs. rewrite H2, Hagain. reflexivity.
      * simpl. by rewrite Hlen.
      * simpl. by rewrite Ht, Htext.
      * constructor; [simpl; by rewrite Hv|done].
    + exists ((None, None) :: rendered). split_and!.
      * simpl mapJs. rewrite Hfirst. reflexivity.
      * simpl map. simpl mapJs. rewrite Hagain. reflexivity.
      * simpl. by rewrite Hlen.
      * simpl. by rewrite Htext.
      * by constructor.
Qed.

(** X18. Rendering the computed Risk column of a hazard completes, gives
    one view per consequence, and is idempotent: rendering the hazard it
    leaves behind changes nothing more and shows the same views. Each view
    is the evaluator's label for the consequence's levels, on the
    evaluator's colour when it resolves one, and an empty cell for a
    missing consequence. The rendering writes to the risk records only: the
    causes, the recommendations, the texts of the consequences and the
    block row count of the hazard stay as they were. *)
Theorem rendering_risk_column_is_idempotent (st : State) (hazard : Hazard) :
  exists hazard' views,
    renderRiskSegments st hazard = Ok (hazard', views) /\
    renderRiskSegments st hazard' = Ok (hazard', views) /\
    length views = length (consequences hazard) /\
    Forall2 (fun cons view =>
               match cons with
               | Some c =>
                   view = Some (mkRiskView
                                  (evaluatorLabel st (Some c))
                                  (if truthy (Some (evaluatorColor st (Some c)))
                                   then Some (evaluatorColor st (Some c)) else None))
               | None => view = None
               end)
            (consequences hazard') views /\
    map consText (consequences hazard') = map consText (consequences hazard) /\
    causes hazard' = causes hazard /\
    recommendations hazard' = recommendations hazard /\
    title hazard' = title hazard /\
    blockRows hazard' = blockRows hazard.
Proof.
  destruct (rendered_views st (consequences hazard))
    as (rendered & Hfirst & Hagain & Hlen & Htext & Hviews).
  destruct (renderRiskSegments_refreshes st hazard)
    as (hazard0 & views0 & Hrender0 & _ & Hcauses0 & Hcounts0).
  unfold renderRiskSegments in *. rewrite Hfirst in *. simpl in Hrender0.
  injection Hrender0 as <- <-. simpl in Hcounts0.
  eexists _, _. split_and!.
  - reflexivity.
  - simpl. rewrite Hagain. reflexivity.
  - by rewrite length_map.
  - simpl. clear -Hviews. induction Hviews as [|[c v] t Hcv _ IH]; simpl; by constructor.
  - exact Htext.
  - reflexivity.
  - reflexivity.
  - reflexivity.
  - unfold blockRows. rewrite !totalPreventionMeasures_sum, !totalMitigationMeasures_sum.
    simpl. by rewrite Hcounts0.
Qed.

(** ** The hazard actions *)

Lemma totalBlockRows_app a b : totalBlockRows (a ++ b) = totalBlockRows a + totalBlockRows b.
Proof.
  induction a as [|h t IH]; [done|].
  simpl app. rewrite !totalBlockRows_cons, IH. lia.
Qed.

Lemma totalBlockRows_spliceIn (n : nat) (x : Hazard) (l : list Hazard) :
  totalBlockRows (spliceIn n x l) = totalBlockRows l + blockRows x.
Proof.
  unfold spliceIn. rewrite totalBlockRows_app, totalBlockRows_cons.
  rewrite <- (take_drop n l) at 3. rewrite totalBlockRows_app. lia.
Qed.

Lemma setHazards_same st : setHazards (hazards st) st = st.
Proof. by destruct st. Qed.

(** X19. The actions of a hazard row. Duplicating the hazard puts a copy
    with a new id right below it; the copy has the same block row count,
    so the export grows by that many rows. Copying the hazard and pasting
    it on the same row does the same as duplicating it. Adding above puts
    an empty hazard at the row's index and moves the hazard down by one,
    adding below puts it right below; the empty hazard takes one export
    row. In each case the hazards above keep their index, and removing the
    new hazard gives back the state as it was. *)
Theorem hazard_actions_insert_next_to_row (newId : string) (hazardIndex : nat) (st : State)
    (ls : LocalStorage) (hazard : Hazard) :
  hazards st !! hazardIndex = Some hazard ->
  (exists st' ls',
     duplicateHazard newId hazardIndex st ls = Ok (st', ls') /\
     (clip ← copyHazard hazardIndex st; pasteHazard newId hazardIndex clip st ls)
     = Ok (st', ls') /\
     hazards st' !! hazardIndex = Some hazard /\
     hazards st' !! S hazardIndex = Some (setHazardId newId hazard) /\
     (forall i, (i < hazardIndex)%nat -> hazards st' !! i = hazards st !! i) /\
     (forall i, (hazardIndex < i)%nat -> hazards st' !! S i = hazards st !! i) /\
     blockRows (setHazardId newId hazard) = blockRows hazard /\
     totalBlockRows (hazards st') = totalBlockRows (hazards st) + blockRows hazard /\
     fst (removeHazard (S hazardIndex) st' ls') = st) /\
  (let st' := fst (addHazardAbove newId hazardIndex st ls) in
   hazards st' !! hazardIndex = Some (createHazard newId) /\
   hazards st' !! S hazardIndex = Some hazard /\
   (forall i, (i < hazardIndex)%nat -> hazards st' !! i = hazards st !! i) /\
   totalBlockRows (hazards st') = totalBlockRows (hazards st) + 1 /\
   fst (removeHazard hazardIndex st' ls) = st) /\
  (let st' := fst (addHazardBelow newId hazardIndex st ls) in
   hazards st' !! hazardIndex = Some hazard /\
   hazards st' !! S hazardIndex = Some (createHazard newId) /\
   (forall i, (hazardIndex < i)%nat -> hazards st' !! S i = hazards st !! i) /\
   totalBlockRows (hazards st') = totalBlockRows (hazards st) + 1 /\
   fst (removeHazard (S hazardIndex) st' ls) = st).
Proof.
  intros Hhazard. pose proof (lookup_lt_Some _ _ _ Hhazard) as Hlt.
  split_and!.
  - unfold duplicateHazard, copyHazard, pasteHazard. rewrite Hhazard. simpl.
    eexists _, _. split; [reflexivity|]. split; [reflexivity|].
    replace (hazardIndex + 1)%nat with (S hazardIndex) by lia.
    unfold removeHazard. cbn [hazards setHazards fst]. repeat apply conj.
    + rewrite spliceIn_lookup_lt by lia. done.
    + apply spliceIn_lookup_eq. lia.
    + intros i Hi. apply spliceIn_lookup_lt; lia.
    + intros i Hi. apply spliceIn_lookup_gt; lia.
    + unfold blockRows. reflexivity.
    + rewrite totalBlockRows_spliceIn. reflexivity.
    + rewrite spliceOut_spliceIn by lia. by destruct st.
  - cbn [addHazardAbove hazards setHazards fst]. repeat apply conj.
    + apply spliceIn_lookup_eq. lia.
    + rewrite spliceIn_lookup_gt by lia. done.
    + intros i Hi. apply spliceIn_lookup_lt; lia.
    + rewrite totalBlockRows_spliceIn. reflexivity.
    + unfold removeHazard. cbn [hazards setHazards fst].
      rewrite spliceOut_spliceIn by lia. by destruct st.
  - cbn [addHazardBelow hazards setHazards fst].
    replace (hazardIndex + 1)%nat with (S hazardIndex) by lia. repeat apply conj.
    + rewrite spliceIn_lookup_lt by lia. done.
    + apply spliceIn_lookup_eq. lia.
    + intros i Hi. apply spliceIn_lookup_gt; lia.
    + rewrite totalBlockRows_spliceIn. reflexivity.
    + unfold removeHazard. cbn [hazards setHazards fst].
      rewrite spliceOut_spliceIn by lia. by destruct st.
Qed.

Lemma hazard_actions_insert_next_to_row_witness :
  exists st' ls',
    duplicateHazard "n" 0 scenarioState (mkLocalStorage None false) = Ok (st', ls').
Proof.
  destruct (proj1 (hazard_actions_insert_next_to_row "n" 0 scenarioState
                     (mkLocalStorage None false) scenarioHazard eq_refl))
    as (st' & ls' & Hdup & _).
  exists st', ls'. exact Hdup.
Defined.

Lemma updateHazard_keeps hazardIndex f st :
  length (hazards (updateHazard hazardIndex f st)) = length (hazards st) /\
  riskMatrix (updateHazard hazardIndex f st) = riskMatrix st /\
  autosave (updateHazard hazardIndex f st) = autosave st /\
  compactMode (updateHazard hazardIndex f st) = compactMode st.
Proof. unfold updateHazard. simpl. by rewrite length_alter. Qed.

(** X20. [pasteItem] acts only when the clipboard holds an item of the
    type of the row it is used on (for a measure, of the same owner type):
    with an empty clipboard or another type it changes nothing and saves
    nothing. When it fails it fails with a TypeError, before any change.
    When it completes it has neither added nor removed a hazard, the risk
    matrix and the two flags are as before, and the storage is either
    untouched or what the autosave rule makes of the new state. *)
Theorem paste_needs_matching_clipboard (newId : string) (ref : ItemRef)
    (clipboard : option Clip) (st : State) (ls : LocalStorage) :
  ((forall clip, clipboard = Some clip -> refKind ref <> clipKind clip) ->
   pasteItem newId ref clipboard st ls = Ok (st, ls)) /\
  (forall e, pasteItem newId ref clipboard st ls = Throw e -> e = TypeError) /\
  (forall st' ls',
     pasteItem newId ref clipboard st ls = Ok (st', ls') ->
     length (hazards st') = length (hazards st) /\
     riskMatrix st' = riskMatrix st /\
     autosave st' = autosave st /\
     compactMode st' = compactMode st /\
     (ls' = ls \/ ls' = scheduleSave st' ls)).
Proof.
  split_and!.
  - intros Hkind. destruct clipboard as [clip|]; [|done].
    specialize (Hkind clip eq_refl).
    destruct ref, clip; simpl in *; try done.
    destruct ownerType, ownerType0; simpl; done.
  - intros e. destruct clipboard as [clip|]; [|done].
    destruct ref as [hi ri|hi ri|o hi ri mi|hi ri], clip as [d|d|o' d|d|d]; simpl; try done.
    + destruct d; simpl; [|congruence].
      destruct (hazards st !! hi); simpl; congruence.
    + destruct d; simpl; [|congruence].
      destruct (hazards st !! hi); simpl; congruence.
    + destruct o, o'; simpl; try done.
      * destruct (hazards st !! hi) as [h|]; simpl; [|congruence].
        destruct (causes h !! ri) as [[c|]|]; simpl; try congruence.
        destruct (preventionMeasures c); simpl; congruence.
      * destruct (hazards st !! hi) as [h|]; simpl; [|congruence].
        destruct (consequences h !! ri) as [[c|]|]; simpl; try congruence.
        destruct (mitigationMeasures c); simpl; congruence.
    + destruct (hazards st !! hi); simpl; congruence.
  - intros st' ls'. destruct clipboard as [clip|]; [|intros [= <- <-]; by split_and!; [..|left]].
    destruct ref as [hi ri|hi ri|o hi ri mi|hi ri], clip as [d|d|o' d|d|d]; simpl;
      try (intros [= <- <-]; split_and!; try done; by left).
    + destruct d; simpl; [|done].
      destruct (hazards st !! hi); simpl; [|done].
      intros [= <- <-]. destruct (updateHazard_keeps hi
        (setCauses (spliceIn (ri + 1) (Some (setCauseId newId c)) (causes h))) st)
        as (? & ? & ? & ?). split_and!; try done. by right.
    + destruct d; simpl; [|done].
      destruct (hazards st !! hi); simpl; [|done].
      intros [= <- <-]. destruct (updateHazard_keeps hi
        (setConsequences (spliceIn (ri + 1) (Some (setConsequenceId newId c))
                                   (consequences h))) st)
        as (? & ? & ? & ?). split_and!; try done. by right.
    + destruct o, o'; simpl; try (intros [= <- <-]; split_and!; try done; by left).
      * destruct (hazards st !! hi) as [h|]; simpl; [|done].
        destruct (causes h !! ri) as [[c|]|]; simpl; try done.
        destruct (preventionMeasures c); simpl; [|done].
        intros [= <- <-]. split_and!; try done.
        -- unfold updateHazard. simpl. by rewrite length_alter.
        -- by right.
      * destruct (hazards st !! hi) as [h|]; simpl; [|done].
        destruct (consequences h !! ri) as [[c|]|]; simpl; try done.
        destruct (mitigationMeasures c); simpl; [|done].
        intros [= <- <-]. split_and!; try done.
        -- unfold updateHazard. simpl. by rewrite length_alter.
        -- by right.
    + destruct (hazards st !! hi); simpl; [|done].
      intros [= <- <-]. split_and!; try done.
      * unfold updateHazard. simpl. by rewrite length_alter.
      * by right.
Qed.

(** ** The segmented columns of the table *)

Lemma column_forEach {A} (seg : A -> Z -> ColumnSegment) (l : list A) : forall i c,
  forEachFrom (fun x i c => appendColumn (seg x i) c) i l c
  = mkColumn (templateRows c)
             (columnSegments c ++ map (fun ix => seg (snd ix) (fst ix)) (indexedFrom i l)).
Proof.
  induction l as [|x t IH]; intros i c.
  - simpl. rewrite app_nil_r. by destruct c.
  - simpl forEachFrom. rewrite IH. simpl. by rewrite <- app_assoc.
Qed.

Lemma indexedFrom_fst {A} (l : list A) : forall i, map fst (indexedFrom i l) = seqZ i (len l).
Proof.
  induction l as [|x t IH]; intros i; [done|].
  rewrite len_cons. pose proof (len_nonneg t).
  rewrite seqZ_cons by lia. simpl. rewrite IH. do 2 f_equal; lia.
Qed.

Lemma segmentsOfKind_indexed {A} (kind : string) (f : Z * A -> SegmentContent)
    (l : list A) (rows i : Z) :
  segmentsOfKind kind
    (mkColumn rows (map (fun ix => mkColumnSegment (Some (kind, fst ix)) (f ix))
                        (indexedFrom i l)))
  = seqZ i (len l).
Proof.
  rewrite <- indexedFrom_fst. unfold segmentsOfKind.
  cbn [columnSegments].
  induction (indexedFrom i l) as [|[j x] t IH]; [done|].
  cbn [map omap list_omap dataset fst]. rewrite String.eqb_refl. f_equal. exact IH.
Qed.

Lemma stack_forEach (ms : list Measure) : forall i c,
  forEachFrom (fun m (_ : Z) c => appendSegment (MeasureInput m) c) i ms c
  = mkSegments (gridTemplateRows c) (segments c ++ map MeasureInput ms).
Proof.
  induction ms as [|m t IH]; intros i c.
  - simpl. rewrite app_nil_r. by destruct c.
  - simpl forEachFrom. rewrite IH. simpl. by rewrite <- app_assoc.
Qed.

Lemma measure_stack_filled (measures : option (list Measure)) :
  StackFilled (Z.max (len (orNil measures)) 1) (renderMeasureStack (Some measures)).
Proof.
  unfold StackFilled, renderMeasureStack.
  pose proof (len_nonneg (orNil measures)) as Hlen.
  destruct (Z.eqb_spec (len (orNil measures)) 0) as [Hz|Hnz].
  - eexists. split; [reflexivity|]. rewrite Hz. by split.
  - eexists. split; [reflexivity|]. unfold forEach. rewrite stack_forEach. simpl.
    split; [lia|]. rewrite len_map. lia.
Qed.

(** X21. The columns of a hazard on screen pair up segment by segment. The
    cause column and the prevention-measures column both have
    max(number of causes, 1) grid rows and exactly that many segments, and
    they carry the same segment indices 0 .. n-1, so the alignment finds a
    partner for every segment; likewise the consequence column, the
    mitigation-measures column and the computed risk column for the
    consequences. The measure stack of a cause or consequence has
    max(number of measures, 1) rows and segments, which is the row span the
    export gives the item when it is not the last one. *)
Theorem table_columns_pair_up (st : State) (hazard : Hazard) :
  let n := len (causes hazard) in
  let m := len (consequences hazard) in
  (ColumnFilled (renderCauseSegments hazard) /\
   ColumnFilled (renderCauseMeasuresSegments hazard) /\
   templateRows (renderCauseSegments hazard) = Z.max n 1 /\
   templateRows (renderCauseMeasuresSegments hazard) = Z.max n 1 /\
   segmentsOfKind "cause" (renderCauseSegments hazard) = seqZ 0 n /\
   segmentsOfKind "cause-measures" (renderCauseMeasuresSegments hazard) = seqZ 0 n) /\
  (ColumnFilled (renderConsequenceSegments hazard) /\
   ColumnFilled (renderConsequenceMeasuresSegments hazard) /\
   templateRows (renderConsequenceSegments hazard) = Z.max m 1 /\
   templateRows (renderConsequenceMeasuresSegments hazard) = Z.max m 1 /\
   segmentsOfKind "consequence" (renderConsequenceSegments hazard) = seqZ 0 m /\
   segmentsOfKind "consequence-measures" (renderConsequenceMeasuresSegments hazard)
   = seqZ 0 m) /\
  (exists hazard' column,
     renderRiskScoreColumn st hazard = Ok (hazard', column) /\
     ColumnFilled column /\
     templateRows column = Z.max m 1 /\
     segmentsOfKind "risk-score" column = seqZ 0 m) /\
  (forall i cause,
     causes hazard !! i = Some (Some cause) ->
     StackFilled (Z.max (causeMeasureCount (Some cause)) 1) (causeMeasureStack hazard i)) /\
  (forall i consequence,
     consequences hazard !! i = Some (Some consequence) ->
     StackFilled (Z.max (consMeasureCount (Some consequence)) 1)
                 (consMeasureStack hazard i)).
Proof.
  intros n m. subst n m.
  pose proof (len_nonneg (causes hazard)) as Hn.
  pose proof (len_nonneg (consequences hazard)) as Hm.
  split; [|split; [|split; [|split]]].
  - unfold renderCauseSegments, renderCauseMeasuresSegments, ColumnFilled, forEach.
    rewrite !column_forEach.
    destruct (Z.eqb_spec (len (causes hazard)) 0) as [Hz|Hnz].
    + rewrite Hz. repeat apply conj; reflexivity.
    + cbn [columnContainer templateRows columnSegments app].
      rewrite !len_map, !len_indexedFrom.
      rewrite (segmentsOfKind_indexed "cause" (fun ix => CauseCell (snd ix))).
      rewrite (segmentsOfKind_indexed "cause-measures"
                 (fun ix => MeasureStack (causeMeasureStack hazard (Z.to_nat (fst ix))))).
      repeat apply conj; try lia; reflexivity.
  - unfold renderConsequenceSegments, renderConsequenceMeasuresSegments, ColumnFilled, forEach.
    rewrite !column_forEach.
    destruct (Z.eqb_spec (len (consequences hazard)) 0) as [Hz|Hnz].
    + rewrite Hz. repeat apply conj; reflexivity.
    + cbn [columnContainer templateRows columnSegments app].
      rewrite !len_map, !len_indexedFrom.
      rewrite (segmentsOfKind_indexed "consequence" (fun ix => ConsequenceCell (snd ix))).
      rewrite (segmentsOfKind_indexed "consequence-measures"
                 (fun ix => MeasureStack (consMeasureStack hazard (Z.to_nat (fst ix))))).
      repeat apply conj; try lia; reflexivity.
  - unfold renderRiskScoreColumn.
    destruct (Z.eqb_spec (len (consequences hazard)) 0) as [Hz|Hnz].
    + eexists _, _. split; [reflexivity|]. rewrite Hz. repeat apply conj; reflexivity.
    + destruct (rendered_views st (consequences hazard))
        as (rendered & Hfirst & _ & Hlen & _).
      unfold renderRiskSegments. rewrite Hfirst. simpl.
      eexists _, _. split; [reflexivity|].
      unfold forEach, ColumnFilled. rewrite column_forEach.
      cbn [columnContainer templateRows columnSegments app].
      rewrite (segmentsOfKind_indexed "risk-score" (fun ix => RiskField (snd ix))).
      rewrite !len_map, !len_indexedFrom, !len_map.
      assert (len rendered = len (consequences hazard)) as -> by (unfold len; by rewrite Hlen).
      repeat apply conj; try lia; reflexivity.
  - intros i cause Hi. unfold causeMeasureStack. rewrite Hi. simpl.
    apply measure_stack_filled.
  - intros i c Hi. unfold consMeasureStack. rewrite Hi. simpl.
    apply measure_stack_filled.
Qed.

(** ** Merged ranges of the HAZID worksheet *)

Lemma Chain_bounds cells : forall lo hi, Chain lo hi cells -> lo <= hi.
Proof.
  induction cells as [|[r s] t IH]; intros lo hi H; [done|].
  simpl in H. destruct H as (Hlo & Hs & Ht). apply IH in Ht. lia.
Qed.

Lemma Chain_weaken cells : forall lo lo' hi hi',
  lo' <= lo -> hi <= hi' -> Chain lo hi cells -> Chain lo' hi' cells.
Proof.
  induction cells as [|[r s] t IH]; intros lo lo' hi hi' Hlo Hhi H.
  - simpl in *. lia.
  - simpl in *. destruct H as (H1 & H2 & H3). split_and!; [lia|lia|].
    eapply IH; [| |exact H3]; lia.
Qed.

Lemma Chain_app a : forall b lo mid hi,
  Chain lo mid a -> Chain mid hi b -> Chain lo hi (a ++ b).
Proof.
  induction a as [|[r s] t IH]; intros b lo mid hi Ha Hb.
  - simpl in *. eapply Chain_weaken; [| |exact Hb]; lia.
  - simpl in *. destruct Ha as (H1 & H2 & H3). split_and!; [lia|lia|].
    by eapply IH.
Qed.

Lemma Chain_nil lo hi : lo <= hi -> Chain lo hi [].
Proof. done. Qed.

Lemma Chain_single r s : 1 <= s -> Chain r (r + s) [(r, s)].
Proof. intros H. simpl. lia. Qed.

Lemma measureTrace_chain col r rows ms : forall j,
  0 <= j -> j + len ms <= rows ->
  Chain (r + j) (r + rows) (cellsOfColumn col (measureTrace col r rows j ms)).
Proof.
  induction ms as [|m t IH]; intros j Hj Hfit.
  - unfold len in Hfit. simpl in *. lia.
  - rewrite len_cons in Hfit. pose proof (len_nonneg t) as Ht.
    simpl measureTrace. rewrite cellsOfColumn_cons_eq.
    destruct t as [|m' t'].
    + unfold len in Hfit. simpl in *. lia.
    + cbn [Chain fst snd]. split_and!; [lia|lia|].
      replace (r + j + 1) with (r + (j + 1)) by lia. apply IH; lia.
Qed.

Lemma extras_chain col r rows (extra : list (Z * string)) :
  1 <= rows -> NoDup (map fst extra) ->
  Chain r (r + rows)
        (cellsOfColumn col (map (fun cv => MergeAndSet r (fst cv) rows (snd cv)) extra)).
Proof.
  intros Hrows. induction extra as [|cv t IH]; intros Hnd.
  - simpl. lia.
  - simpl map in *. apply NoDup_cons in Hnd as [Hnotin Hnd].
    destruct (decide (fst cv = col)) as [<-|Hne].
    + rewrite cellsOfColumn_cons_eq, extra_other.
      * by apply Chain_single.
      * apply Forall_forall. intros cv' Hin Heq. apply Hnotin.
        rewrite <- Heq. apply list_elem_of_fmap. by exists cv'.
    + rewrite cellsOfColumn_cons_ne by done. by apply IH.
Qed.

Lemma sideTrace_chain colItem colMeasure col B s items :
  colItem <> colMeasure ->
  Forall (fun it => Forall (fun cv => fst cv <> colItem /\ fst cv <> colMeasure) (iv_extra it)
                    /\ NoDup (map fst (iv_extra it))) items ->
  forall off,
  0 <= off -> off + sumNatural (map (fun it => len (iv_measures it)) items) <= B ->
  Chain (s + off) (s + B) (cellsOfColumn col (sideTrace colItem colMeasure B s off items)).
Proof.
  intros Hcols Hextra.
  induction Hextra as [|it t [Hit Hnd] _ IH]; intros off Hoff Hfit.
  - unfold sumNatural in Hfit. simpl in *. lia.
  - simpl map in Hfit. rewrite sumNatural_cons in Hfit.
    pose proof (sumNatural_nonneg (map (fun it => len (iv_measures it)) t)) as Hrest.
    pose proof (len_nonneg (iv_measures it)) as Hlen.
    simpl sideTrace.
    set (rows := match t with [] => B - off | _ => Z.max (len (iv_measures it)) 1 end).
    assert (Hrows : Z.max (len (iv_measures it)) 1 <= rows /\ off + rows <= B).
    { subst rows. destruct t; lia. }
    assert (Htail : off + rows + sumNatural (map (fun it => len (iv_measures it)) t) <= B).
    { subst rows. destruct t; [|lia]. simpl. unfold sumNatural. simpl. lia. }
    clearbody rows.
    change (MergeAndSet (s + off) colItem rows (iv_text it) :: ?rest)
      with ([MergeAndSet (s + off) colItem rows (iv_text it)] ++ rest).
    rewrite !cellsOfColumn_app.
    rewrite app_assoc, app_assoc.
    apply (Chain_app _ _ _ (s + off + rows)).
    2:{ replace (s + off + rows) with (s + (off + rows)) by lia. apply IH; lia. }
    destruct (decide (col = colItem)) as [->|HnI].
    + rewrite cellsOfColumn_cons_eq, measureTrace_other by done.
      rewrite extra_other.
      2:{ eapply Forall_impl; [exact Hit|]. intros cv [H1 H2]. done. }
      simpl. lia.
    + rewrite (cellsOfColumn_cons_ne col colItem) by done.
      destruct (decide (col = colMeasure)) as [->|HnM].
      * rewrite extra_other.
        2:{ eapply Forall_impl; [exact Hit|]. intros cv [H1 H2]. done. }
        simpl app. rewrite app_nil_r.
        replace (s + off) with (s + off + 0) at 1 by lia.
        apply measureTrace_chain; lia.
      * rewrite measureTrace_other by done. simpl app.
        apply extras_chain; [lia|done].
Qed.

Lemma causeView_chain_extras (l : list (option Cause)) :
  Forall (fun it => Forall (fun cv => fst cv <> 2 /\ fst cv <> 3) (iv_extra it)
                    /\ NoDup (map fst (iv_extra it))) (map causeView l).
Proof.
  apply Forall_fmap, Forall_true. intros cause. split; [constructor|].
  simpl. constructor.
Qed.

Lemma consView_chain_extras (l : list (option Consequence)) :
  Forall (fun it => Forall (fun cv => fst cv <> 4 /\ fst cv <> 5) (iv_extra it)
                    /\ NoDup (map fst (iv_extra it))) (map consView l).
Proof.
  apply Forall_fmap, Forall_true. intros cons. split.
  - simpl. repeat constructor; simpl; lia.
  - simpl. repeat (constructor; [rewrite ?elem_of_cons, elem_of_nil; lia|]). constructor.
Qed.

Lemma cellsOfColumn_single_ne col c r rowSpan v :
  c <> col -> cellsOfColumn col [MergeAndSet r c rowSpan v] = [].
Proof. intros H. by rewrite cellsOfColumn_cons_ne. Qed.

Lemma block_chain col st hazard row :
  Chain row (row + blockRows hazard) (cellsOfColumn col (blockTrace st hazard row)).
Proof.
  pose proof (blockRows_pos hazard) as Hpos.
  destruct (blockRows_fits hazard) as [Hcauses Hcons].
  assert (Hcause_chain :
    Chain row (row + blockRows hazard)
      (cellsOfColumn col (sideTrace 2 3 (blockRows hazard) row 0
                            (map causeView (causes hazard))))).
  { replace row with (row + 0) at 1 by lia.
    apply sideTrace_chain; [lia|apply causeView_chain_extras|lia|].
    rewrite causeView_counts. lia. }
  assert (Hcons_chain :
    Chain row (row + blockRows hazard)
      (cellsOfColumn col (sideTrace 4 5 (blockRows hazard) row 0
                            (map consView (consequences hazard))))).
  { replace row with (row + 0) at 1 by lia.
    apply sideTrace_chain; [lia|apply consView_chain_extras|lia|].
    rewrite consView_counts. lia. }
  assert (Hone : forall c v,
            cellsOfColumn col [MergeAndSet row c (blockRows hazard) v]
            = if c =? col then [(row, blockRows hazard)] else []).
  { intros c v. unfold cellsOfColumn. simpl. by destruct (c =? col). }
  unfold blockTrace. rewrite !cellsOfColumn_app, !Hone.
  rewrite (cellsOfColumn_none col (map _ _)) by (apply Forall_fmap, Forall_true; done).
  rewrite (cellsOfColumn_none col (flat_map _ _)).
  2:{ apply Forall_flat_map, Forall_true. intros r.
      apply Forall_fmap, Forall_true. done. }
  rewrite (cellsOfColumn_none col (colorTrace _ _ _ _ _)) by apply colorTrace_no_merge.
  rewrite !app_nil_r. rewrite app_nil_l.
  destruct (decide (col = 1)) as [->|H1].
  { rewrite (sideTrace_other_column 2 3) by (try lia; apply causeView_extra_columns).
    rewrite (sideTrace_other_column 4 5) by (try lia; apply consView_risk_columns; lia).
    simpl. lia. }
  destruct (decide (col = 10)) as [->|H10].
  { rewrite (sideTrace_other_column 2 3) by (try lia; apply causeView_extra_columns).
    rewrite (sideTrace_other_column 4 5) by (try lia; apply consView_risk_columns; lia).
    simpl. lia. }
  replace (1 =? col) with false by (symmetry; apply Z.eqb_neq; lia).
  replace (10 =? col) with false by (symmetry; apply Z.eqb_neq; lia).
  rewrite app_nil_l, app_nil_r.
  destruct (decide (col = 2 \/ col = 3)) as [H23|H23].
  { rewrite (sideTrace_other_column 4 5) by (try lia; apply consView_risk_columns; lia).
    by rewrite app_nil_r. }
  rewrite (sideTrace_other_column 2 3) by (try lia; apply causeView_extra_columns).
  exact Hcons_chain.
Qed.

Lemma blocks_chain col st : forall hs row,
  Chain row (row + totalBlockRows hs) (cellsOfColumn col (blocksTrace st row hs)).
Proof.
  induction hs as [|h t IH]; intros row.
  - simpl. unfold totalBlockRows. simpl. lia.
  - simpl blocksTrace. rewrite totalBlockRows_cons, cellsOfColumn_app.
    apply (Chain_app _ _ _ (row + blockRows h)); [apply block_chain|].
    replace (row + (blockRows h + totalBlockRows t))
      with (row + blockRows h + totalBlockRows t) by lia.
    apply IH.
Qed.

Lemma mergedRows_of_cells col (sheet : list SheetCall) :
  mergedRowsOfColumn col (mergeOps sheet) = omap mergedRange (cellsOfColumn col sheet).
Proof.
  unfold mergedRowsOfColumn, mergeOps, cellsOfColumn.
  induction sheet as [|call t IH]; [done|].
  simpl flat_map. rewrite omap_app, IH. clear IH.
  destruct call as [row|r c rowSpan v|r c argb|r c argb font]; try done.
  unfold mergeAndSet, mergedRange. simpl.
  destruct (Z.eqb_spec c col) as [->|Hne].
  - simpl. destruct (r + Z.max rowSpan 1 - 1 >? r); simpl; [by rewrite Z.eqb_refl|done].
  - destruct (r + Z.max rowSpan 1 - 1 >? r); simpl; [|done].
    by replace (c =? col) with false by (symmetry; by apply Z.eqb_neq).
Qed.

Lemma Chain_ranges cells : forall lo hi,
  Chain lo hi cells -> RangeChain lo hi (omap mergedRange cells).
Proof.
  induction cells as [|[r s] t IH]; intros lo hi H; [done|].
  simpl in H. destruct H as (Hlo & Hs & Ht).
  pose proof (Chain_bounds _ _ _ Ht) as Hhi.
  simpl omap. unfold mergedRange at 1. simpl fst. simpl snd.
  rewrite Z.max_l by lia.
  assert (Hrest : forall lo', lo' <= r + s -> RangeChain lo' hi (omap mergedRange t)).
  { intros lo' Hlo'. apply IH. eapply Chain_weaken; [| |exact Ht]; lia. }
  destruct (Z.gtb_spec (r + s - 1) r).
  - simpl. split_and!; try lia. apply Hrest. lia.
  - simpl. apply Hrest. lia.
Qed.

Lemma RangeChain_weaken ranges : forall lo lo' hi,
  lo' <= lo -> RangeChain lo hi ranges -> RangeChain lo' hi ranges.
Proof.
  destruct ranges as [|[t b] rest]; intros lo lo' hi Hlo H; [done|].
  simpl in *. destruct H as (H1 & H2 & H3 & H4). split_and!; try lia. done.
Qed.

Lemma RangeChain_lookup ranges : forall lo hi (i : nat) a,
  RangeChain lo hi ranges -> ranges !! i = Some a ->
  lo <= fst a /\ fst a < snd a /\ snd a < hi.
Proof.
  induction ranges as [|[t b] rest IH]; intros lo hi i a H Ha; [done|].
  simpl in H. destruct H as (H1 & H2 & H3 & H4).
  destruct i as [|i]; simpl in Ha.
  - injection Ha as <-. simpl. lia.
  - destruct (IH _ _ _ _ H4 Ha) as (? & ? & ?). lia.
Qed.

Lemma RangeChain_ordered ranges : forall lo hi (i j : nat) a b,
  RangeChain lo hi ranges -> (i < j)%nat ->
  ranges !! i = Some a -> ranges !! j = Some b -> snd a < fst b.
Proof.
  induction ranges as [|[t b0] rest IH]; intros lo hi i j a b H Hij Ha Hb; [done|].
  simpl in H. destruct H as (H1 & H2 & H3 & H4).
  destruct j as [|j]; [lia|]. simpl in Hb.
  destruct i as [|i]; simpl in Ha.
  - injection Ha as <-. simpl.
    destruct (RangeChain_lookup _ _ _ _ _ H4 Hb) as (? & _). lia.
  - eapply IH; [exact H4| |exact Ha|exact Hb]. lia.
Qed.

(** X22. No two merged ranges of the HAZID worksheet overlap. The export
    completes, and for every column the ranges that [mergeAndSet] merges in
    it come in call order one strictly below the other: each has at least
    two rows, lies within the data rows added for the hazards, and starts
    below the end of every range merged before it in that column. This
    holds for every state, null items and missing measure lists included. *)
Theorem merged_ranges_never_overlap (st : State) (col : Z) :
  exists calls,
    exportToExcel st = Ok calls /\
    let ranges := mergedRowsOfColumn col (mergeOps calls) in
    (forall (i : nat) a,
       ranges !! i = Some a ->
       2 <= fst a /\ fst a < snd a /\ snd a < 2 + totalBlockRows (hazards st)) /\
    (forall (i j : nat) a b,
       (i < j)%nat -> ranges !! i = Some a -> ranges !! j = Some b -> snd a < fst b).
Proof.
  exists (AddRow headers :: blocksTrace st 2 (hazards st)).
  split; [apply exportToExcel_trace|].
  cbv zeta. rewrite mergedRows_of_cells.
  change (AddRow headers :: ?t) with ([AddRow headers] ++ t).
  rewrite cellsOfColumn_app. simpl app.
  pose proof (Chain_ranges _ _ _ (blocks_chain col st (hazards st) 2)) as Hchain.
  split.
  - intros i a Ha. by eapply RangeChain_lookup.
  - intros i j a b Hij Ha Hb. by eapply RangeChain_ordered.
Qed.

(** ** Adding and removing items *)

Lemma sumNatural_alter (f : option Cause -> Z) (g : option Cause -> option Cause) (i : nat)
    (l : list (option Cause)) (x : option Cause) :
  l !! i = Some x ->
  sumNatural (map f (alter g i l)) = sumNatural (map f l) - Z.max (f x) 1 + Z.max (f (g x)) 1.
Proof.
  intros Hx. rewrite (alter_is_insert g i l x Hx).
  rewrite insert_take_drop by (by eapply lookup_lt_Some).
  rewrite <- (take_drop_middle l i x Hx) at 3.
  rewrite !map_app, !sumNatural_app. simpl map. rewrite !sumNatural_cons. lia.
Qed.

Lemma sumNatural_delete (f : option Cause -> Z) (i : nat) (l : list (option Cause))
    (x : option Cause) :
  l !! i = Some x ->
  sumNatural (map f (delete i l)) = sumNatural (map f l) - Z.max (f x) 1.
Proof.
  intros Hx. rewrite delete_take_drop.
  rewrite <- (take_drop_middle l i x Hx) at 3.
  rewrite !map_app, !sumNatural_app. simpl map. rewrite !sumNatural_cons. lia.
Qed.

(** X23. How editing a hazard moves its block row count. Adding a cause
    adds one to the prevention total. Adding the first measure to a cause
    that has none leaves the total as it is (the cause already took one
    row); inserting a measure below an existing one adds one; removing a
    measure takes one off unless it was the only one. Removing a cause
    takes off max(number of its measures, 1). The block row count follows
    by max with the mitigation total and 1: it never decreases on an
    addition and never increases on a removal. Adding a recommendation
    leaves the block row count unchanged. *)
Theorem edits_move_block_by_natural_span (newId : string) (hazard : Hazard)
    (rowIndex mi : nat) (cause : Cause) :
  causes hazard !! rowIndex = Some (Some cause) ->
  let n := len (orNil (preventionMeasures cause)) in
  let total := totalPreventionMeasures hazard in
  (totalPreventionMeasures (pushCause newId hazard) = total + 1 /\
   blockRows hazard <= blockRows (pushCause newId hazard) <= blockRows hazard + 1) /\
  (n = 0 ->
   totalPreventionMeasures (editCause rowIndex (pushMeasure newId) hazard) = total /\
   blockRows (editCause rowIndex (pushMeasure newId) hazard) = blockRows hazard) /\
  (0 < n ->
   totalPreventionMeasures (editCause rowIndex (insertMeasureBelow newId mi) hazard)
   = total + 1 /\
   blockRows hazard
   <= blockRows (editCause rowIndex (insertMeasureBelow newId mi) hazard)
   <= blockRows hazard + 1) /\
  ((mi < Z.to_nat n)%nat ->
   totalPreventionMeasures (editCause rowIndex (removeMeasure mi) hazard)
   = total - (if n =? 1 then 0 else 1) /\
   blockRows (editCause rowIndex (removeMeasure mi) hazard) <= blockRows hazard) /\
  (totalPreventionMeasures (removeCause rowIndex hazard) = total - Z.max n 1 /\
   1 <= blockRows (removeCause rowIndex hazard) <= blockRows hazard) /\
  blockRows (pushRecommendation newId hazard) = blockRows hazard.
Proof.
  intros Hcause n total. subst n total.
  pose proof (len_nonneg (orNil (preventionMeasures cause))) as Hn.
  assert (Hmit : forall cs, totalMitigationMeasures (setCauses cs hazard)
                            = totalMitigationMeasures hazard) by done.
  assert (Hedit : forall f,
            totalPreventionMeasures (editCause rowIndex f hazard)
            = totalPreventionMeasures hazard
              - Z.max (len (orNil (preventionMeasures cause))) 1
              + Z.max (len (orNil (preventionMeasures (f cause)))) 1).
  { intros f. rewrite !totalPreventionMeasures_sum. unfold editCause. simpl causes.
    rewrite (sumNatural_alter causeMeasureCount (fmap f) rowIndex (causes hazard)
               (Some cause) Hcause).
    reflexivity. }
  split; [|split; [|split; [|split; [|split]]]].
  - assert (Htotal : totalPreventionMeasures (pushCause newId hazard)
                     = totalPreventionMeasures hazard + 1).
    { rewrite !totalPreventionMeasures_sum. unfold pushCause. simpl causes.
      rewrite map_app, sumNatural_app. unfold sumNatural at 2. simpl.
      assert (Hnil : len (@nil Measure) = 0) by reflexivity. rewrite Hnil. lia. }
    split; [exact Htotal|]. unfold blockRows. rewrite Htotal.
    unfold pushCause. rewrite Hmit. lia.
  - intros Hzero.
    assert (Htotal : totalPreventionMeasures (editCause rowIndex (pushMeasure newId) hazard)
                     = totalPreventionMeasures hazard).
    { rewrite Hedit. unfold pushMeasure. simpl preventionMeasures. simpl orNil.
      unfold len in *. rewrite length_app. simpl. lia. }
    split; [exact Htotal|]. unfold blockRows. rewrite Htotal.
    unfold editCause. by rewrite Hmit.
  - intros Hpos.
    assert (Htotal : totalPreventionMeasures
                       (editCause rowIndex (insertMeasureBelow newId mi) hazard)
                     = totalPreventionMeasures hazard + 1).
    { rewrite Hedit. unfold insertMeasureBelow. simpl preventionMeasures. simpl orNil.
      unfold len in *. rewrite spliceIn_length. lia. }
    split; [exact Htotal|]. unfold blockRows. rewrite Htotal.
    unfold editCause. rewrite Hmit. lia.
  - intros Hmi.
    assert (Htotal : totalPreventionMeasures (editCause rowIndex (removeMeasure mi) hazard)
                     = totalPreventionMeasures hazard
                       - (if len (orNil (preventionMeasures cause)) =? 1 then 0 else 1)).
    { rewrite Hedit. unfold removeMeasure, spliceOut. simpl preventionMeasures. simpl orNil.
      unfold len in *. rewrite length_delete.
      2:{ apply lookup_lt_is_Some. lia. }
      destruct (Z.eqb_spec (Z.of_nat (length (orNil (preventionMeasures cause)))) 1); lia. }
    split; [exact Htotal|]. unfold blockRows. rewrite Htotal.
    unfold editCause. rewrite Hmit.
    destruct (len (orNil (preventionMeasures cause)) =? 1); lia.
  - assert (Htotal : totalPreventionMeasures (removeCause rowIndex hazard)
                     = totalPreventionMeasures hazard
                       - Z.max (len (orNil (preventionMeasures cause))) 1).
    { rewrite !totalPreventionMeasures_sum. unfold removeCause, spliceOut. simpl causes.
      rewrite (sumNatural_delete causeMeasureCount rowIndex (causes hazard)
                 (Some cause) Hcause).
      reflexivity. }
    split; [exact Htotal|]. unfold blockRows. rewrite Htotal.
    unfold removeCause. rewrite Hmit. lia.
  - reflexivity.
Qed.

Lemma edits_move_block_by_natural_span_witness :
  blockRows (pushRecommendation "n" scenarioHazard) = blockRows scenarioHazard.
Proof.
  refine (proj2 (proj2 (proj2 (proj2 (proj2
            (edits_move_block_by_natural_span "n" scenarioHazard 0 0
               (mkCause "a" "A" (Some [mkMeasure "m" "measure"; mkMeasure "m" "measure"]))
               _)))))).
  reflexivity.
Defined.
